(** * A shallow embedding of [bin/lib/installation.py]

    The development follows the source file top-down:

    - [Py]: the fragment of Python's data model the installer relies on
      (YAML values, insertion-ordered [dict], [collections.ChainMap],
      [str.format] with keyword arguments);
    - [Expander]: [targets_from] / [_targets_from] / [needs_expansion];
    - [Ctx]: [InstallationContext] over a finite-map file system;
    - [Inst]: the five installable classes with [is_installed],
      [should_install], [stage] and [install];
    - [Build]: [makebuildfor], [makebuild] and [build].

    Definitions come first, statements about them afterwards.  The
    Python modelled is CPython 3.9 or later, where a [dict] keeps
    insertion order and a [ChainMap] is iterated from its last layer
    to its first. *)

From Stdlib Require Import ZArith Ascii String.
From stdpp Require Import gmap strings list fin_maps pretty sorting.

Set Warnings "-register-all".

Local Open Scope Z_scope.
Local Open Scope string_scope.
Local Open Scope list_scope.
Local Open Scope stdpp_scope.

(** ** Exceptions and results *)

(** The exceptions the modelled code can raise.  [RuntimeError] keeps
    the message of the source where the message only interpolates
    strings; the remaining constructors name the Python exception
    class.  [Unmodelled] marks behaviour of the Python runtime that the
    embedding does not describe (attribute and index lookups inside a
    replacement field, conversions, format specs, [repr] of
    containers). *)
Inductive exn :=
| RuntimeError (msg : string)
| UnableToFindKey (ke : string) (context : list string)
| KeyError (key : string)
| ValueError (msg : string)
| IndexError (msg : string)
| TypeError (msg : string)
| FileNotFoundError (path : string)
| OSError (what : string)
| CalledProcessError (cmd : list string)
| Unmodelled (what : string).

Inductive result (A : Type) :=
| Ok (a : A)
| Raise (e : exn).
Arguments Ok {A} a.
Arguments Raise {A} e.

Definition bind {A B} (r : result A) (k : A -> result B) : result B :=
  match r with
  | Ok a => k a
  | Raise e => Raise e
  end.

Notation "'let!' x ':=' r 'in' k" := (bind r (fun x => k))
  (at level 10, x name, r at level 100, k at level 200).

Fixpoint mapM {A B} (f : A -> result B) (l : list A) : result (list B) :=
  match l with
  | [] => Ok []
  | x :: l' => let! y := f x in let! ys := mapM f l' in Ok (y :: ys)
  end.

Module Py.

(** *** Values

    What a YAML document loads to.  A float is carried by its
    [repr], which is all the code ever does with one. *)
Inductive pyval :=
| PNone
| PBool (b : bool)
| PInt (n : Z)
| PFloat (repr : string)
| PStr (s : string)
| PList (items : list pyval)
| PDict (items : list (string * pyval)).

(** An insertion-ordered dictionary with string keys. *)
Definition dict := list (string * pyval).

(** [bool(value)]: [None], [False], zero, and empty containers are
    falsy. *)
Definition truthy (v : pyval) : bool :=
  match v with
  | PNone => false
  | PBool b => b
  | PInt n => negb (n =? 0)%Z
  | PFloat r => negb (String.eqb r "0.0" || String.eqb r "-0.0")
  | PStr s => negb (String.eqb s "")
  | PList l => match l with [] => false | _ => true end
  | PDict d => match d with [] => false | _ => true end
  end.

(** [key in d] and [d.get(key)]. *)
Fixpoint dict_get (d : dict) (k : string) : option pyval :=
  match d with
  | [] => None
  | (k', v) :: d' => if String.eqb k' k then Some v else dict_get d' k
  end.

Definition dict_mem (d : dict) (k : string) : bool :=
  match dict_get d k with Some _ => true | None => false end.

(** [d[key] = value]: an existing key keeps its position, a new key
    goes last. *)
Fixpoint dict_set (d : dict) (k : string) (v : pyval) : dict :=
  match d with
  | [] => [(k, v)]
  | (k', v') :: d' =>
      if String.eqb k' k then (k, v) :: d' else (k', v') :: dict_set d' k v
  end.

Definition dict_keys (d : dict) : list string := map fst d.

(** *** [collections.ChainMap]

    A list of layers; lookups search the layers front to back, writes
    go to the first layer only. *)
Definition ChainMap := list dict.

Fixpoint chain_get (cm : ChainMap) (k : string) : option pyval :=
  match cm with
  | [] => None
  | m :: rest =>
      match dict_get m k with
      | Some v => Some v
      | None => chain_get rest k
      end
  end.

Definition chain_mem (cm : ChainMap) (k : string) : bool :=
  match chain_get cm k with Some _ => true | None => false end.

(** [ChainMap.__setitem__]: [self.maps[0][key] = value]. *)
Definition chain_set (cm : ChainMap) (k : string) (v : pyval) : ChainMap :=
  match cm with
  | [] => []
  | m :: rest => dict_set m k v :: rest
  end.

(** [ChainMap.__iter__]: the keys of the layers, scanned last to
    first, each key once at its first appearance. *)
Definition add_key (seen : list string) (k : string) : list string :=
  if existsb (String.eqb k) seen then seen else seen ++ [k].

Definition chain_keys (cm : ChainMap) : list string :=
  fold_left (fun seen m => fold_left add_key (dict_keys m) seen) (rev cm) [].

(** [ChainMap.values()]: the value found for each key. *)
Definition chain_values (cm : ChainMap) : list pyval :=
  omap (chain_get cm) (chain_keys cm).

(** *** Predicates on values *)

Definition is_str (v : pyval) : bool :=
  match v with PStr _ => true | _ => false end.

Definition is_list_of_strings (value : pyval) : bool :=
  match value with
  | PList l => forallb is_str l
  | _ => false
  end.

Definition is_value_type (value : pyval) : bool :=
  match value with
  | PStr _ | PBool _ | PFloat _ | PInt _ => true
  | _ => is_list_of_strings value
  end.

(** ['{' in s]. *)
Fixpoint has_brace (s : string) : bool :=
  match s with
  | EmptyString => false
  | String c s' => if Ascii.eqb c "{" then true else has_brace s'
  end.

Definition str_of (v : pyval) : string :=
  match v with PStr s => s | _ => "" end.

(** *** [str.format] with keyword arguments

    [render] is [format(value, '')] for the scalar values;
    containers print through [repr], which is not modelled. *)
Definition render (v : pyval) : result string :=
  match v with
  | PStr s => Ok s
  | PBool true => Ok "True"
  | PBool false => Ok "False"
  | PInt n => Ok (pretty n)
  | PFloat r => Ok r
  | PNone => Ok "None"
  | PList _ => Raise (Unmodelled "repr of a list")
  | PDict _ => Raise (Unmodelled "repr of a dict")
  end.

(** All characters are decimal digits (and there is at least one). *)
Fixpoint all_digits (s : string) : bool :=
  match s with
  | EmptyString => true
  | String c s' =>
      match Ascii.is_nat c with Some _ => all_digits s' | None => false end
  end.

(** Resolution of a replacement field that is a plain name: an empty
    name asks for automatic numbering and a number is a positional
    index, and there are no positional arguments; any other name is
    a keyword. *)
Definition get_field (kwargs : string -> option pyval) (name : string)
  : result string :=
  if String.eqb name "" then
    Raise (IndexError "Replacement index 0 out of range for positional args tuple")
  else if all_digits name then
    Raise (IndexError "Replacement index out of range for positional args tuple")
  else
    match kwargs name with
    | Some v => render v
    | None => Raise (KeyError name)
    end.

(** The scanner of the format string.  [SLit]: in literal text;
    [SOpen]: just read a ['{'] in literal text; [SClose]: just read a
    ['}'] in literal text; [SField name]: inside a replacement field,
    [name] read so far. *)
Inductive scan :=
| SLit
| SOpen
| SClose
| SField (name : string).

Definition field_char (name : string) (c : ascii) : result scan :=
  if Ascii.eqb c "{" then Raise (ValueError "unexpected '{' in field name")
  else if Ascii.eqb c "." then Raise (Unmodelled "attribute lookup in a field")
  else if Ascii.eqb c "[" then Raise (Unmodelled "index lookup in a field")
  else if Ascii.eqb c "!" then Raise (Unmodelled "conversion in a field")
  else if Ascii.eqb c ":" then Raise (Unmodelled "format spec in a field")
  else Ok (SField (name +:+ String c "")).

Fixpoint format_from (kwargs : string -> option pyval) (st : scan)
  (s : string) : result string :=
  match s with
  | EmptyString =>
      match st with
      | SLit => Ok ""
      | SOpen => Raise (ValueError "Single '{' encountered in format string")
      | SClose => Raise (ValueError "Single '}' encountered in format string")
      | SField _ => Raise (ValueError "expected '}' before end of string")
      end
  | String c s' =>
      match st with
      | SLit =>
          if Ascii.eqb c "{" then format_from kwargs SOpen s'
          else if Ascii.eqb c "}" then format_from kwargs SClose s'
          else let! out := format_from kwargs SLit s' in Ok (String c out)
      | SOpen =>
          if Ascii.eqb c "{" then
            let! out := format_from kwargs SLit s' in Ok (String "{" out)
          else if Ascii.eqb c "}" then
            let! txt := get_field kwargs "" in
            let! out := format_from kwargs SLit s' in Ok (txt +:+ out)
          else
            let! st' := field_char "" c in format_from kwargs st' s'
      | SClose =>
          if Ascii.eqb c "}" then
            let! out := format_from kwargs SLit s' in Ok (String "}" out)
          else Raise (ValueError "Single '}' encountered in format string")
      | SField name =>
          if Ascii.eqb c "}" then
            let! txt := get_field kwargs name in
            let! out := format_from kwargs SLit s' in Ok (txt +:+ out)
          else
            let! st' := field_char name c in format_from kwargs st' s'
      end
  end.

(** [s.format] applied to the fields of [target]. *)
Definition format (s : string) (target : ChainMap) : result string :=
  format_from (chain_get target) SLit s.

End Py.

Module Expander.
Import Py.

Definition MAX_ITERS : nat := 5.

(** A generator run to exhaustion: the targets it yielded, then the
    exception that ended it, if any. *)
Record gen := Gen { yielded : list ChainMap; raised : option exn }.

Definition gen_nil : gen := Gen [] None.
Definition gen_raise (e : exn) : gen := Gen [] (Some e).
Definition gen_yield (t : ChainMap) (rest : gen) : gen :=
  Gen (t :: yielded rest) (raised rest).

(** Running [g1] and then [g2]; [g2] does not start when [g1]
    raised. *)
Definition gen_seq (g1 g2 : gen) : gen :=
  match raised g1 with
  | Some _ => g1
  | None => Gen (yielded g1 ++ yielded g2) (raised g2)
  end.

Definition gen_concat (gs : list gen) : gen := fold_right gen_seq gen_nil gs.

(** The test on one value inside [needs_expansion]. *)
Definition value_needs_expansion (value : pyval) : bool :=
  if is_list_of_strings value then
    match value with
    | PList l => existsb (fun v => has_brace (str_of v)) l
    | _ => false
    end
  else
    match value with
    | PStr s => has_brace s
    | _ => false
    end.

Definition needs_expansion (target : ChainMap) : bool :=
  existsb value_needs_expansion (chain_values target).

(** The body of the [try] in the expansion loop, for one item. *)
Definition expand_value (target : ChainMap) (key : string) (value : pyval)
  : result ChainMap :=
  if is_list_of_strings value then
    match value with
    | PList l =>
        let! l' := mapM (fun x => format (str_of x) target) l in
        Ok (chain_set target key (PList (map PStr l')))
    | _ => Ok target
    end
  else
    match value with
    | PStr s =>
        let! s' := format s target in
        Ok (chain_set target key (PStr s'))
    | PFloat r => Ok (chain_set target key (PStr r))
    | _ => Ok target
    end.

(** [except KeyError as ke: raise RuntimeError(f"Unable to find key
    {ke} in ... (in {context})")]. *)
Definition except_KeyError {A} (context : list string) (r : result A)
  : result A :=
  match r with
  | Raise (KeyError ke) => Raise (UnableToFindKey ke context)
  | _ => r
  end.

(** One pass of [for key, value in target.items()].  The keys are
    those the target had when the pass began; each value is read when
    its key is reached. *)
Fixpoint expand_pass (context : list string) (keys : list string)
  (target : ChainMap) : result ChainMap :=
  match keys with
  | [] => Ok target
  | key :: keys' =>
      match chain_get target key with
      | Some value =>
          let! target' := except_KeyError context (expand_value target key value) in
          expand_pass context keys' target'
      | None => Raise (KeyError key)
      end
  end.

Definition too_many (context : list string) : exn :=
  RuntimeError ("Too many mutual references (in " +:+ String.concat "/" context +:+ ")").

(** The [while needs_expansion(target)] loop.  [remaining] is
    [MAX_ITERS - iterations]: the loop raises when it would begin a
    pass with [iterations > MAX_ITERS].  The value of [iterations]
    when the loop is left is returned with the outcome. *)
Fixpoint expand_while (context : list string) (remaining iterations : nat)
  (target : ChainMap) : nat * result ChainMap :=
  if needs_expansion target then
    match remaining with
    | O => (S iterations, Raise (too_many context))
    | S remaining' =>
        match expand_pass context (chain_keys target) target with
        | Ok target' => expand_while context remaining' (S iterations) target'
        | Raise e => (S iterations, Raise e)
        end
    end
  else (iterations, Ok target).

Definition expand (context : list string) (target : ChainMap)
  : nat * result ChainMap :=
  expand_while context MAX_ITERS 0 target.

(** What [ChainMap(target, base_config)] is built from, for one
    element of [node['targets']]. *)
Definition make_target (spec : pyval) (base_config : dict) : result ChainMap :=
  match spec with
  | PFloat r =>
      Raise (RuntimeError ("Target " +:+ r +:+ " was parsed as a float. Enclose in quotes"))
  | PStr s => Ok [[("name", PStr s)]; base_config]
  | PDict d => Ok [d; base_config]
  | _ => Raise (TypeError "target is not a mapping")
  end.

(** [base_config] is one dictionary shared by every target of the
    node: after a target has been expanded, the dictionary is what
    the second layer of that target holds. *)
Definition shared_base (target : ChainMap) (base_config : dict) : dict :=
  match target with
  | _ :: b :: _ => b
  | _ => base_config
  end.

Fixpoint leaf_targets (context : list string) (base_config : dict)
  (specs : list pyval) : gen :=
  match specs with
  | [] => gen_nil
  | spec :: specs' =>
      match (let! target := make_target spec base_config in
             snd (expand context target)) with
      | Ok target =>
          gen_yield target
            (leaf_targets context (shared_base target base_config) specs')
      | Raise e => gen_raise e
      end
  end.

Fixpoint chars (s : string) : list pyval :=
  match s with
  | EmptyString => []
  | String c s' => PStr (String c "") :: chars s'
  end.

(** [for target in node['targets']]. *)
Definition iterate (v : pyval) : result (list pyval) :=
  match v with
  | PList l => Ok l
  | PStr s => Ok (chars s)
  | PDict d => Ok (map (fun kv => PStr (fst kv)) d)
  | _ => Raise (TypeError "object is not iterable")
  end.

(** [condition in enabled], for a collection of flag names. *)
Definition condition_enabled (enabled : list string) (condition : pyval) : bool :=
  match condition with
  | PStr flag => existsb (String.eqb flag) enabled
  | _ => false
  end.

Definition guard_open (enabled : list string) (node : dict) : bool :=
  match dict_get node "if" with
  | Some condition => condition_enabled enabled condition
  | None => true
  end.

Definition merge_item (base_config : dict) (kv : string * pyval) : dict :=
  if negb (String.eqb (fst kv) "targets") && is_value_type (snd kv)
  then dict_set base_config (fst kv) (snd kv)
  else base_config.

(** [base_config = dict(base_config)] followed by the loop that
    copies the node's own fields into it. *)
Definition merge_node (base_config : dict) (node : dict) : dict :=
  fold_left merge_item node base_config.

Definition push_name (context : list string) (name : string) : list string :=
  if String.eqb name "" then context else context ++ [name].

(** The [if 'targets' in node:] block. *)
Definition own_targets (context : list string) (base_config : dict)
  (node : dict) : gen :=
  match dict_get node "targets" with
  | None => gen_nil
  | Some targets =>
      match iterate targets with
      | Ok specs =>
          leaf_targets context
            (dict_set base_config "context" (PList (map PStr context))) specs
      | Raise e => gen_raise e
      end
  end.

Fixpoint _targets_from (node : pyval) (enabled : list string)
  (context : list string) (name : string) (base_config : dict) : gen :=
  if negb (truthy node) then gen_nil
  else
    match node with
    | PList children =>
        gen_concat
          (map (fun child => _targets_from child enabled context name base_config)
             children)
    | PDict items =>
        if negb (guard_open enabled items) then gen_nil
        else
          let context := push_name context name in
          let base_config := merge_node base_config items in
          gen_seq
            (gen_concat
               (map (fun kv =>
                       _targets_from (snd kv) enabled context (fst kv) base_config)
                  items))
            (own_targets context base_config items)
    | _ => gen_nil
    end.

Definition targets_from (node : pyval) (enabled : list string)
  (base_config : option dict) : gen :=
  _targets_from node enabled [] "" (default [] base_config).

End Expander.


Module Ctx.

(** *** The file system

    The installer names every path through one of its two roots:
    [os.path.join(self.destination, x)] or
    [os.path.join(self.staging, x)], with [x] a relative name.  A
    path is that pair.  The file system maps the paths that exist to
    entries; a directory entry stands for the whole tree below it,
    which [os.replace] moves and [shutil.rmtree] deletes as one.  The
    two roots themselves always exist. *)
Inductive root := Destination | Staging.

Definition path : Type := root * string.

Inductive entry :=
| Dir (contents : list string)
| File (data : string)
| Symlink (target : string).

Global Instance root_eq_dec : EqDecision root.
Proof. solve_decision. Defined.

Global Instance root_countable : Countable root :=
  inj_countable'
    (fun r => match r with Destination => false | Staging => true end)
    (fun b : bool => if b then Staging else Destination)
    (fun r => match r with Destination => eq_refl | Staging => eq_refl end).

Global Instance entry_eq_dec : EqDecision entry.
Proof. solve_decision. Defined.

Inductive level := DEBUG | INFO | WARNING | ERROR.

(** What the installer fetches while staging. *)
Inductive fetch :=
| FetchUrl (url : string) (command : list string) (subdir : string)
| FetchFile (url : string) (filename : string)
| GitClone (repo target_name reponame : string)
| StageCommand (command : list string).

(** The state of the machine.  [replace_faults] schedules the outcome
    of the coming [os.replace] calls: [true] makes the call fail with
    an [OSError] whatever the paths are (a missing schedule entry
    means no fault). *)
Record world := World {
  fs : gmap path entry;
  log : list (level * string);
  replace_faults : list bool
}.

(** The surroundings that the installer queries and does not change:
    exit statuses of the helper processes, outcome of the installed
    probe, and what a fetch unpacks into the staging directory. *)
Record env := Env {
  call : list string -> Z;
  probe : list string -> list (string * string) -> result string;
  remote : fetch -> result (list (string * entry))
}.

Record InstallationContext := {
  destination : string;
  staging : string;
  s3_url : string;
  dry_run : bool
}.

(** *** Computations that change the world and may raise *)
Definition IO (A : Type) : Type := world -> world * result A.

Definition ret {A} (a : A) : IO A := fun w => (w, Ok a).
Definition raise {A} (e : exn) : IO A := fun w => (w, Raise e).

Definition iobind {A B} (m : IO A) (k : A -> IO B) : IO B :=
  fun w =>
    match m w with
    | (w', Ok a) => k a w'
    | (w', Raise e) => (w', Raise e)
    end.

Notation "'let*' x ':=' m 'in' k" := (iobind m (fun x => k))
  (at level 10, x name, m at level 100, k at level 200).
Notation "m ';;' k" := (iobind m (fun _ => k))
  (at level 100, k at level 200, right associativity).

Definition get_fs : IO (gmap path entry) := fun w => (w, Ok (fs w)).

Definition set_fs (f : gmap path entry) : IO unit :=
  fun w => (World f (log w) (replace_faults w), Ok tt).

Definition emit (l : level) (message : string) : IO unit :=
  fun w => (World (fs w) (log w ++ [(l, message)]) (replace_faults w), Ok tt).

Definition debug := emit DEBUG.
Definition info := emit INFO.
Definition warn := emit WARNING.
Definition error := emit ERROR.

Fixpoint forM_ {A} (l : list A) (f : A -> IO unit) : IO unit :=
  match l with
  | [] => ret tt
  | x :: l' => f x ;; forM_ l' f
  end.

(** *** Path names *)

Definition starts_with_slash (s : string) : bool :=
  match s with
  | String c _ => Ascii.eqb c "/"
  | EmptyString => false
  end.

Fixpoint ends_with_slash (s : string) : bool :=
  match s with
  | EmptyString => false
  | String c EmptyString => Ascii.eqb c "/"
  | String _ s' => ends_with_slash s'
  end.

(** [os.path.join(a, b)]. *)
Definition join (a b : string) : string :=
  if starts_with_slash b then b
  else if String.eqb a "" || ends_with_slash a then a +:+ b
  else a +:+ "/" +:+ b.

Fixpoint before_last_slash (s : string) : option string :=
  match s with
  | EmptyString => None
  | String c s' =>
      match before_last_slash s' with
      | Some d => Some (String c d)
      | None => if Ascii.eqb c "/" then Some "" else None
      end
  end.

(** [os.path.dirname] of a relative name. *)
Definition dirname (s : string) : string := default "" (before_last_slash s).

Definition real_path (ctx : InstallationContext) (p : path) : string :=
  match fst p with
  | Destination => join (destination ctx) (snd p)
  | Staging => join (staging ctx) (snd p)
  end.

(** *** Queries *)

Definition is_root (p : path) : bool :=
  String.eqb (snd p) "" || String.eqb (snd p) ".".

(** [os.stat]: a symbolic link is followed, one step, to the name it
    holds, read relative to the directory of the link. *)
Definition stat (f : gmap path entry) (p : path) : option entry :=
  if is_root p then Some (Dir [])
  else
    match f !! p with
    | Some (Symlink target) => f !! (fst p, join (dirname (snd p)) target)
    | other => other
    end.

Definition isdir (f : gmap path entry) (p : path) : bool :=
  match stat f p with Some (Dir _) => true | _ => false end.

Definition isfile (f : gmap path entry) (p : path) : bool :=
  match stat f p with Some (File _) => true | _ => false end.

Definition exists_ (f : gmap path entry) (p : path) : bool :=
  match stat f p with Some _ => true | None => false end.

(** *** Primitive changes *)

Definition next_fault : IO bool :=
  fun w =>
    match replace_faults w with
    | [] => (w, Ok false)
    | b :: rest => (World (fs w) (log w) rest, Ok b)
    end.

(** [os.replace(src, dst)].  Besides a scheduled fault, the call
    fails when [src] is missing, when a directory would replace
    something that is not an empty directory, and when something that
    is not a directory would replace a directory. *)
Definition os_replace (src dst : path) : IO unit :=
  let* fault := next_fault in
  if (fault : bool) then raise (OSError "os.replace")
  else
    let* f := get_fs in
    match f !! src with
    | None => raise (FileNotFoundError (snd src))
    | Some e =>
        if decide (src = dst) then ret tt
        else
          match e, f !! dst with
          | _, None => set_fs (<[dst := e]> (delete src f))
          | Dir _, Some (Dir []) => set_fs (<[dst := e]> (delete src f))
          | Dir _, Some (Dir _) => raise (OSError "Directory not empty")
          | Dir _, Some _ => raise (OSError "Not a directory")
          | _, Some (Dir _) => raise (OSError "Is a directory")
          | _, Some _ => set_fs (<[dst := e]> (delete src f))
          end
    end.

(** [shutil.rmtree(p, ignore_errors=True)]. *)
Definition rmtree (p : path) : IO unit :=
  let* f := get_fs in set_fs (delete p f).

(** [os.remove(p)]. *)
Definition os_remove (p : path) : IO unit :=
  let* f := get_fs in
  match f !! p with
  | None => raise (FileNotFoundError (snd p))
  | Some (Dir _) => raise (OSError "Is a directory")
  | Some _ => set_fs (delete p f)
  end.

(** [os.symlink(source, p)]. *)
Definition os_symlink (source : string) (p : path) : IO unit :=
  let* f := get_fs in
  match f !! p with
  | Some _ => raise (OSError "File exists")
  | None => set_fs (<[p := Symlink source]> f)
  end.

(** [os.mkdir(p)]. *)
Definition os_mkdir (p : path) : IO unit :=
  let* f := get_fs in
  match f !! p with
  | Some _ => raise (OSError "File exists")
  | None => set_fs (<[p := Dir []]> f)
  end.

(** [subprocess.check_call(args)]. *)
Definition check_call (E : env) (args : list string) : IO unit :=
  if (call E args =? 0)%Z then ret tt else raise (CalledProcessError args).

(** *** The methods of [InstallationContext] *)

Definition clean_staging (E : env) (ctx : InstallationContext) : IO unit :=
  debug ("Cleaning staging dir " +:+ staging ctx) ;;
  check_call E ["chmod"; "-R"; "u+w"; staging ctx] ;;
  (let* f := get_fs in
   set_fs (filter (fun kv => fst (fst kv) <> Staging) f)) ;;
  debug ("Recreating staging dir " +:+ staging ctx).

(** The effect of a fetch on the staging directory: the entries that
    the surroundings deliver are created there. *)
Definition stage_fetch (E : env) (what : fetch) : IO unit :=
  match remote E what with
  | Ok entries =>
      let* f := get_fs in
      set_fs (fold_left (fun acc ne => <[(Staging, fst ne) := snd ne]> acc) entries f)
  | Raise e => raise e
  end.

Definition fetch_url_and_pipe_to (E : env) (ctx : InstallationContext)
  (url : string) (command : list string) (subdir : string) : IO unit :=
  stage_fetch E (FetchUrl url command subdir).

Definition fetch_s3_and_pipe_to (E : env) (ctx : InstallationContext)
  (s3 : string) (command : list string) : IO unit :=
  fetch_url_and_pipe_to E ctx (s3_url ctx +:+ "/" +:+ s3) command ".".

Definition stage_command (E : env) (ctx : InstallationContext)
  (command : list string) : IO unit :=
  info ("Staging with " +:+ String.concat " " command) ;;
  stage_fetch E (StageCommand command).

Definition make_subdir (ctx : InstallationContext) (subdir : string) : IO unit :=
  let* f := get_fs in
  if isdir f (Destination, subdir) then ret tt
  else os_mkdir (Destination, subdir).

Definition read_link (ctx : InstallationContext) (link : string) : IO string :=
  let* f := get_fs in
  match f !! (Destination, link) with
  | Some (Symlink target) => ret target
  | None => raise (FileNotFoundError link)
  | Some _ => raise (OSError "Invalid argument")
  end.

Definition set_link (ctx : InstallationContext) (source dest : string) : IO unit :=
  if dry_run ctx then
    info ("Would symlink " +:+ source +:+ " to " +:+ dest)
  else
    let full_dest := (Destination, dest) in
    let* f := get_fs in
    (if exists_ f full_dest then os_remove full_dest else ret tt) ;;
    info ("Symlinking " +:+ dest +:+ " to " +:+ source) ;;
    os_symlink source full_dest.

(** Matching of a [glob] pattern against a name: [*] stands for any
    run of characters other than [/]; every other character stands
    for itself. *)
Fixpoint glob_match (pattern : string) : string -> bool :=
  match pattern with
  | EmptyString => fun s => String.eqb s ""
  | String c pattern' =>
      if Ascii.eqb c "*" then
        fix star (s : string) : bool :=
          glob_match pattern' s
          || match s with
             | EmptyString => false
             | String c' s' => negb (Ascii.eqb c' "/") && star s'
             end
      else
        fun s =>
          match s with
          | EmptyString => false
          | String c' s' => Ascii.eqb c c' && glob_match pattern' s'
          end
  end.

(** [glob(pattern)]: the names under the destination that match, in
    no particular order. *)
Definition glob (f : gmap path entry) (pattern : string) : list string :=
  omap (fun kv =>
          match fst (fst kv) with
          | Destination =>
              if glob_match pattern (snd (fst kv)) then Some (snd (fst kv)) else None
          | Staging => None
          end)
    (map_to_list f).

Definition remove_dir (ctx : InstallationContext) (directory : string) : IO unit :=
  if dry_run ctx then
    info ("Would remove directory " +:+ directory +:+ " but in dry-run mode")
  else
    rmtree (Destination, directory) ;;
    info ("Removing " +:+ directory).

(** [check_link]: only a missing link is caught. *)
Definition check_link (ctx : InstallationContext) (source link : string) : IO bool :=
  fun w =>
    match read_link ctx link w with
    | (w', Ok target) =>
        (debug ("readlink returned " +:+ target) ;; ret (String.eqb target source)) w'
    | (w', Raise (FileNotFoundError _)) =>
        (debug ("File not found for " +:+ link) ;; ret false) w'
    | (w', Raise e) => (w', Raise e)
    end.

(** The values of the local variable [state] of [move_from_staging]. *)
Inductive move_state := Initial | old_renamed | old_needs_remove.

(** The [finally] block of [move_from_staging]. *)
Definition move_finally (state : move_state) (existing_dir_rename dest : path)
  : IO unit :=
  match state with
  | old_needs_remove =>
      debug ("Removing temporarily moved " +:+ snd existing_dir_rename) ;;
      rmtree existing_dir_rename
  | old_renamed =>
      warn "Moving old destination back" ;;
      os_replace existing_dir_rename dest
  | Initial => ret tt
  end.

(** [if not dest: dest = source]. *)
Definition move_target (source : string) (dest : option string) : string :=
  match dest with
  | Some d => if String.eqb d "" then source else d
  | None => source
  end.

Definition move_from_staging (E : env) (ctx : InstallationContext)
  (source : string) (dest : option string) : IO unit :=
  let dest := move_target source dest in
  let existing_dir_rename := (Staging, "temp_orig") in
  let source := (Staging, source) in
  let dest := (Destination, dest) in
  if dry_run ctx then
    info ("Would install " +:+ real_path ctx source +:+ " to " +:+ real_path ctx dest
          +:+ " but in dry-run mode")
  else
    info ("Moving from staging (" +:+ real_path ctx source
          +:+ ") to final destination (" +:+ real_path ctx dest +:+ ")") ;;
    let* f := get_fs in
    if negb (isdir f source) then
      check_call E ["ls"; "-l"; staging ctx] ;;
      info "Directory listing of staging" ;;
      raise (RuntimeError ("Missing source '" +:+ real_path ctx source +:+ "'"))
    else
      check_call E ["chmod"; "u+w"; real_path ctx source] ;;
      let* f := get_fs in
      let* state :=
        (if isdir f dest then
           info ("Destination " +:+ real_path ctx dest
                 +:+ " exists, temporarily moving out of the way (to "
                 +:+ real_path ctx existing_dir_rename +:+ ")") ;;
           os_replace dest existing_dir_rename ;;
           ret old_renamed
         else ret Initial) in
      fun w =>
        match os_replace source dest w with
        | (w1, Ok _) =>
            let state :=
              match state with old_renamed => old_needs_remove | s => s end in
            move_finally state existing_dir_rename dest w1
        | (w1, Raise e) =>
            match move_finally state existing_dir_rename dest w1 with
            | (w2, Ok _) => (w2, Raise e)
            | (w2, Raise e') => (w2, Raise e')
            end
        end.

Definition compare_against_staging (E : env) (ctx : InstallationContext)
  (source : string) (dest : option string) : IO bool :=
  let dest := move_target source dest in
  let source := real_path ctx (Staging, source) in
  let dest := real_path ctx (Destination, dest) in
  info ("Comparing " +:+ source +:+ " vs " +:+ dest +:+ "...") ;;
  let result := call E ["diff"; "-r"; source; dest] in
  (if (result =? 0)%Z then info "Contents match" else warn "Contents differ") ;;
  ret (result =? 0)%Z.

(** [check_output(args, env)]: the probe, run from the destination. *)
Definition check_output (E : env) (ctx : InstallationContext)
  (args : list string) (check_env : list (string * string)) : IO string :=
  match args with
  | [] => raise (IndexError "list index out of range")
  | exe :: rest =>
      match probe E (join (destination ctx) exe :: rest) check_env with
      | Ok out => ret out
      | Raise e => raise e
      end
  end.

(** The value of a [strip] setting: a boolean or a list of paths. *)
Inductive strip_setting :=
| StripBool (b : bool)
| StripPaths (paths : list string).

Definition strip_wanted (s : strip_setting) : bool :=
  match s with
  | StripBool b => b
  | StripPaths l => match l with [] => false | _ => true end
  end.

(** [strip_exes]: every path must be a directory of the staging area;
    the [strip] run itself cannot fail the installation. *)
Definition strip_exes (ctx : InstallationContext) (paths : strip_setting) : IO unit :=
  let todo := match paths with
              | StripBool false => None
              | StripBool true => Some ["."]
              | StripPaths l => Some l
              end in
  match todo with
  | None => ret tt
  | Some l =>
      forM_ l (fun p =>
        let* f := get_fs in
        if isdir f (Staging, p) then ret tt
        else raise (RuntimeError ("While looking for files to strip, "
                                  +:+ join (staging ctx) p +:+ " was not a directory")))
  end.

End Ctx.

Module Inst.
Import Ctx.

(** *** The five installable classes

    Each record holds the attributes that the constructor of the class
    derives from the target; [""] stands for an unset (false) string
    setting. *)
Record GitHubInstallable := {
  gh_repo : string;
  gh_method : string;
  gh_subdir : string;
  gh_target_prefix : string;
  gh_target_name : string;
  gh_path_name : string;
  gh_reponame : string;
  gh_untar_dir : string;
  gh_decompress_flag : string;
  gh_strip : strip_setting
}.

Record S3TarballInstallable := {
  s3_subdir : string;
  s3_s3_path : string;
  s3_path_name : string;
  s3_untar_dir : string;
  s3_decompress_flag : string;
  s3_strip : strip_setting
}.

Record NightlyInstallable := {
  ni_subdir : string;
  ni_strip : strip_setting;
  ni_s3_path : string;
  ni_path_name : string;
  ni_compiler_pattern : string;
  ni_path_name_symlink : string;
  ni_num_to_keep : Z
}.

Record TarballInstallable := {
  tb_install_path : string;
  tb_install_path_symlink : string;
  tb_untar_path : string;
  tb_untar_to : string;
  tb_url : string;
  tb_configure_command : list string;
  tb_tar_cmd : list string;
  tb_strip : strip_setting
}.

Record ScriptInstallable := {
  sc_install_path : string;
  sc_install_path_symlink : string;
  sc_fetch : list string;
  sc_script : string;
  sc_strip : strip_setting
}.

Inductive variant :=
| GitHub (g : GitHubInstallable)
| S3Tarball (t : S3TarballInstallable)
| Nightly (n : NightlyInstallable)
| Tarball (t : TarballInstallable)
| Script (s : ScriptInstallable).

(** The attributes of the base class.  [_check_link] holds the two
    arguments that the stored closure passes to [check_link];
    [depends] holds the objects on which [install] calls
    [is_installed]. *)
Inductive Installable := MkInstallable {
  name : string;
  depends : list Installable;
  install_always : bool;
  _check_link : option (string * string);
  check_file : string;
  check_call : list string;
  check_env : list (string * string);
  kind : variant
}.

Definition repr (self : Installable) : string :=
  match kind self with
  | GitHub g => "GitHubInstallable(" +:+ name self +:+ ", " +:+ gh_path_name g +:+ ")"
  | S3Tarball t => "S3TarballInstallable(" +:+ name self +:+ ", " +:+ s3_path_name t +:+ ")"
  | Nightly n => "NightlyInstallable(" +:+ name self +:+ ", " +:+ ni_path_name n +:+ ")"
  | Tarball t => "TarballInstallable(" +:+ name self +:+ ", " +:+ tb_install_path t +:+ ")"
  | Script s => "ScriptInstallable(" +:+ name self +:+ ", " +:+ sc_install_path s +:+ ")"
  end.

Definition self_debug (self : Installable) (message : string) : IO unit :=
  debug (name self +:+ ": " +:+ message).
Definition self_info (self : Installable) (message : string) : IO unit :=
  info (name self +:+ ": " +:+ message).
Definition self_warn (self : Installable) (message : string) : IO unit :=
  warn (name self +:+ ": " +:+ message).

Definition nonempty (s : string) : bool := negb (String.eqb s "").

(** [Installable.is_installed]. *)
Definition is_installed (E : env) (ctx : InstallationContext) (self : Installable)
  : IO bool :=
  let* link_ok :=
    match _check_link self with
    | Some (source, link) => check_link ctx source link
    | None => ret true
    end in
  if negb link_ok then
    self_debug self "Check link returned false" ;; ret false
  else if nonempty (check_file self) then
    let* f := get_fs in
    let res := isfile f (Destination, check_file self) in
    self_debug self ("Check file for " +:+ destination ctx +:+ "/" +:+ check_file self
                     +:+ " returned " +:+ (if res then "True" else "False")) ;;
    ret res
  else
    fun w =>
      match check_output E ctx (check_call self) (check_env self) w with
      | (w', Ok res) => (self_debug self ("Check call returned " +:+ res) ;; ret true) w'
      | (w', Raise (FileNotFoundError _)) =>
          (self_debug self "File not found for the check call" ;; ret false) w'
      | (w', Raise (CalledProcessError _)) =>
          (self_debug self "Got an error for the check call" ;; ret false) w'
      | (w', Raise e) => (w', Raise e)
      end.

Definition should_install (E : env) (ctx : InstallationContext) (self : Installable)
  : IO bool :=
  match kind self with
  | Nightly _ => ret true
  | _ =>
      if install_always self then ret true
      else let* installed := is_installed E ctx self in ret (negb installed)
  end.

(** The loop of [Installable.install] over [self.depends]; the value
    is [any_missing]. *)
Fixpoint check_dependees (E : env) (ctx : InstallationContext) (self : Installable)
  (dependees : list Installable) (any_missing : bool) : IO bool :=
  match dependees with
  | [] => ret any_missing
  | dependee :: rest =>
      let* installed := is_installed E ctx dependee in
      if negb installed then
        self_warn self ("Required dependee " +:+ repr dependee +:+ " not installed") ;;
        check_dependees E ctx self rest true
      else check_dependees E ctx self rest any_missing
  end.

(** [Installable.install], the method of the base class. *)
Definition base_install (E : env) (ctx : InstallationContext) (self : Installable)
  : IO bool :=
  self_debug self "Ensuring dependees are installed" ;;
  let* any_missing := check_dependees E ctx self (depends self) false in
  if any_missing then ret false
  else self_debug self "Dependees ok" ;; ret true.

Definition strip_if_wanted (ctx : InstallationContext) (s : strip_setting) : IO unit :=
  if strip_wanted s then strip_exes ctx s else ret tt.

(** [url.split(' ')]. *)
Fixpoint split_space (cur : string) (s : string) : list string :=
  match s with
  | EmptyString => [String.rev cur]
  | String c s' =>
      if Ascii.eqb c " " then String.rev cur :: split_space "" s'
      else split_space (String c cur) s'
  end.

(** [stage], class by class. *)
Definition stage (E : env) (ctx : InstallationContext) (self : Installable) : IO unit :=
  match kind self with
  | GitHub g =>
      clean_staging E ctx ;;
      (if String.eqb (gh_method g) "archive" then
         fetch_url_and_pipe_to E ctx
           ("https://github.com/" +:+ gh_repo g +:+ "/archive/" +:+ gh_target_prefix g
            +:+ gh_target_name g +:+ ".tar.gz")
           ["tar"; gh_decompress_flag g +:+ "xf"; "-"] "."
       else if String.eqb (gh_method g) "clone" then
         stage_fetch E (GitClone (gh_repo g) (gh_target_name g) (gh_reponame g))
       else raise (RuntimeError ("Unknown Github method " +:+ gh_method g))) ;;
      strip_if_wanted ctx (gh_strip g)
  | S3Tarball t =>
      clean_staging E ctx ;;
      fetch_s3_and_pipe_to E ctx (s3_s3_path t) ["tar"; s3_decompress_flag t +:+ "xf"; "-"] ;;
      strip_if_wanted ctx (s3_strip t)
  | Nightly n =>
      clean_staging E ctx ;;
      fetch_s3_and_pipe_to E ctx (ni_s3_path n +:+ ".tar.xz") ["tar"; "Jxf"; "-"] ;;
      strip_if_wanted ctx (ni_strip n)
  | Tarball t =>
      clean_staging E ctx ;;
      fetch_url_and_pipe_to E ctx (tb_url t) (tb_tar_cmd t) (tb_untar_to t) ;;
      (match tb_configure_command t with
       | [] => ret tt
       | command => stage_command E ctx command
       end) ;;
      strip_if_wanted ctx (tb_strip t) ;;
      let* f := get_fs in
      if isdir f (Staging, tb_untar_path t) then ret tt
      else raise (RuntimeError ("After unpacking, " +:+ tb_untar_path t
                                +:+ " was not a directory"))
  | Script s =>
      clean_staging E ctx ;;
      forM_ (sc_fetch s) (fun url =>
        match split_space "" url with
        | [url; filename] =>
            stage_fetch E (FetchFile url filename) ;;
            self_info self (url +:+ " -> " +:+ filename)
        | _ => raise (ValueError "wrong number of values to unpack")
        end) ;;
      stage_command E ctx ["bash"; "-c"; sc_script s] ;;
      strip_if_wanted ctx (sc_strip s)
  end.

(** [all_versions[:-num_to_keep]], Python's slice with a negated
    stop: a negative stop counts from the end, a stop that is not
    negative counts from the start. *)
Definition slice_to_neg {A} (l : list A) (n : Z) : list A :=
  let stop := (- n)%Z in
  if (stop <? 0)%Z then take (Z.to_nat (Z.of_nat (length l) + stop)) l
  else take (Z.to_nat stop) l.

(** [sorted] on strings. *)
Definition sorted (l : list string) : list string := merge_sort String.le l.

(** The versions that [NightlyInstallable.install] removes. *)
Definition versions_to_remove (f : gmap path entry) (n : NightlyInstallable)
  : list string :=
  let num_to_keep := (ni_num_to_keep n + 1)%Z in
  let all_versions := sorted (glob f (ni_compiler_pattern n)) in
  slice_to_neg all_versions num_to_keep.

(** What [install] does, class by class, after the method of the base
    class has answered [True]. *)
Definition install_steps (E : env) (ctx : InstallationContext) (self : Installable)
  : IO bool :=
    match kind self with
    | GitHub g =>
        stage E ctx self ;;
        (if nonempty (gh_subdir g) then make_subdir ctx (gh_subdir g) else ret tt) ;;
        move_from_staging E ctx (gh_untar_dir g) (Some (gh_path_name g)) ;;
        ret true
    | S3Tarball t =>
        stage E ctx self ;;
        (if nonempty (s3_subdir t) then make_subdir ctx (s3_subdir t) else ret tt) ;;
        move_from_staging E ctx (s3_untar_dir t) (Some (s3_path_name t)) ;;
        ret true
    | Nightly n =>
        stage E ctx self ;;
        (let* f := get_fs in
         forM_ (versions_to_remove f n) (remove_dir ctx)) ;;
        move_from_staging E ctx (ni_s3_path n) (Some (ni_path_name n)) ;;
        set_link ctx (ni_s3_path n) (ni_path_name_symlink n) ;;
        ret true
    | Tarball t =>
        stage E ctx self ;;
        move_from_staging E ctx (tb_untar_path t) (Some (tb_install_path t)) ;;
        (if nonempty (tb_install_path_symlink t)
         then set_link ctx (tb_install_path t) (tb_install_path_symlink t)
         else ret tt) ;;
        ret true
    | Script s =>
        stage E ctx self ;;
        move_from_staging E ctx (sc_install_path s) None ;;
        (if nonempty (sc_install_path_symlink s)
         then set_link ctx (sc_install_path s) (sc_install_path_symlink s)
         else ret tt) ;;
        ret true
    end.

(** [install]: every class begins with
    [if not super().install(): return False]. *)
Definition install (E : env) (ctx : InstallationContext) (self : Installable)
  : IO bool :=
  let* ok := base_install E ctx self in
  if negb ok then ret false
  else install_steps E ctx self.

(** [max] on a non-empty list of strings. *)
Definition py_max (l : list string) : option string :=
  match l with
  | [] => None
  | x :: l' => Some (fold_left (fun m y => if String.ltb m y then y else m) l' x)
  end.

(** The attributes that [NightlyInstallable.__init__] derives from the
    compiler name and the versions listed for it. *)
Definition nightly_fields (subdir compiler_name : string) (versions : list string)
  (symlink : option string) (num_to_keep : option Z) (strip : strip_setting)
  : result NightlyInstallable :=
  match py_max versions with
  | None => Raise (RuntimeError ("Unable to find nightlies for " +:+ compiler_name))
  | Some most_recent =>
      Ok {| ni_subdir := subdir;
            ni_strip := strip;
            ni_s3_path := compiler_name +:+ "-" +:+ most_recent;
            ni_path_name := join subdir (compiler_name +:+ "-" +:+ most_recent);
            ni_compiler_pattern := join subdir (compiler_name +:+ "-*");
            ni_path_name_symlink := default (join subdir compiler_name) symlink;
            ni_num_to_keep := default 5%Z num_to_keep |}
  end.

End Inst.

Module Build.
Import Ctx.

Definition build_supported_os : list string := ["Linux"].
Definition build_supported_buildtype : list string := ["Debug"].
Definition build_supported_arch : list string := ["x86_64"; "x86"].
Definition build_supported_stdver : list string := [""].
Definition build_supported_stdlib : list string := [""; "libc++"].
Definition build_supported_flagscollection : list (list string) := [[""]].

(** One entry of the compiler properties.  [compilerType] is [None]
    when the entry lacks the key; [toolchain] and [fixedStdver] are
    the values that [getToolchainPathFromOptions] (with its fallback)
    and [getStdVerFromOptions] extract, [""] for no fixed standard. *)
Record compiler := {
  id : string;
  exe : string;
  options : string;
  compilerType : option string;
  group : string;
  toolchain : string;
  fixedStdver : string
}.

(** The attributes of the installable that a build reads. *)
Record buildable := {
  b_name : string;
  libname : string;
  path_name : string;
  build_type : string;
  build_fixed_arch : string;
  build_fixed_stdlib : string
}.

(** One point of the build matrix. *)
Record combination := {
  c_compiler : compiler;
  buildos : string;
  buildtype : string;
  arch : string;
  stdver : string;
  stdlib : string;
  flagscombination : list string
}.

(** What the surroundings decide for a build: the digest function,
    the exit status of [./build.sh] and of [./conanexport.sh] in a
    build folder, the number of binaries that [executeconanscript]
    finds there, and the capability probe of a compiler. *)
Record build_env := {
  sha256_hex : string -> string;
  build_exit : combination -> Z;
  filesfound : combination -> nat;
  conan_exit : combination -> Z;
  does_compiler_support : compiler -> string -> bool
}.

Definition b_debug (self : buildable) (message : string) : IO unit :=
  debug (b_name self +:+ ": " +:+ message).
Definition b_info (self : buildable) (message : string) : IO unit :=
  info (b_name self +:+ ": " +:+ message).

Definition describe (c : combination) : string :=
  String.concat ","
    [id (c_compiler c); options (c_compiler c); toolchain (c_compiler c);
     buildos c; buildtype c; arch c; stdver c; stdlib c;
     String.concat "|" (flagscombination c)].

Definition makebuildhash (B : build_env) (self : buildable) (c : combination)
  : IO string :=
  b_info self ("Building " +:+ libname self +:+ " for [" +:+ describe c +:+ "]") ;;
  ret (id (c_compiler c) +:+ "_" +:+ sha256_hex B (describe c)).

Definition executebuildscript (B : build_env) (self : buildable) (c : combination)
  (buildfolder : path) : IO bool :=
  if (build_exit B c =? 0)%Z then
    b_info self ("Build succeeded in " +:+ snd buildfolder) ;; ret true
  else ret false.

Definition executeconanscript (B : build_env) (self : buildable) (c : combination)
  : IO bool :=
  if negb (Nat.eqb (filesfound B c) 0) then
    if (conan_exit B c =? 0)%Z then b_info self "Upload succeeded" ;; ret true
    else ret false
  else b_info self "No binaries found to upload" ;; ret false.

Definition build_cleanup (ctx : InstallationContext) (self : buildable)
  (buildfolder : path) : IO unit :=
  if dry_run ctx then
    b_info self ("Would remove directory " +:+ snd buildfolder +:+ " but in dry-run mode")
  else
    rmtree buildfolder ;;
    b_info self ("Removing " +:+ snd buildfolder).

(** [makebuildfor].  The build script and the package recipe are
    written into the build folder; only the folder is tracked. *)
Definition makebuildfor (B : build_env) (ctx : InstallationContext)
  (self : buildable) (c : combination) : IO bool :=
  let* combinedhash := makebuildhash B self c in
  let sourcefolder := (Destination, path_name self) in
  let* buildfolder :=
    (if String.eqb (build_type self) "cmake" then
       let folder := (Staging, combinedhash) in
       let* f := get_fs in
       (if isdir f folder then ret tt else set_fs (<[folder := Dir []]> f)) ;;
       ret folder
     else ret sourcefolder) in
  b_debug self ("Buildfolder: " +:+ snd buildfolder) ;;
  let* builtok := executebuildscript B self c buildfolder in
  let* builtok :=
    (if (builtok : bool) then
       if negb (dry_run ctx) then executeconanscript B self c else ret builtok
     else ret builtok) in
  (if (builtok : bool) then
     if String.eqb (build_type self) "cmake" then build_cleanup ctx self buildfolder
     else ret tt (* [make clean], whose exit status is not looked at *)
   else ret tt) ;;
  ret builtok.

(** The six nested loops of [makebuild] for one compiler, in the
    order the combinations are attempted. *)
Definition combinations (comp : compiler) (archs stdvers stdlibs : list string)
  : list combination :=
  buildos ← build_supported_os;
  buildtype ← build_supported_buildtype;
  arch ← archs;
  stdver ← stdvers;
  stdlib ← stdlibs;
  flagscombination ← build_supported_flagscollection;
  [ {| c_compiler := comp; buildos := buildos; buildtype := buildtype;
       arch := arch; stdver := stdver; stdlib := stdlib;
       flagscombination := flagscombination |} ].

(** The two counters of [makebuild]. *)
Record tally := { builds_succeeded : nat; builds_failed : nat }.

Fixpoint attempt_all (B : build_env) (ctx : InstallationContext)
  (self : buildable) (cs : list combination) (t : tally) : IO tally :=
  match cs with
  | [] => ret t
  | c :: cs' =>
      let* ok := makebuildfor B ctx self c in
      attempt_all B ctx self cs'
        (if (ok : bool)
         then {| builds_succeeded := S (builds_succeeded t);
                 builds_failed := builds_failed t |}
         else {| builds_succeeded := builds_succeeded t;
                 builds_failed := S (builds_failed t) |})
  end.

(** How the loop over the compilers is left: by the [return False]
    inside it, or at its end with the counters. *)
Inductive loop_exit :=
| Returned (value : bool)
| Finished (t : tally).

Definition stdlibs_for (self : buildable) (comp_type : string) : list string :=
  if negb (String.eqb (build_fixed_stdlib self) "") then [build_fixed_stdlib self]
  else if String.eqb comp_type "clang" then build_supported_stdlib
  else [""].

Fixpoint compilers_loop (B : build_env) (ctx : InstallationContext)
  (self : buildable) (buildfor : string) (compilerprops : list compiler)
  (t : tally) : IO loop_exit :=
  match compilerprops with
  | [] => ret (Finished t)
  | comp :: rest =>
      if negb (String.eqb buildfor "") && negb (String.eqb (id comp) buildfor) then
        compilers_loop B ctx self buildfor rest t
      else
        match compilerType comp with
        | None => raise (RuntimeError ("Something is wrong with " +:+ id comp))
        | Some comp_type =>
            let stdlibs := stdlibs_for self comp_type in
            let fixed := negb (String.eqb (build_fixed_arch self) "") in
            if fixed && negb (does_compiler_support B comp (build_fixed_arch self)) then
              b_debug self ("Compiler " +:+ id comp +:+ " does not support fixed arch "
                            +:+ build_fixed_arch self) ;;
              ret (Returned false)
            else
              let archs := if fixed then [build_fixed_arch self]
                           else build_supported_arch in
              let archs := if does_compiler_support B comp "x86" then archs else [""] in
              let stdvers := if String.eqb (fixedStdver comp) "" then build_supported_stdver
                             else [fixedStdver comp] in
              let* t' := attempt_all B ctx self
                           (combinations comp archs stdvers stdlibs) t in
              compilers_loop B ctx self buildfor rest t'
        end
  end.

(** [makebuild], from the loop over the compilers on. *)
Definition makebuild (B : build_env) (ctx : InstallationContext)
  (self : buildable) (buildfor : string) (compilerprops : list compiler) : IO bool :=
  let* out := compilers_loop B ctx self buildfor compilerprops
                {| builds_succeeded := 0; builds_failed := 0 |} in
  match out with
  | Returned value => ret value
  | Finished t => ret (Nat.eqb (builds_failed t) 0)
  end.

Definition build (B : build_env) (ctx : InstallationContext)
  (self : buildable) (buildfor : string) (compilerprops : list compiler) : IO bool :=
  if String.eqb (build_type self) "" then raise (RuntimeError "No build_type")
  else if String.eqb (build_type self) "cmake" then
    makebuild B ctx self buildfor compilerprops
  else if String.eqb (build_type self) "make" then
    makebuild B ctx self buildfor compilerprops
  else raise (RuntimeError "Unsupported build_type").

End Build.

Module Verifying.
Import Ctx Inst.

(** [verify], class by class.  Each class begins with
    [if not super().verify(): return False], and the method of the
    base class returns [True]; what is left is to stage the
    installable and to compare the staged tree with the installed
    one. *)
Definition verify (E : env) (ctx : InstallationContext) (self : Installable)
  : IO bool :=
  stage E ctx self ;;
  match kind self with
  | GitHub g => compare_against_staging E ctx (gh_untar_dir g) (Some (gh_path_name g))
  | S3Tarball t => compare_against_staging E ctx (s3_untar_dir t) (Some (s3_path_name t))
  | Nightly n => compare_against_staging E ctx (ni_s3_path n) (Some (ni_path_name n))
  | Tarball t => compare_against_staging E ctx (tb_untar_path t) (Some (tb_install_path t))
  | Script s => compare_against_staging E ctx (sc_install_path s) None
  end.

End Verifying.

Module Listing.

(** *** [VERSIONED_RE] and [s3_available_compilers]

    The pattern of [VERSIONED_RE] is, from the start of the name to
    its end: a first group of any characters, a dash, and a second
    group of one or more digits and dots.  The second group cannot
    hold a dash, so a match splits the name at its last dash; the
    first group cannot hold a newline; and the end of the pattern
    also matches just before a newline that ends the name. *)
Definition newline : ascii := "010"%char.

Definition version_char (c : ascii) : bool :=
  match Ascii.is_nat c with
  | Some _ => true
  | None => Ascii.eqb c "."
  end.

Fixpoint version_chars (s : string) : bool :=
  match s with
  | EmptyString => true
  | String c s' => version_char c && version_chars s'
  end.

Fixpoint no_newline (s : string) : bool :=
  match s with
  | EmptyString => true
  | String c s' => negb (Ascii.eqb c newline) && no_newline s'
  end.

(** The text before and after the last dash. *)
Fixpoint split_last_dash (s : string) : option (string * string) :=
  match s with
  | EmptyString => None
  | String c s' =>
      match split_last_dash s' with
      | Some (a, b) => Some (String c a, b)
      | None => if Ascii.eqb c "-" then Some ("", s') else None
      end
  end.

(** [s] without a newline that ends it. *)
Fixpoint chomp (s : string) : string :=
  match s with
  | EmptyString => ""
  | String c s' =>
      match s' with
      | EmptyString => if Ascii.eqb c newline then "" else s
      | _ => String c (chomp s')
      end
  end.

(** [VERSIONED_RE.match(compiler)]: the two groups of the match. *)
Definition VERSIONED_RE_match (compiler : string) : option (string * string) :=
  match split_last_dash (chomp compiler) with
  | Some (a, b) =>
      if negb (String.eqb b "") && version_chars b && no_newline a
      then Some (a, b) else None
  | None => None
  end.

(** A [defaultdict(lambda: [])] from names to lists of versions, in
    insertion order. *)
Definition versions_map : Type := list (string * list string).

(** [d[name].append(version)]. *)
Fixpoint add_version (d : versions_map) (name version : string) : versions_map :=
  match d with
  | [] => [(name, [version])]
  | (n, vs) :: d' =>
      if String.eqb n name then (n, vs ++ [version]) :: d'
      else (n, vs) :: add_version d' name version
  end.

Fixpoint versions_of (d : versions_map) (name : string) : option (list string) :=
  match d with
  | [] => None
  | (n, vs) :: d' => if String.eqb n name then Some vs else versions_of d' name
  end.

(** The loop over [list_compilers()]. *)
Definition group_compilers (compilers : list string) : versions_map :=
  fold_left
    (fun d compiler =>
       match VERSIONED_RE_match compiler with
       | Some (name, version) => add_version d name version
       | None => d
       end)
    compilers [].

(** What [list_compilers()] delivers: names, and the exception that
    ends the listing if it fails. *)
Record listing := { listed : list string; failure : option exn }.

(** [s3_available_compilers], with the global [_memoized_compilers]
    passed in and out.  The global is assigned before the listing is
    read, so it stays assigned when the listing fails. *)
Definition s3_available_compilers (L : listing) (memo : option versions_map)
  : option versions_map * result versions_map :=
  match memo with
  | Some m => (memo, Ok m)
  | None =>
      let m := group_compilers (listed L) in
      (Some m, match failure L with None => Ok m | Some e => Raise e end)
  end.

End Listing.

Module Config.
Import Py Ctx Inst Listing.

(** *** Reading the fields of a target *)

(** [str.split(sep)] for a separator of one character. *)
Fixpoint split_char (sep : ascii) (cur : string) (s : string) : list string :=
  match s with
  | EmptyString => [String.rev cur]
  | String c s' =>
      if Ascii.eqb c sep then String.rev cur :: split_char sep "" s'
      else split_char sep (String c cur) s'
  end.

(** [command_config]: a string is split at every space, a list of
    strings is the command as it is. *)
Definition command_config (config : pyval) : result (list string) :=
  match config with
  | PStr s => Ok (split_space "" s)
  | PList l =>
      if forallb is_str l then Ok (map str_of l)
      else Raise (Unmodelled "a command with an element that is not a string")
  | _ => Raise (Unmodelled "a command that is neither a string nor a list")
  end.

(** [self.config.get(key, default)]. *)
Definition config_lookup (config : ChainMap) (key : string) (dflt : pyval) : pyval :=
  match chain_get config key with
  | Some v => v
  | None => dflt
  end.

(** [Installable.config_get(key, default=None)]: [None] for [dflt]
    is a call without default. *)
Definition config_get (name : string) (config : ChainMap) (key : string)
  (dflt : option pyval) : result pyval :=
  match chain_get config key, dflt with
  | Some v, _ => Ok v
  | None, Some d => Ok d
  | None, None =>
      Raise (RuntimeError ("Missing required key '" +:+ key +:+ "' in " +:+ name))
  end.

(** The values that the attributes of the model hold: a field that
    holds a value of another type is left to [Unmodelled]. *)
Definition as_str (v : pyval) : result string :=
  match v with
  | PStr s => Ok s
  | _ => Raise (Unmodelled "a field that is not a string")
  end.

Definition as_strs (v : pyval) : result (list string) :=
  match v with
  | PList l =>
      if forallb is_str l then Ok (map str_of l)
      else Raise (Unmodelled "a list with an element that is not a string")
  | _ => Raise (Unmodelled "a field that is not a list")
  end.

(** A setting that is [False] or a string. *)
Definition as_link (v : pyval) : result string :=
  match v with
  | PBool false => Ok ""
  | PStr s => Ok s
  | _ => Raise (Unmodelled "a link that is neither False nor a string")
  end.

Definition as_strip (v : pyval) : result strip_setting :=
  match v with
  | PBool b => Ok (StripBool b)
  | PList l =>
      if forallb is_str l then Ok (StripPaths (map str_of l))
      else Raise (Unmodelled "a list with an element that is not a string")
  | _ => Raise (Unmodelled "a strip setting that is neither a boolean nor a list")
  end.

Definition as_int (v : pyval) : result Z :=
  match v with
  | PInt n => Ok n
  | _ => Raise (Unmodelled "a field that is not an integer")
  end.

(** [context[-1]]. *)
Definition last_of (context : list string) : result string :=
  match last context with
  | Some name => Ok name
  | None => Raise (IndexError "list index out of range")
  end.

(** *** [Installable.__init__]

    The attributes that the model of the classes reads. *)
Record base := {
  i_target_name : pyval;
  i_context : list string;
  i_name : string;
  i_install_always : bool;
  i_build_type : pyval
}.

Definition Installable_init (config : ChainMap) : result base :=
  let target_name := config_lookup config "name" (PStr "(unnamed)") in
  let! context := as_strs (config_lookup config "context" (PList [])) in
  let! shown := render target_name in
  Ok {| i_target_name := target_name;
        i_context := context;
        i_name := String.concat "/" context +:+ " " +:+ shown;
        i_install_always := truthy (config_lookup config "install_always" (PBool false));
        i_build_type := config_lookup config "build_type" (PStr "") |}.

(** *** [_setup_check_exe] *)

(** [x.replace(old, new)] for a non-empty [old]: [skip] counts the
    characters of a replaced occurrence that are still to be passed
    over. *)
Fixpoint replace_from (old new : string) (skip : nat) (s : string) : string :=
  match s with
  | EmptyString => ""
  | String c s' =>
      match skip with
      | S k => replace_from old new k s'
      | O =>
          if String.prefix old s
          then new +:+ replace_from old new (String.length old - 1) s'
          else String c (replace_from old new 0 s')
      end
  end.

Definition replace (old new s : string) : string := replace_from old new 0 s.

(** [x.split('=', 1)]. *)
Fixpoint split_first_eq (s : string) : option (string * string) :=
  match s with
  | EmptyString => None
  | String c s' =>
      if Ascii.eqb c "=" then Some ("", s')
      else match split_first_eq s' with
           | Some (a, b) => Some (String c a, b)
           | None => None
           end
  end.

(** [d[k] = v] on a dictionary of strings. *)
Fixpoint env_set (d : list (string * string)) (k v : string) : list (string * string) :=
  match d with
  | [] => [(k, v)]
  | (k', v') :: d' =>
      if String.eqb k' k then (k, v) :: d' else (k', v') :: env_set d' k v
  end.

(** [dict([...])] of the split entries: an entry without [=] has
    one part only. *)
Fixpoint env_of (entries : list string) (d : list (string * string))
  : result (list (string * string)) :=
  match entries with
  | [] => Ok d
  | x :: entries' =>
      match split_first_eq x with
      | Some (k, v) => env_of entries' (env_set d k v)
      | None =>
          Raise (ValueError "dictionary update sequence element has length 1; 2 is required")
      end
  end.

(** The attributes that [_setup_check_exe] sets; [check_file] is
    [""] when the configured value is false.  When ['check_exe'] is
    a list, the assignment to [check_call[0]] changes that list
    itself; the model gives the attribute and leaves the target as
    it is, so what a later constructor reads from the same list is
    not described here. *)
Record check_setup := {
  cs_env : list (string * string);
  cs_file : string;
  cs_call : list string
}.

Definition _setup_check_exe (name : string) (config : ChainMap) (path_name : string)
  : result check_setup :=
  let! env_v := config_get name config "check_env" (Some (PList [])) in
  let! entries := as_strs env_v in
  let! check_env := env_of (map (replace "%PATH%" path_name) entries) [] in
  let! check_file := config_get name config "check_file" (Some (PBool false)) in
  if truthy check_file then
    let! file := as_str check_file in
    Ok {| cs_env := check_env; cs_file := join path_name file; cs_call := [] |}
  else
    let! check_exe := config_get name config "check_exe" None in
    let! call := command_config check_exe in
    match call with
    | [] => Raise (IndexError "list index out of range")
    | exe :: args =>
        Ok {| cs_env := check_env; cs_file := ""; cs_call := join path_name exe :: args |}
    end.

(** The installable with the attributes of the base class and of
    [_setup_check_exe].  [depends] stands for the value of the field
    ['depends']: the objects on which [install] calls
    [is_installed]. *)
Definition make (b : base) (depends : list Installable) (link : option (string * string))
  (c : check_setup) (k : variant) : Installable :=
  {| name := i_name b;
     depends := depends;
     install_always := i_install_always b;
     _check_link := link;
     check_file := cs_file c;
     check_call := cs_call c;
     check_env := cs_env c;
     kind := k |}.

(** [if link: self._setup_check_link(source, link)]. *)
Definition link_check (source link : string) : option (string * string) :=
  if nonempty link then Some (source, link) else None.

(** [v == text] for a value of a target. *)
Definition is_text (v : pyval) (text : string) : bool :=
  match v with
  | PStr s => String.eqb s text
  | _ => false
  end.

(** The chain of comparisons of the field ['compression'] with
    ['xz'], ['gz'] and ['bz2']: the extension of the archive and the
    flag of [tar] that goes with it. *)
Definition compression_of (compression : pyval) : result (string * string) :=
  if is_text compression "xz" then Ok (".tar.xz", "J")
  else if is_text compression "gz" then Ok (".tar.gz", "z")
  else if is_text compression "bz2" then Ok (".tar.bz2", "j")
  else
    let! shown := render compression in
    Raise (RuntimeError ("Unknown compression " +:+ shown)).

(** *** [TarballInstallable.__init__] *)
Definition TarballInstallable_init (depends : list Installable) (config : ChainMap)
  : result Installable :=
  let! b := Installable_init config in
  let get := config_get (i_name b) config in
  let! dir := get "dir" None in
  let! install_path := as_str dir in
  let! symlink := get "symlink" (Some (PBool false)) in
  let! install_path_symlink := as_link symlink in
  let! untar_dir := get "untar_dir" (Some dir) in
  let! untar_path := as_str untar_dir in
  let! create_untar_dir := get "create_untar_dir" (Some (PBool false)) in
  let untar_to := if truthy create_untar_dir then untar_path else "." in
  let! url := get "url" None in
  let! url := render url in
  let! compression := get "compression" None in
  let! chosen := compression_of compression in
  let flag := snd chosen in
  let! configure := get "configure_command" (Some (PList [])) in
  let! configure_command := command_config configure in
  let! strip_components := get "strip_components" (Some (PInt 0)) in
  let! tar_cmd :=
    (if truthy strip_components then
       let! count := render strip_components in
       Ok ["tar"; flag +:+ "xf"; "-"; "--strip-components"; count]
     else Ok ["tar"; flag +:+ "xf"; "-"]) in
  let! strip := get "strip" (Some (PBool false)) in
  let! strip := as_strip strip in
  let! check := _setup_check_exe (i_name b) config install_path in
  Ok (make b depends (link_check install_path install_path_symlink) check
        (Tarball {| tb_install_path := install_path;
                    tb_install_path_symlink := install_path_symlink;
                    tb_untar_path := untar_path;
                    tb_untar_to := untar_to;
                    tb_url := url;
                    tb_configure_command := configure_command;
                    tb_tar_cmd := tar_cmd;
                    tb_strip := strip |})).

(** *** [ScriptInstallable.__init__] *)
Definition ScriptInstallable_init (depends : list Installable) (config : ChainMap)
  : result Installable :=
  let! b := Installable_init config in
  let get := config_get (i_name b) config in
  let! dir := get "dir" None in
  let! install_path := as_str dir in
  let! symlink := get "symlink" (Some (PBool false)) in
  let! install_path_symlink := as_link symlink in
  let! fetch := get "fetch" None in
  let! fetch := as_strs fetch in
  let! script := get "script" None in
  let! script := as_str script in
  let! strip := get "strip" (Some (PBool false)) in
  let! strip := as_strip strip in
  let! check := _setup_check_exe (i_name b) config install_path in
  Ok (make b depends (link_check install_path install_path_symlink) check
        (Script {| sc_install_path := install_path;
                   sc_install_path_symlink := install_path_symlink;
                   sc_fetch := fetch;
                   sc_script := script;
                   sc_strip := strip |})).

(** *** [S3TarballInstallable.__init__] *)
Definition S3TarballInstallable_init (depends : list Installable) (config : ChainMap)
  : result Installable :=
  let! b := Installable_init config in
  let get := config_get (i_name b) config in
  let! subdir := get "subdir" (Some (PStr "")) in
  let! last_context := last_of (i_context b) in
  let! subdir := as_str subdir in
  let! target_name := render (i_target_name b) in
  let default_untar_dir := last_context +:+ "-" +:+ target_name in
  let default_s3_path_prefix :=
    if nonempty subdir then subdir +:+ "-" +:+ last_context +:+ "-" +:+ target_name
    else default_untar_dir in
  let default_path_name :=
    if nonempty subdir then subdir +:+ "/" +:+ last_context +:+ "-" +:+ target_name
    else default_untar_dir in
  let! s3_path_prefix := get "s3_path_prefix" (Some (PStr default_s3_path_prefix)) in
  let! s3_path_prefix := render s3_path_prefix in
  let! path_name := get "path_name" (Some (PStr default_path_name)) in
  let! path_name := as_str path_name in
  let! untar_dir := get "untar_dir" (Some (PStr default_untar_dir)) in
  let! untar_dir := as_str untar_dir in
  let! compression := get "compression" (Some (PStr "xz")) in
  let! chosen := compression_of compression in
  let! strip := get "strip" (Some (PBool false)) in
  let! strip := as_strip strip in
  let! check := _setup_check_exe (i_name b) config path_name in
  Ok (make b depends None check
        (S3Tarball {| s3_subdir := subdir;
                      s3_s3_path := s3_path_prefix +:+ fst chosen;
                      s3_path_name := path_name;
                      s3_untar_dir := untar_dir;
                      s3_decompress_flag := snd chosen;
                      s3_strip := strip |})).

(** *** [GitHubInstallable.__init__]

    The class sets [check_file] itself and never calls
    [_setup_check_exe]. *)
Definition GitHubInstallable_init (depends : list Installable) (config : ChainMap)
  : result Installable :=
  let! b := Installable_init config in
  let get := config_get (i_name b) config in
  let! last_context := last_of (i_context b) in
  let! repo := get "repo" (Some (PStr "")) in
  let! repo := as_str repo in
  let! method := get "method" (Some (PStr "archive")) in
  let! method := as_str method in
  let! subdir := get "subdir" (Some (PStr last_context)) in
  let! subdir := as_str subdir in
  let subdir := join "libs" subdir in
  let! target_prefix := get "target_prefix" (Some (PStr "")) in
  let! target_prefix := as_str target_prefix in
  let! target_name := as_str (i_target_name b) in
  let! path_name := get "path_name" (Some (PStr (join subdir (target_prefix +:+ target_name)))) in
  let! path_name := as_str path_name in
  if String.eqb repo "" then Raise (RuntimeError "Requires repo")
  else
    match split_char "/" "" repo with
    | _ :: reponame :: _ =>
        let! untar_dir := get "untar_dir" (Some (PStr (reponame +:+ "-" +:+ target_name))) in
        let! untar_dir := as_str untar_dir in
        let! check_file := get "check_file" (Some (PStr "")) in
        let! check_file :=
          (if is_text check_file "" then
             if is_text (i_build_type b) "cmake" then Ok (join path_name "CMakeLists.txt")
             else if is_text (i_build_type b) "make" then Ok (join path_name "Makefile")
             else Raise (RuntimeError "Requires check_file")
           else
             let! shown := render check_file in Ok (path_name +:+ "/" +:+ shown)) in
        Ok (make b depends None {| cs_env := []; cs_file := check_file; cs_call := [] |}
              (GitHub {| gh_repo := repo;
                         gh_method := method;
                         gh_subdir := subdir;
                         gh_target_prefix := target_prefix;
                         gh_target_name := target_name;
                         gh_path_name := path_name;
                         gh_reponame := reponame;
                         gh_untar_dir := untar_dir;
                         gh_decompress_flag := "z";
                         gh_strip := StripBool false |}))
    | _ => Raise (IndexError "list index out of range")
    end.

(** *** [NightlyInstallable.__init__]

    The constructor consults the listing of S3 through
    [s3_available_compilers] and logs the version it picks, so it is
    given the listing and the memo, and answers the memo together
    with a computation on the world. *)
Definition NightlyInstallable_init (L : listing) (memo : option versions_map)
  (depends : list Installable) (config : ChainMap)
  : option versions_map * IO Installable :=
  match (let! b := Installable_init config in
         let get := config_get (i_name b) config in
         let! subdir := get "subdir" (Some (PStr "")) in
         let! strip := get "strip" (Some (PBool false)) in
         let! last_context := last_of (i_context b) in
         let! subdir := as_str subdir in
         let! strip := as_strip strip in
         let! target_name := render (i_target_name b) in
         let! compiler_name :=
           get "compiler_name" (Some (PStr (last_context +:+ "-" +:+ target_name))) in
         let! compiler_name := as_str compiler_name in
         Ok (b, subdir, strip, compiler_name)) with
  | Raise e => (memo, raise e)
  | Ok (b, subdir, strip, compiler_name) =>
      let (memo', current) := s3_available_compilers L memo in
      (memo',
       match current with
       | Raise e => raise e
       | Ok current =>
           match versions_of current compiler_name with
           | None =>
               raise (RuntimeError ("Unable to find nightlies for " +:+ compiler_name))
           | Some versions =>
               match py_max versions with
               | None => raise (ValueError "max() arg is an empty sequence")
               | Some most_recent =>
                   info (i_name b +:+ ": Most recent " +:+ compiler_name +:+ " is "
                         +:+ most_recent) ;;
                   match (let get := config_get (i_name b) config in
                          let! symlink :=
                            get "symlink" (Some (PStr (join subdir compiler_name))) in
                          let! symlink := as_str symlink in
                          let! num_to_keep := get "num_to_keep" (Some (PInt 5)) in
                          let! num_to_keep := as_int num_to_keep in
                          let! fields :=
                            nightly_fields subdir compiler_name versions (Some symlink)
                              (Some num_to_keep) strip in
                          let! check := _setup_check_exe (i_name b) config (ni_path_name fields) in
                          Ok (make b depends
                                (Some (ni_s3_path fields, ni_path_name_symlink fields))
                                check (Nightly fields))) with
                   | Ok installable => ret installable
                   | Raise e => raise e
                   end
               end
           end
       end)
  end.

End Config.

(** ** The options of a compiler and the probe of its architectures *)
Module Options.
Import Ctx.

(** A text is the sequence of its code points, here all below 256.
    [is_space] is [str.isspace] on them; the class [\S] of a pattern
    over [str] is its complement. *)
Definition is_space (c : ascii) : bool :=
  let n := nat_of_ascii c in
  (Nat.leb 9 n && Nat.leb n 13) || (Nat.leb 28 n && Nat.leb n 32)
  || Nat.eqb n 133 || Nat.eqb n 160.

(** What follows [literal] when [s] starts with it. *)
Fixpoint strip_prefix (literal s : string) : option string :=
  match literal, s with
  | EmptyString, _ => Some s
  | String a literal', String b s' =>
      if Ascii.eqb a b then strip_prefix literal' s' else None
  | String _ _, EmptyString => None
  end.

(** What follows the leftmost occurrence of [literal] in [s]. *)
Fixpoint after_first (literal s : string) : option string :=
  match strip_prefix literal s with
  | Some rest => Some rest
  | None =>
      match s with
      | EmptyString => None
      | String _ s' => after_first literal s'
      end
  end.

(** The longest prefix without whitespace: what a greedy repetition
    of [\S] takes. *)
Fixpoint non_space_run (s : string) : string :=
  match s with
  | EmptyString => EmptyString
  | String c s' => if is_space c then EmptyString else String c (non_space_run s')
  end.

(** The group of a search in [options] for the pattern that is
    [literal], standing for itself, and then a group of as many
    characters of the class [\S] as there are; [None] is no match. *)
Definition search_word (literal options : string) : option string :=
  non_space_run <$> after_first literal options.

(** [getStdVerFromOptions] and [getTargetFromOptions]; [None] is the
    [False] they return for no match. *)
Definition getStdVerFromOptions (options : string) : option string :=
  search_word "-std=" options.

Definition getTargetFromOptions (options : string) : option string :=
  search_word "-target " options.

(** [sub in s] on texts. *)
Definition contains (sub s : string) : bool :=
  match after_first sub s with
  | Some _ => true
  | None => false
  end.

(** [os.path.dirname] of any name: up to the last slash, without
    the slashes that end it unless it has nothing else. *)
Fixpoint all_slashes (s : string) : bool :=
  match s with
  | EmptyString => true
  | String c s' => Ascii.eqb c "/" && all_slashes s'
  end.

Fixpoint rstrip_slashes (s : string) : string :=
  match s with
  | EmptyString => EmptyString
  | String c s' =>
      match rstrip_slashes s' with
      | EmptyString => if Ascii.eqb c "/" then EmptyString else String c EmptyString
      | rest => String c rest
      end
  end.

Definition os_path_dirname (p : string) : string :=
  match before_last_slash p with
  | None => EmptyString
  | Some d =>
      let head := d +:+ "/" in
      if all_slashes head then head else rstrip_slashes head
  end.

(** How a helper process ends: with an exit status and what it
    wrote to its standard output, taken as text that decodes; or it
    could not be started. *)
Inductive outcome :=
| Exited (status : Z) (output : string)
| NotStarted (e : exn).

(** What the probe of a compiler asks of its surroundings. *)
Record probes := {
  run : list string -> outcome;
  path_exists : string -> bool
}.

(** [subprocess.check_output(args)]. *)
Definition subprocess_check_output (P : probes) (args : list string) : IO string :=
  match run P args with
  | Exited status output =>
      if (status =? 0)%Z then ret output else raise (CalledProcessError args)
  | NotStarted e => raise e
  end.

Definition does_compiler_support (P : probes) (exe compilerType arch options : string)
  : IO bool :=
  let probed : IO bool :=
    let* output :=
      (if String.eqb compilerType "" then
         subprocess_check_output P [exe; "--target-help"]
       else if String.eqb compilerType "clang" then
         let folder := os_path_dirname exe in
         let llcexe := join folder "llc" in
         if path_exists P llcexe then
           match run P [llcexe; "--version"] with
           | Exited _ output => ret output
           | NotStarted e => raise e
           end
         else ret ""
       else ret "") in
    if contains arch output then
      debug ("Compiler " +:+ exe +:+ " supports " +:+ arch) ;; ret true
    else
      debug ("Compiler " +:+ exe +:+ " does not support " +:+ arch) ;; ret false in
  match getTargetFromOptions options with
  | Some (String c fixedTarget) => ret (String.eqb (String c fixedTarget) arch)
  | _ => probed
  end.

Definition does_compiler_support_x86 (P : probes) (exe compilerType options : string)
  : IO bool :=
  does_compiler_support P exe compilerType "x86" options.

End Options.


(** * Notions used in the statements *)

Module Notions.
Import Py Expander.

(** No step of a pass raises a [RuntimeError]: that class is only
    raised by the loop itself (and by a float target). *)
Definition not_runtime {A} (r : result A) : Prop :=
  match r with
  | Raise (RuntimeError _) => False
  | _ => True
  end.

(** [n] passes in a row, each begun because the target still needed
    expansion and each run to its end. *)
Fixpoint passes (context : list string) (n : nat) (target : ChainMap)
  : option ChainMap :=
  match n with
  | O => Some target
  | S n' =>
      if needs_expansion target then
        match expand_pass context (chain_keys target) target with
        | Ok target' => passes context n' target'
        | Raise _ => None
        end
      else None
  end.

(** [s] can stand between braces as the plain name of a keyword:
    it is not empty, not a number, and has none of the characters
    that the format syntax gives a meaning to. *)
Definition plain_char (c : ascii) : bool :=
  negb (Ascii.eqb c "{" || Ascii.eqb c "}" || Ascii.eqb c "." || Ascii.eqb c "["
        || Ascii.eqb c "!" || Ascii.eqb c ":").

Fixpoint plain_chars (s : string) : bool :=
  match s with
  | EmptyString => true
  | String c s' => plain_char c && plain_chars s'
  end.

Definition plain_name (s : string) : bool :=
  negb (String.eqb s "") && negb (all_digits s) && plain_chars s.

(** The text [{name}]. *)
Definition placeholder (name : string) : string := "{" +:+ name +:+ "}".

(** Two configurations that agree once the field [k] is written. *)
Definition agree_but (k : string) (b1 b2 : dict) : Prop :=
  dict_mem b1 k = true /\ dict_mem b2 k = true
  /\ forall v, dict_set b1 k v = dict_set b2 k v.

(** No mapping in [v], at any depth, has the key [k]. *)
Fixpoint no_key (k : string) (v : pyval) : bool :=
  match v with
  | PList l => forallb (no_key k) l
  | PDict d => negb (dict_mem d k) && forallb (fun kv => no_key k (snd kv)) d
  | _ => true
  end.

(** [s] has neither an opening nor a closing brace. *)
Fixpoint brace_free (s : string) : bool :=
  match s with
  | EmptyString => true
  | String c s' => negb (Ascii.eqb c "{") && negb (Ascii.eqb c "}") && brace_free s'
  end.

(** A value that template expansion leaves as it is (a float becomes
    its text): a string or float text without braces, a list of such
    strings, or a value that expansion does not look into. *)
Definition inert (v : pyval) : bool :=
  match v with
  | PStr s | PFloat s => brace_free s
  | PList l => negb (forallb is_str l) || forallb (fun x => brace_free (str_of x)) l
  | _ => true
  end.

(** A value that template expansion leaves exactly as it is. *)
Definition stable (v : pyval) : bool :=
  match v with
  | PFloat _ => false
  | _ => inert v
  end.

(** Every field of [target] other than [a] and [b] is inert. *)
Definition others_inert (a b : string) (target : ChainMap) : bool :=
  forallb (fun k =>
             String.eqb k a || String.eqb k b
             || match chain_get target k with Some v => inert v | None => true end)
    (chain_keys target).

(** The fields [a] and [b] each hold a placeholder for one of the
    two, and every other field is inert. *)
Definition cycle_state (a b : string) (target : ChainMap) : Prop :=
  (exists x, (x = a \/ x = b) /\ chain_get target a = Some (PStr (placeholder x)))
  /\ (exists y, (y = a \/ y = b) /\ chain_get target b = Some (PStr (placeholder y)))
  /\ forall k v, chain_get target k = Some v -> k <> a -> k <> b -> inert v = true.

(** A node whose fields [dir] and [url] refer to each other. *)
Definition cyclic_node : pyval :=
  PDict [("type", PStr "tarballs"); ("compression", PStr "xz");
         ("dir", PStr "{url}"); ("url", PStr "{dir}");
         ("targets", PList [PStr "9.1.0"])].

(** A guarded node with a guarded child, and a guarded node whose
    subtree has no further guard. *)
Definition nested_guards : pyval :=
  PDict [("if", PStr "nightly"); ("type", PStr "nightly");
         ("clang", PDict [("if", PStr "non-free");
                          ("targets", PList [PStr "trunk"])])].

Definition single_guard : dict :=
  [("if", PStr "nightly"); ("type", PStr "nightly");
   ("clang", PDict [("targets", PList [PStr "trunk"])])].

End Notions.

Module IONotions.
Import Ctx Inst.

(** The verdict of the link check of an installable on a file
    system: [True] when no link check is configured. *)
Definition link_verdict (f : gmap path entry) (self : Installable) : result bool :=
  match _check_link self with
  | None => Ok true
  | Some (source, link) =>
      match f !! (Destination, link) with
      | Some (Symlink target) => Ok (String.eqb target source)
      | None => Ok false
      | Some _ => Raise (OSError "Invalid argument")
      end
  end.

(** The verdict of the probe: success means installed, a missing
    executable and a non-zero exit mean not installed. *)
Definition probe_verdict (E : env) (ctx : InstallationContext) (self : Installable)
  : result bool :=
  match check_call self with
  | [] => Raise (IndexError "list index out of range")
  | exe :: rest =>
      match probe E (join (destination ctx) exe :: rest) (check_env self) with
      | Ok _ => Ok true
      | Raise (FileNotFoundError _) => Ok false
      | Raise (CalledProcessError _) => Ok false
      | Raise e => Raise e
      end
  end.

(** The order in which the checks decide: a link check that fails
    decides "not installed"; otherwise a configured marker file
    decides by its presence; otherwise the probe decides. *)
Definition resolution (E : env) (ctx : InstallationContext) (f : gmap path entry)
  (self : Installable) : result bool :=
  match link_verdict f self with
  | Raise e => Raise e
  | Ok false => Ok false
  | Ok true =>
      if nonempty (check_file self) then Ok (isfile f (Destination, check_file self))
      else probe_verdict E ctx self
  end.



(** A concrete setting for examples: a live context, surroundings in
    which helper processes succeed, the probe finds no executable and
    nothing can be fetched, a compiler installed from a tarball with
    a link check, and a library that depends on it. *)
Definition ctx_live : InstallationContext :=
  {| destination := "/opt/compiler-explorer";
     staging := "/tmp/staging";
     s3_url := "https://s3.amazonaws.com/compiler-explorer/opt";
     dry_run := false |}.

Definition env_bare : env :=
  {| call := fun _ => 0%Z;
     probe := fun args _ => Raise (FileNotFoundError (default "" (head args)));
     remote := fun _ => Raise (RuntimeError "Fetch failure") |}.

Definition gcc_tarball : Installable :=
  {| name := "compilers/c++/x86/gcc 9.1.0";
     depends := [];
     install_always := false;
     _check_link := Some ("gcc-9.1.0", "gcc-current");
     check_file := "";
     check_call := ["gcc-9.1.0/bin/gcc"; "--version"];
     check_env := [];
     kind := Tarball {| tb_install_path := "gcc-9.1.0";
                        tb_install_path_symlink := "gcc-current";
                        tb_untar_path := "gcc-9.1.0";
                        tb_untar_to := ".";
                        tb_url := "https://example/gcc-9.1.0.tar.xz";
                        tb_configure_command := [];
                        tb_tar_cmd := ["tar"; "Jxf"; "-"];
                        tb_strip := StripBool false |} |}.

Definition fmt_library : Installable :=
  {| name := "libraries/c++/fmt 6.0.0";
     depends := [gcc_tarball];
     install_always := false;
     _check_link := None;
     check_file := "libs/fmt/6.0.0/CMakeLists.txt";
     check_call := [];
     check_env := [];
     kind := GitHub {| gh_repo := "fmtlib/fmt";
                       gh_method := "archive";
                       gh_subdir := "libs/fmt";
                       gh_target_prefix := "";
                       gh_target_name := "6.0.0";
                       gh_path_name := "libs/fmt/6.0.0";
                       gh_reponame := "fmt";
                       gh_untar_dir := "fmt-6.0.0";
                       gh_decompress_flag := "z";
                       gh_strip := StripBool false |} |}.

Definition world_empty : world := World ∅ [] [].

(** A world in which a new build of an installed compiler has been
    staged and the second rename to come is made to fail. *)
Definition world_rename_fails : world :=
  World
    (list_to_map
       [((Staging, "gcc-9.1.0"), Dir ["bin"; "lib"; "share"]);
        ((Destination, "gcc-9.1.0"), Dir ["bin"; "lib"])])
    [] [false; true].

(** The nightly scenario: three versions of a compiler are installed,
    [v1 < v2 < v3], the current link points at [v3], the listing
    announces [v4] and the configuration asks to keep two. *)
Definition nightly_gcc_fields : NightlyInstallable :=
  {| ni_subdir := "";
     ni_strip := StripBool false;
     ni_s3_path := "gcc-trunk-v4";
     ni_path_name := "gcc-trunk-v4";
     ni_compiler_pattern := "gcc-trunk-*";
     ni_path_name_symlink := "gcc-trunk";
     ni_num_to_keep := 2 |}.

Definition nightly_gcc : Installable :=
  {| name := "compilers/c++/nightly/gcc trunk";
     depends := [];
     install_always := false;
     _check_link := Some ("gcc-trunk-v4", "gcc-trunk");
     check_file := "";
     check_call := ["gcc-trunk-v4/bin/g++"; "--version"];
     check_env := [];
     kind := Nightly nightly_gcc_fields |}.

Definition env_nightly : env :=
  {| call := fun _ => 0%Z;
     probe := fun args _ => Raise (FileNotFoundError (default "" (head args)));
     remote := fun what =>
       match what with
       | FetchUrl _ _ _ => Ok [("gcc-trunk-v4", Dir ["bin"; "lib"])]
       | _ => Raise (RuntimeError "Fetch failure")
       end |}.

Definition world_three_versions : world :=
  World
    (list_to_map
       [((Destination, "gcc-trunk-v1"), Dir ["bin"]);
        ((Destination, "gcc-trunk-v2"), Dir ["bin"]);
        ((Destination, "gcc-trunk-v3"), Dir ["bin"]);
        ((Destination, "gcc-trunk"), Symlink "gcc-trunk-v3")])
    [] [].

End IONotions.

Module BuildNotions.
Import Ctx Build.

(** Whether one attempt counts as a success: the build script exits
    with status zero and, unless in dry-run mode, binaries are found
    and the export script exits with status zero too. *)
Definition counts_as_success (B : build_env) (ctx : InstallationContext)
  (c : combination) : bool :=
  (build_exit B c =? 0)%Z
  && (dry_run ctx
      || negb (Nat.eqb (filesfound B c) 0) && (conan_exit B c =? 0)%Z).

Definition count_tally (B : build_env) (ctx : InstallationContext)
  (cs : list combination) (t : tally) : tally :=
  {| builds_succeeded :=
       builds_succeeded t + length (filter (fun c => counts_as_success B ctx c = true) cs);
     builds_failed :=
       builds_failed t + length (filter (fun c => counts_as_success B ctx c = false) cs) |}.

(** A library built with CMake, one compiler, and two surroundings
    that differ only in the exit status of the export script. *)
Definition fmt_buildable : buildable :=
  {| b_name := "libraries/c++/fmt 6.0.0";
     libname := "fmt";
     path_name := "libs/fmt/6.0.0";
     build_type := "cmake";
     build_fixed_arch := "";
     build_fixed_stdlib := "" |}.

Definition g91 : compiler :=
  {| id := "g91";
     exe := "/opt/compiler-explorer/gcc-9.1.0/bin/g++";
     options := "";
     compilerType := Some "";
     group := "gcc86";
     toolchain := "/opt/compiler-explorer/gcc-9.1.0";
     fixedStdver := "" |}.

Definition g91_x86_64 : combination :=
  {| c_compiler := g91; buildos := "Linux"; buildtype := "Debug";
     arch := "x86_64"; stdver := ""; stdlib := ""; flagscombination := [""] |}.

Definition build_env_with (export_status : Z) : build_env :=
  {| sha256_hex := fun _ => "0f3a";
     build_exit := fun _ => 0%Z;
     filesfound := fun _ => 1%nat;
     conan_exit := fun _ => export_status;
     does_compiler_support := fun _ _ => true |}.

Definition ctx_build : InstallationContext :=
  {| destination := "/opt/compiler-explorer";
     staging := "/tmp/staging";
     s3_url := "";
     dry_run := false |}.

(** The attempts that [makebuild] makes for one compiler and for a
    list of compilers, when it reaches the end of its loop. *)
Definition skipped (buildfor : string) (comp : compiler) : bool :=
  negb (String.eqb buildfor "") && negb (String.eqb (id comp) buildfor).

Definition attempts_for (B : build_env) (self : buildable) (comp : compiler)
  : list combination :=
  match compilerType comp with
  | None => []
  | Some comp_type =>
      let archs := if negb (String.eqb (build_fixed_arch self) "")
                   then [build_fixed_arch self] else build_supported_arch in
      let archs := if does_compiler_support B comp "x86" then archs else [""] in
      let stdvers := if String.eqb (fixedStdver comp) "" then build_supported_stdver
                     else [fixedStdver comp] in
      combinations comp archs stdvers (stdlibs_for self comp_type)
  end.

Definition matrix (B : build_env) (self : buildable) (buildfor : string)
  (compilerprops : list compiler) : list combination :=
  flat_map (fun comp => if skipped buildfor comp then [] else attempts_for B self comp)
    compilerprops.

(** The loop over the compilers neither raises nor returns early. *)
Definition loop_completes (B : build_env) (self : buildable) (buildfor : string)
  (compilerprops : list compiler) : Prop :=
  forall comp, comp ∈ compilerprops -> skipped buildfor comp = false ->
    compilerType comp <> None
    /\ (build_fixed_arch self = ""
        \/ does_compiler_support B comp (build_fixed_arch self) = true).

End BuildNotions.

Module TreeNotions.
Import Py Expander Notions.


(** A template with one replacement field: literal text, the field
    [{name}], and what follows. *)
Definition template (pre name post : string) : string :=
  pre +:+ placeholder name +:+ post.

End TreeNotions.

Module FrameNotions.
Import Ctx Inst.

(** Two file systems that hold the same at every path that
    satisfies [P]. *)
Definition agree_on (P : path -> Prop) (f f' : gmap path entry) : Prop :=
  forall p, P p -> f' !! p = f !! p.

(** A computation whose runs, whatever their outcome, relate the
    file system they start from to the one they leave by [R]. *)
Definition keeps {A : Type} (R : relation (gmap path entry)) (m : IO A) : Prop :=
  forall w, R (fs w) (fs (fst (m w))).

(** A property of the file system that holds afterwards when it
    held before. *)
Definition carries (Q : gmap path entry -> Prop) : relation (gmap path entry) :=
  fun f f' => Q f -> Q f'.

(** The paths under the destination. *)
Definition installed (p : path) : Prop := fst p = Destination.


(** The staged name and the installed name that [verify] compares. *)
Definition compared (self : Installable) : string * string :=
  match kind self with
  | GitHub g => (gh_untar_dir g, move_target (gh_untar_dir g) (Some (gh_path_name g)))
  | S3Tarball t => (s3_untar_dir t, move_target (s3_untar_dir t) (Some (s3_path_name t)))
  | Nightly n => (ni_s3_path n, move_target (ni_s3_path n) (Some (ni_path_name n)))
  | Tarball t => (tb_untar_path t, move_target (tb_untar_path t) (Some (tb_install_path t)))
  | Script s => (sc_install_path s, sc_install_path s)
  end.

(** An entry of the staging area that some fetch of the surroundings
    delivers. *)
Definition delivered (E : env) (name : string) (e : entry) : Prop :=
  exists what entries, remote E what = Ok entries /\ (name, e) ∈ entries.

Definition all_delivered (E : env) (f : gmap path entry) : Prop :=
  forall name e, f !! (Staging, name) = Some e -> delivered E name e.

(** What an installation from one tarball needs from the
    surroundings: the helper processes succeed and the fetch unpacks
    one directory. *)
Definition env_tarball (name : string) (contents : list string) : env :=
  {| call := fun _ => 0%Z;
     probe := fun args _ => Raise (FileNotFoundError (default "" (head args)));
     remote := fun what =>
       match what with
       | FetchUrl _ _ _ => Ok [(name, Dir contents)]
       | _ => Raise (RuntimeError "Fetch failure")
       end |}.


End FrameNotions.

Module MoreExamples.
Import Ctx Inst Build IONotions BuildNotions.

(** A nightly compiler configured to keep one version. *)
Definition nightly_keep_one : NightlyInstallable :=
  {| ni_subdir := "";
     ni_strip := StripBool false;
     ni_s3_path := "gcc-trunk-v4";
     ni_path_name := "gcc-trunk-v4";
     ni_compiler_pattern := "gcc-trunk-*";
     ni_path_name_symlink := "gcc-trunk";
     ni_num_to_keep := 0 |}.

(** The standards that [makebuild] builds a compiler for. *)
Definition stdvers_for (comp : compiler) : list string :=
  if String.eqb (fixedStdver comp) "" then build_supported_stdver
  else [fixedStdver comp].

(** The build folder of a combination when the library is built with
    CMake. *)
Definition cmake_folder (B : build_env) (c : combination) : path :=
  (Staging, id (c_compiler c) +:+ "_" +:+ sha256_hex B (describe c)).

(** The name [p] is free, or a directory of its own and no link to
    one. *)
Definition free_or_dir (f : gmap path entry) (p : path) : Prop :=
  f !! p = None \/ exists l, f !! p = Some (Dir l).

(** A library pinned to one architecture, and surroundings in which
    no compiler supports x86. *)
Definition arm_buildable : buildable :=
  {| b_name := "libraries/c++/fmt 6.0.0";
     libname := "fmt";
     path_name := "libs/fmt/6.0.0";
     build_type := "cmake";
     build_fixed_arch := "arm";
     build_fixed_stdlib := "" |}.

Definition build_env_arm : build_env :=
  {| sha256_hex := fun _ => "0f3a";
     build_exit := fun _ => 1%Z;
     filesfound := fun _ => 0%nat;
     conan_exit := fun _ => 0%Z;
     does_compiler_support := fun _ arch => String.eqb arch "arm" |}.

End MoreExamples.

Module ConfigExamples.
Import Py Ctx Inst Listing Config IONotions.

(** Targets as the traversal yields them: a compiler from a
    tarball, a nightly compiler, and a target at the top of the
    document, whose context is empty. *)
Definition tarball_target : ChainMap :=
  [[("name", PStr "9.1.0")];
   [("type", PStr "tarballs"); ("compression", PStr "xz");
    ("dir", PStr "gcc-9.1.0"); ("url", PStr "https://example/gcc-9.1.0.tar.xz");
    ("check_exe", PStr "bin/gcc --version"); ("symlink", PStr "gcc-current");
    ("context", PList [PStr "compilers"; PStr "c++"; PStr "x86"; PStr "gcc"])]].

Definition nightly_target : ChainMap :=
  [[("name", PStr "trunk")];
   [("type", PStr "nightly"); ("check_exe", PStr "bin/g++ --version");
    ("context", PList [PStr "compilers"; PStr "gcc"])]].

Definition top_target : ChainMap :=
  [[("name", PStr "trunk")];
   [("type", PStr "nightly"); ("check_exe", PStr "bin/g++ --version");
    ("context", PList [])]].

Definition github_target : ChainMap :=
  [[("name", PStr "6.0.0")];
   [("type", PStr "github"); ("repo", PStr "fmtlib/fmt"); ("build_type", PStr "cmake");
    ("context", PList [PStr "libraries"; PStr "c++"; PStr "fmt"])]].

Definition s3_target : ChainMap :=
  [[("name", PStr "7.0.0")];
   [("type", PStr "s3tarballs"); ("compression", PStr "gz");
    ("check_exe", PStr "bin/clang --version");
    ("context", PList [PStr "compilers"; PStr "clang"])]].

Definition nightly_listing : listing :=
  {| listed := ["gcc-trunk-20190101"; "clang-trunk-20190103"; "gcc-trunk-20190102"];
     failure := None |}.

(** The text ends with [suffix]. *)
Definition ends_with (suffix s : string) : Prop := exists stem, s = stem +:+ suffix.

(** The attributes of an installable that hold names under the
    destination by which [is_installed] decides. *)
Definition marker_only (self : Installable) : Prop :=
  _check_link self = None /\ nonempty (check_file self) = true.

(** The link that [install] sets for an installable, with the
    source it points at. *)
Definition link_set (self : Installable) : option (string * string) :=
  match kind self with
  | Nightly n => Some (ni_s3_path n, ni_path_name_symlink n)
  | Tarball t => link_check (tb_install_path t) (tb_install_path_symlink t)
  | Script s => link_check (sc_install_path s) (sc_install_path_symlink s)
  | _ => None
  end.

(** [inst] is what one of the five constructors builds from the
    target [config]. *)
Definition built (depends : list Installable) (config : ChainMap) (inst : Installable)
  : Prop :=
  TarballInstallable_init depends config = Ok inst
  \/ ScriptInstallable_init depends config = Ok inst
  \/ S3TarballInstallable_init depends config = Ok inst
  \/ GitHubInstallable_init depends config = Ok inst
  \/ exists L memo w w',
       snd (NightlyInstallable_init L memo depends config) w = (w', Ok inst).

(** No character of [s] is a space. *)
Fixpoint no_space (s : string) : bool :=
  match s with
  | EmptyString => true
  | String c s' => negb (Ascii.eqb c " ") && no_space s'
  end.

End ConfigExamples.

Module OptionNotions.
Import Ctx Options.

(** No character of [s] is whitespace. *)
Fixpoint no_whitespace (s : string) : bool :=
  match s with
  | EmptyString => true
  | String c s' => negb (is_space c) && no_whitespace s'
  end.

(** [s] does not go on with a character of a word. *)
Definition at_word_end (s : string) : Prop :=
  s = "" \/ exists c rest, s = String c rest /\ is_space c = true.

(** [found] is the word that follows the leftmost [literal] in
    [options], or nothing when [literal] does not occur there. *)
Definition word_after (literal options : string) (found : option string) : Prop :=
  match found with
  | None => forall pre post, options <> pre +:+ literal +:+ post
  | Some word =>
      exists pre post,
        options = pre +:+ literal +:+ word +:+ post
        /\ no_whitespace word = true
        /\ at_word_end post
        /\ forall pre' post',
             options = pre' +:+ literal +:+ post' ->
             (String.length pre <= String.length pre')%nat
  end.

(** A probe in which every process exits with [status] and prints
    [output], and every path exists or none does. *)
Definition fixed_probes (status : Z) (output : string) (present : bool) : probes :=
  {| run := fun _ => Exited status output;
     path_exists := fun _ => present |}.

End OptionNotions.
(** * Properties *)

(** ** Dictionaries and chain maps *)

Section DictFacts.
Import Py.

Lemma dict_get_set_eq (d : dict) k v : dict_get (dict_set d k v) k = Some v.
Proof.
  induction d as [|[k' v'] d IH]; simpl.
  - by rewrite String.eqb_refl.
  - destruct (String.eqb k' k) eqn:Hk; simpl.
    + by rewrite String.eqb_refl.
    + by rewrite Hk.
Qed.

Lemma dict_get_set_ne (d : dict) k k' v :
  k <> k' -> dict_get (dict_set d k v) k' = dict_get d k'.
Proof.
  intros Hne. induction d as [|[k0 v0] d IH]; simpl.
  - destruct (String.eqb_spec k k'); [done|done].
  - destruct (String.eqb_spec k0 k) as [->|Hk0]; simpl.
    + destruct (String.eqb_spec k k'); [done|done].
    + destruct (String.eqb_spec k0 k'); [done|apply IH].
Qed.

Lemma dict_set_set_eq (d : dict) k v v' :
  dict_set (dict_set d k v) k v' = dict_set d k v'.
Proof.
  induction d as [|[k0 v0] d IH]; simpl.
  - by rewrite String.eqb_refl.
  - destruct (String.eqb k0 k) eqn:Hk; simpl.
    + by rewrite String.eqb_refl.
    + by rewrite Hk, IH.
Qed.

Lemma dict_mem_set (d : dict) k k' v :
  dict_mem d k' = true -> dict_mem (dict_set d k v) k' = true.
Proof.
  unfold dict_mem. destruct (decide (k = k')) as [->|Hne].
  - by rewrite dict_get_set_eq.
  - by rewrite dict_get_set_ne.
Qed.

Lemma dict_mem_set_eq (d : dict) k v : dict_mem (dict_set d k v) k = true.
Proof. unfold dict_mem. by rewrite dict_get_set_eq. Qed.

(** Two writes to different keys commute when the first key written
    last is already present (no new position is created for it). *)
Lemma dict_set_comm (d : dict) k k' v v' :
  k <> k' -> dict_mem d k = true ->
  dict_set (dict_set d k' v') k v = dict_set (dict_set d k v) k' v'.
Proof.
  intros Hne. unfold dict_mem.
  induction d as [|[k0 v0] d IH]; simpl; [done|].
  destruct (String.eqb_spec k0 k) as [->|Hk0]; intros Hmem.
  - destruct (String.eqb_spec k k'); [done|]. simpl.
    rewrite String.eqb_refl. by destruct (String.eqb_spec k k').
  - destruct (String.eqb_spec k0 k') as [->|Hk0']; simpl.
    + destruct (String.eqb_spec k' k); [done|]. by rewrite String.eqb_refl.
    + destruct (String.eqb_spec k0 k); [done|].
      destruct (String.eqb_spec k0 k'); [done|]. by rewrite IH.
Qed.

Lemma dict_get_None_keys (d : dict) k :
  dict_get d k = None <-> k ∉ dict_keys d.
Proof.
  induction d as [|[k0 v0] d IH]; simpl.
  - split; [intros _; apply not_elem_of_nil | done].
  - destruct (String.eqb_spec k0 k) as [->|Hk0].
    + split; [done|]. intros []. apply elem_of_cons. by left.
    + rewrite IH. rewrite not_elem_of_cons. split; [by intros ?; split|by intros [_ ?]].
Qed.

Lemma chain_get_set_eq (cm : ChainMap) k v :
  cm <> [] -> chain_get (chain_set cm k v) k = Some v.
Proof. destruct cm as [|m rest]; [done|]. intros _. simpl. by rewrite dict_get_set_eq. Qed.

Lemma chain_get_set_ne (cm : ChainMap) k k' v :
  k <> k' -> chain_get (chain_set cm k v) k' = chain_get cm k'.
Proof.
  intros Hne. destruct cm as [|m rest]; [done|]. simpl.
  by rewrite dict_get_set_ne.
Qed.

End DictFacts.

(** ** Template expansion *)

Section ExpansionFacts.
Import Py Expander Notions.


Lemma bind_not_runtime {A B} (r : result A) (k : A -> result B) :
  not_runtime r -> (forall a, not_runtime (k a)) -> not_runtime (bind r k).
Proof. destruct r as [a|e]; simpl; auto. Qed.

Lemma render_not_runtime v : not_runtime (render v).
Proof. by destruct v as [| [] | | | | |]. Qed.

Lemma get_field_not_runtime kwargs name : not_runtime (get_field kwargs name).
Proof.
  unfold get_field. destruct (String.eqb name ""); [done|].
  destruct (all_digits name); [done|].
  destruct (kwargs name); [apply render_not_runtime|done].
Qed.

Lemma field_char_not_runtime name c : not_runtime (field_char name c).
Proof. unfold field_char. by repeat case_match. Qed.

Lemma format_from_not_runtime kwargs st s : not_runtime (format_from kwargs st s).
Proof.
  revert st. induction s as [|c s IH]; intros st.
  - by destruct st.
  - destruct st; simpl; repeat case_match;
      repeat (apply bind_not_runtime; [|intros ?]);
      auto using get_field_not_runtime, field_char_not_runtime; done.
Qed.

Lemma mapM_not_runtime {A B} (f : A -> result B) l :
  (forall x, not_runtime (f x)) -> not_runtime (mapM f l).
Proof.
  intros Hf. induction l as [|x l IH]; simpl; [done|].
  apply bind_not_runtime; [apply Hf|]. intros y.
  apply bind_not_runtime; [apply IH|]. done.
Qed.

Lemma expand_value_not_runtime target key value :
  not_runtime (expand_value target key value).
Proof.
  unfold expand_value. destruct (is_list_of_strings value).
  - destruct value; try done.
    apply bind_not_runtime; [|done].
    apply mapM_not_runtime. intros x. apply format_from_not_runtime.
  - destruct value; try done.
    apply bind_not_runtime; [apply format_from_not_runtime|done].
Qed.

Lemma except_KeyError_not_runtime {A} context (r : result A) :
  not_runtime r -> not_runtime (except_KeyError context r).
Proof. destruct r as [a|[]]; simpl; auto. Qed.

Lemma expand_pass_not_runtime context keys target :
  not_runtime (expand_pass context keys target).
Proof.
  revert target. induction keys as [|key keys IH]; intros target; simpl; [done|].
  destruct (chain_get target key); [|done].
  apply bind_not_runtime; [|auto].
  apply except_KeyError_not_runtime, expand_value_not_runtime.
Qed.


(** The loop ends with the too-many error exactly when [remaining]
    passes were completed and the target still needs expansion; the
    counter then stands one above the passes made. *)
Lemma expand_while_too_many context remaining iterations target :
  snd (expand_while context remaining iterations target) = Raise (too_many context)
  <-> exists target', passes context remaining target = Some target'
                      /\ needs_expansion target' = true.
Proof.
  revert iterations target.
  induction remaining as [|r IH]; intros iterations target; simpl.
  - destruct (needs_expansion target) eqn:Hn; simpl.
    + split; [eauto|done].
    + split; [done|]. intros (t & [= <-] & Ht). congruence.
  - destruct (needs_expansion target) eqn:Hn; simpl.
    + pose proof (expand_pass_not_runtime context (chain_keys target) target) as Hnr.
      destruct (expand_pass _ _ _) as [t'|e]; simpl.
      * apply IH.
      * split; [|by intros (? & ? & ?)].
        intros [= ->]. done.
    + split; [done|]. by intros (? & ? & ?).
Qed.

Lemma expand_while_too_many_count context remaining iterations target :
  snd (expand_while context remaining iterations target) = Raise (too_many context) ->
  fst (expand_while context remaining iterations target) = (iterations + remaining + 1)%nat.
Proof.
  revert iterations target.
  induction remaining as [|r IH]; intros iterations target; simpl.
  - destruct (needs_expansion target); simpl; [lia|done].
  - destruct (needs_expansion target); simpl; [|done].
    pose proof (expand_pass_not_runtime context (chain_keys target) target) as Hnr.
    destruct (expand_pass _ _ _) as [t'|e]; simpl.
    + intros H. rewrite (IH _ _ H). lia.
    + intros [= ->]. done.
Qed.

(** What the loop returns needs no expansion. *)
Lemma expand_while_stable context remaining iterations target n target' :
  expand_while context remaining iterations target = (n, Ok target') ->
  needs_expansion target' = false.
Proof.
  revert iterations target.
  induction remaining as [|r IH]; intros iterations target; simpl.
  - destruct (needs_expansion target) eqn:Hn; [done|]. by intros [= <- <-].
  - destruct (needs_expansion target) eqn:Hn; [|by intros [= <- <-]].
    destruct (expand_pass _ _ _) as [t'|e]; [apply IH|done].
Qed.

Lemma expand_resolved context target :
  needs_expansion target = false -> expand context target = (0%nat, Ok target).
Proof. intros H. unfold expand. simpl. by rewrite H. Qed.

Lemma append_cons c (s1 s2 : string) : String c s1 +:+ s2 = String c (s1 +:+ s2).
Proof. done. Qed.

Lemma append_empty_r (s : string) : s +:+ "" = s.
Proof. induction s as [|c s IH]; [done|by rewrite append_cons, IH]. Qed.

Lemma append_assoc (s1 s2 s3 : string) : (s1 +:+ s2) +:+ s3 = s1 +:+ (s2 +:+ s3).
Proof. induction s1 as [|c s1 IH]; [done|by rewrite !append_cons, IH]. Qed.

Lemma plain_char_field name c :
  plain_char c = true ->
  Ascii.eqb c "}" = false /\ Ascii.eqb c "{" = false
  /\ field_char name c = Ok (SField (name +:+ String c "")).
Proof.
  unfold plain_char, field_char. intros H.
  apply negb_true_iff in H. repeat (apply orb_false_iff in H as [H ?]).
  by repeat match goal with Hc : Ascii.eqb _ _ = false |- _ => rewrite Hc; clear Hc end.
Qed.

(** Inside a field, a plain name is read up to the closing brace. *)
Lemma format_from_field kwargs acc name rest :
  plain_chars name = true ->
  format_from kwargs (SField acc) (name +:+ String "}" rest)
  = (let! txt := get_field kwargs (acc +:+ name) in
     let! out := format_from kwargs SLit rest in Ok (txt +:+ out)).
Proof.
  revert acc. induction name as [|c name IH]; intros acc Hp.
  - change ("" +:+ String "}" rest) with (String "}" rest).
    cbn [format_from]. change (Ascii.eqb "}" "}") with true. cbn iota.
    by rewrite append_empty_r.
  - simpl in Hp. apply andb_true_iff in Hp as [Hc Hp].
    destruct (plain_char_field acc c Hc) as (Hc1 & Hc2 & Hc3).
    change (String c name +:+ String "}" rest) with (String c (name +:+ String "}" rest)).
    cbn [format_from]. rewrite Hc1, Hc3. cbn [bind].
    rewrite IH by done. by rewrite append_assoc.
Qed.

Lemma format_placeholder name target :
  plain_name name = true ->
  format (placeholder name) target
  = (let! txt := get_field (chain_get target) name in Ok txt).
Proof.
  unfold plain_name, format, placeholder. intros H.
  apply andb_true_iff in H as [H Hp]. apply andb_true_iff in H as [Hne _].
  destruct name as [|c name]; [done|].
  simpl in Hp. apply andb_true_iff in Hp as [Hc Hp].
  destruct (plain_char_field "" c Hc) as (Hc1 & Hc2 & Hc3).
  change ("{" +:+ String c name +:+ "}") with (String "{" (String c (name +:+ "}"))).
  cbn [format_from]. change (Ascii.eqb "{" "{") with true. cbn iota.
  rewrite Hc1, Hc2, Hc3. cbn [bind].
  rewrite format_from_field by done. simpl.
  destruct (get_field _ _); simpl; [by rewrite ?append_empty_r|done].
Qed.

Lemma get_field_plain kwargs name v :
  plain_name name = true -> kwargs name = Some v ->
  get_field kwargs name = render v.
Proof.
  unfold plain_name, get_field. intros H Hk.
  apply andb_true_iff in H as [H _]. apply andb_true_iff in H as [H1 H2].
  apply negb_true_iff in H1, H2. by rewrite H1, H2, Hk.
Qed.

(** A set of targets that every pass maps into itself, all of them
    in need of expansion, is left only by the ceiling. *)
Lemma expand_while_invariant (P : ChainMap -> Prop) context :
  (forall t, P t -> needs_expansion t = true
                    /\ exists t', expand_pass context (chain_keys t) t = Ok t' /\ P t') ->
  forall remaining iterations t, P t ->
    expand_while context remaining iterations t
    = ((iterations + remaining + 1)%nat, Raise (too_many context)).
Proof.
  intros HP. induction remaining as [|r IH]; intros iterations t Ht;
    destruct (HP t Ht) as (Hn & t' & Hpass & Ht'); simpl; rewrite Hn.
  - do 2 f_equal. lia.
  - rewrite Hpass, (IH _ _ Ht'). f_equal. lia.
Qed.

Lemma format_from_brace_free kwargs s :
  brace_free s = true -> format_from kwargs SLit s = Ok s.
Proof.
  induction s as [|c s IH]; [done|]. simpl.
  intros [[H1 H2]%andb_true_iff H3]%andb_true_iff.
  apply negb_true_iff in H1, H2. rewrite H1, H2, IH by done. done.
Qed.

(** The keys of a chain map are the names that have a value in it. *)
Lemma elem_of_add_key seen k' k :
  k ∈ add_key seen k' <-> k ∈ seen \/ k = k'.
Proof.
  unfold add_key. destruct (existsb (String.eqb k') seen) eqn:He.
  - split; [by left|]. intros [H| ->]; [done|].
    apply existsb_exists in He as (x & Hx & Heq).
    apply String.eqb_eq in Heq as ->. by apply list_elem_of_In.
  - rewrite elem_of_app, list_elem_of_singleton. done.
Qed.

Lemma elem_of_add_keys ks seen k :
  k ∈ fold_left add_key ks seen <-> k ∈ seen \/ k ∈ ks.
Proof.
  revert seen. induction ks as [|k' ks IH]; intros seen; simpl.
  - split; [by left|]. by intros [?|?%elem_of_nil].
  - rewrite IH, elem_of_add_key, elem_of_cons. tauto.
Qed.

Lemma elem_of_layers_keys (ms : list dict) seen k :
  k ∈ fold_left (fun seen m => fold_left add_key (dict_keys m) seen) ms seen
  <-> k ∈ seen \/ exists m, m ∈ ms /\ k ∈ dict_keys m.
Proof.
  revert seen. induction ms as [|m ms IH]; intros seen; simpl.
  - split; [by left|]. intros [?|(m & ?%elem_of_nil & _)]; done.
  - rewrite IH, elem_of_add_keys. split.
    + intros [[?|?]|(m' & Hm' & Hk)]; [by left| |].
      * right. exists m. split; [apply elem_of_cons; by left|done].
      * right. exists m'. split; [apply elem_of_cons; by right|done].
    + intros [?|(m' & [->|Hm']%elem_of_cons & Hk)]; [by left; left|by left; right|].
      right. by exists m'.
Qed.

Lemma chain_get_layers (cm : ChainMap) k :
  chain_get cm k <> None <-> exists m, m ∈ cm /\ k ∈ dict_keys m.
Proof.
  induction cm as [|m cm IH]; simpl.
  - split; [done|]. by intros (m & ?%elem_of_nil & _).
  - destruct (dict_get m k) eqn:Hg.
    + split; [|done]. intros _. exists m. split; [apply elem_of_cons; by left|].
      destruct (decide (k ∈ dict_keys m)) as [|Hn]; [done|].
      apply dict_get_None_keys in Hn. congruence.
    + rewrite IH. apply dict_get_None_keys in Hg. split.
      * intros (m' & Hm' & Hk). exists m'. split; [apply elem_of_cons; by right|done].
      * intros (m' & [->|Hm']%elem_of_cons & Hk); [done|]. by exists m'.
Qed.

Lemma elem_of_chain_keys (cm : ChainMap) k :
  k ∈ chain_keys cm <-> chain_get cm k <> None.
Proof.
  unfold chain_keys. rewrite elem_of_layers_keys, chain_get_layers. split.
  - intros [?%elem_of_nil|(m & Hm & Hk)]; [done|].
    exists m. split; [|done].
    by apply list_elem_of_In, in_rev, list_elem_of_In.
  - intros (m & Hm & Hk). right. exists m. split; [|done].
    by apply list_elem_of_In, in_rev, list_elem_of_In in Hm.
Qed.

Lemma needs_expansion_intro target k v :
  chain_get target k = Some v -> value_needs_expansion v = true ->
  needs_expansion target = true.
Proof.
  intros Hk Hv. unfold needs_expansion, chain_values.
  apply existsb_exists. exists v. split; [|done].
  apply list_elem_of_In, list_elem_of_omap. exists k. split; [|done].
  apply elem_of_chain_keys. by rewrite Hk.
Qed.

Lemma mapM_format_inert target l :
  forallb is_str l = true ->
  forallb (fun x => brace_free (str_of x)) l = true ->
  mapM (fun x => format (str_of x) target) l = Ok (map str_of l)
  /\ map PStr (map str_of l) = l.
Proof.
  induction l as [|x l IH]; [done|]. simpl.
  intros [Hx Hl]%andb_true_iff [Hbx Hbl]%andb_true_iff.
  destruct (IH Hl Hbl) as [-> ->]. unfold format.
  rewrite format_from_brace_free by done. simpl.
  by destruct x.
Qed.

Section MutualCycle.
Variables a b : string.
Hypothesis Ha : plain_name a = true.
Hypothesis Hb : plain_name b = true.

Lemma cycle_state_set t key v :
  cycle_state a b t ->
  (key = a -> exists x, (x = a \/ x = b) /\ v = PStr (placeholder x)) ->
  (key = b -> exists x, (x = a \/ x = b) /\ v = PStr (placeholder x)) ->
  (key <> a -> key <> b -> inert v = true) ->
  cycle_state a b (chain_set t key v).
Proof.
  intros (Hca & Hcb & Hrest) Hva Hvb Hv.
  assert (t <> []) as Hne by (destruct Hca as (x & _ & Hx); by intros ->).
  split; [|split].
  - destruct (decide (key = a)) as [->|Hk].
    + destruct (Hva eq_refl) as (x & Hx & ->). exists x.
      by rewrite chain_get_set_eq.
    + by rewrite chain_get_set_ne.
  - destruct (decide (key = b)) as [->|Hk].
    + destruct (Hvb eq_refl) as (x & Hx & ->). exists x.
      by rewrite chain_get_set_eq.
    + by rewrite chain_get_set_ne.
  - intros k v' Hget Hka Hkb. destruct (decide (key = k)) as [->|Hk].
    + rewrite chain_get_set_eq in Hget by done. injection Hget as <-. by apply Hv.
    + rewrite chain_get_set_ne in Hget by done. by eapply Hrest.
Qed.

Lemma cycle_lookup t x :
  cycle_state a b t -> x = a \/ x = b ->
  exists y, (y = a \/ y = b) /\ chain_get t x = Some (PStr (placeholder y)).
Proof. intros (Hca & Hcb & _) [-> | ->]; done. Qed.

Lemma cycle_format t x :
  cycle_state a b t -> x = a \/ x = b ->
  exists y, (y = a \/ y = b) /\ format (placeholder x) t = Ok (placeholder y).
Proof.
  intros Hc Hx. destruct (cycle_lookup t x Hc Hx) as (y & Hy & Hget).
  exists y. split; [done|].
  assert (plain_name x = true) as Hpx by (by destruct Hx as [-> | ->]).
  rewrite format_placeholder by done.
  by rewrite (get_field_plain _ _ _ Hpx Hget).
Qed.

Lemma set_keeps_keys (t : ChainMap) key v k :
  t <> [] -> chain_get t k <> None -> chain_get (chain_set t key v) k <> None.
Proof.
  intros Hne Hk. destruct (decide (key = k)) as [->|Hkk].
  - by rewrite chain_get_set_eq.
  - by rewrite chain_get_set_ne.
Qed.

(** One item of a pass keeps a cycle a cycle. *)
Lemma cycle_step context t key value :
  cycle_state a b t -> chain_get t key = Some value ->
  exists t',
    except_KeyError context (expand_value t key value) = Ok t'
    /\ cycle_state a b t'
    /\ forall k, chain_get t k <> None -> chain_get t' k <> None.
Proof.
  intros Hc Hget.
  assert (t <> []) as Hne
    by (destruct Hc as ((x & _ & Hx) & _); by intros ->).
  assert (key = a \/ key = b \/ (key <> a /\ key <> b)) as [Hk|[Hk|[Hk1 Hk2]]]
    by (destruct (decide (key = a)), (decide (key = b)); tauto).
  - destruct (cycle_lookup t key Hc (or_introl Hk)) as (x & Hx & Hgx).
    rewrite Hget in Hgx. injection Hgx as ->.
    destruct (cycle_format t x Hc Hx) as (y & Hy & Hf).
    exists (chain_set t key (PStr (placeholder y))).
    unfold expand_value. cbn [is_list_of_strings]. rewrite Hf. cbn.
    split; [done|]. split; [|intros k; by apply set_keeps_keys].
    apply cycle_state_set; [done| | |]; try (intros _; by exists y).
    intros ?. by subst.
  - destruct (cycle_lookup t key Hc (or_intror Hk)) as (x & Hx & Hgx).
    rewrite Hget in Hgx. injection Hgx as ->.
    destruct (cycle_format t x Hc Hx) as (y & Hy & Hf).
    exists (chain_set t key (PStr (placeholder y))).
    unfold expand_value. cbn [is_list_of_strings]. rewrite Hf. cbn.
    split; [done|]. split; [|intros k; by apply set_keeps_keys].
    apply cycle_state_set; [done| | |]; try (intros _; by exists y).
    intros ?. by subst.
  - assert (inert value = true) as Hin
      by (destruct Hc as (_ & _ & Hrest); by eapply Hrest).
    unfold expand_value.
    destruct value as [| bv | n | r | s | l | d]; cbn [is_list_of_strings].
    + exists t. split; [done|]. by split.
    + exists t. split; [done|]. by split.
    + exists t. split; [done|]. by split.
    + exists (chain_set t key (PStr r)). split; [done|].
      split; [|intros k; by apply set_keeps_keys].
      apply cycle_state_set; [done| | |]; by intros.
    + unfold format. rewrite format_from_brace_free by done. cbn.
      exists (chain_set t key (PStr s)). split; [done|].
      split; [|intros k; by apply set_keeps_keys].
      apply cycle_state_set; [done| | |]; by intros.
    + destruct (forallb is_str l) eqn:Hl.
      * cbn in Hin. rewrite Hl in Hin. cbn in Hin.
        destruct (mapM_format_inert t l Hl Hin) as [-> Hmap]. cbn. rewrite Hmap.
        exists (chain_set t key (PList l)). split; [done|].
        split; [|intros k; by apply set_keeps_keys].
        apply cycle_state_set; [done| | |]; try by intros.
        intros _ _. cbn. by rewrite Hl.
      * exists t. split; [done|]. by split.
    + exists t. split; [done|]. by split.
Qed.

Lemma cycle_pass context keys :
  forall t, cycle_state a b t ->
    (forall k, k ∈ keys -> chain_get t k <> None) ->
    exists t', expand_pass context keys t = Ok t' /\ cycle_state a b t'.
Proof.
  induction keys as [|key keys IH]; intros t Hc Hkeys; simpl.
  - by exists t.
  - destruct (chain_get t key) as [value|] eqn:Hget.
    + destruct (cycle_step context t key value Hc Hget) as (t1 & -> & Hc1 & Hk1).
      cbn. apply IH; [done|]. intros k Hk. apply Hk1, Hkeys, elem_of_cons. by right.
    + exfalso. apply (Hkeys key); [apply elem_of_cons; by left|done].
Qed.

Lemma cycle_expand context t :
  cycle_state a b t ->
  expand context t = (S MAX_ITERS, Raise (too_many context)).
Proof.
  intros Hc. unfold expand.
  rewrite (expand_while_invariant (cycle_state a b) context); [done| |done].
  intros t0 Hc0. split.
  - destruct Hc0 as ((x & _ & Hx) & _). by eapply needs_expansion_intro.
  - apply cycle_pass; [done|]. intros k. apply elem_of_chain_keys.
Qed.

Lemma cycle_state_intro t :
  chain_get t a = Some (PStr (placeholder b)) ->
  chain_get t b = Some (PStr (placeholder a)) ->
  others_inert a b t = true ->
  cycle_state a b t.
Proof.
  intros Hga Hgb Hin. split; [by exists b; split; [right|]|].
  split; [by exists a; split; [left|]|].
  intros k v Hk Hka Hkb. unfold others_inert in Hin.
  rewrite forallb_forall in Hin. specialize (Hin k).
  rewrite Hk in Hin.
  replace (String.eqb k a) with false in Hin by (symmetry; by apply String.eqb_neq).
  replace (String.eqb k b) with false in Hin by (symmetry; by apply String.eqb_neq).
  apply Hin, list_elem_of_In, elem_of_chain_keys. by rewrite Hk.
Qed.

End MutualCycle.

End ExpansionFacts.

(** ** The layers of a target under expansion *)

Section FrameFacts.
Import Py Expander Notions.

Lemma chain_set_frame (cm : ChainMap) k v :
  tail (chain_set cm k v) = tail cm /\ length (chain_set cm k v) = length cm.
Proof. by destruct cm. Qed.

Lemma expand_value_frame target key value target' :
  expand_value target key value = Ok target' ->
  tail target' = tail target /\ length target' = length target.
Proof.
  unfold expand_value. destruct (is_list_of_strings value).
  - destruct value; try by intros [= <-].
    destruct (mapM _ _); simpl; [|done].
    intros [= <-]. apply chain_set_frame.
  - destruct value; try by intros [= <-].
    + intros [= <-]. apply chain_set_frame.
    + destruct (format _ _); simpl; [|done].
      intros [= <-]. apply chain_set_frame.
Qed.

Lemma except_KeyError_Ok {A} context (r : result A) a :
  except_KeyError context r = Ok a -> r = Ok a.
Proof. by destruct r as [?|[]]. Qed.

Lemma expand_pass_frame context keys target target' :
  expand_pass context keys target = Ok target' ->
  tail target' = tail target /\ length target' = length target.
Proof.
  revert target. induction keys as [|key keys IH]; intros target; simpl.
  - by intros [= <-].
  - destruct (chain_get target key) as [value|]; [|done].
    destruct (except_KeyError context (expand_value target key value)) as [t1|e] eqn:H1;
      simpl; [|done].
    apply except_KeyError_Ok, expand_value_frame in H1 as [H1 H2].
    intros H. apply IH in H as [H3 H4]. split; congruence.
Qed.

Lemma expand_while_frame context remaining iterations target n target' :
  expand_while context remaining iterations target = (n, Ok target') ->
  tail target' = tail target /\ length target' = length target.
Proof.
  revert iterations target.
  induction remaining as [|r IH]; intros iterations target; simpl.
  - destruct (needs_expansion target); [done|]. by intros [= _ <-].
  - destruct (needs_expansion target); [|by intros [= _ <-]].
    destruct (expand_pass _ _ _) as [t1|e] eqn:H1; [|done].
    apply expand_pass_frame in H1 as [H1 H2].
    intros H. apply IH in H as [H3 H4]. split; congruence.
Qed.

(** Expansion rewrites the first layer and nothing behind it. *)
Lemma expand_front context front rest n target' :
  expand context (front :: rest) = (n, Ok target') ->
  exists front', target' = front' :: rest.
Proof.
  intros H. apply expand_while_frame in H as [H1 H2].
  destruct target' as [|front' rest']; [done|].
  exists front'. simpl in H1. by rewrite H1.
Qed.

Lemma make_target_layers spec base_config target :
  make_target spec base_config = Ok target ->
  exists front, target = [front; base_config].
Proof. destruct spec; simpl; intros [= <-]; eauto. Qed.

(** The outcome of building and expanding one leaf spec. *)
Lemma leaf_outcome context base_config spec target :
  (let! target := make_target spec base_config in snd (expand context target)) = Ok target ->
  exists front, target = [front; base_config].
Proof.
  destruct (make_target spec base_config) as [t0|e] eqn:H0; simpl; [|done].
  apply make_target_layers in H0 as [front0 ->].
  destruct (expand context [front0; base_config]) as [n r] eqn:He. simpl.
  intros ->. apply expand_front in He as [front' ->]. eauto.
Qed.

Lemma leaf_targets_cons context base_config spec specs target :
  (let! target := make_target spec base_config in snd (expand context target)) = Ok target ->
  leaf_targets context base_config (spec :: specs)
  = gen_yield target (leaf_targets context base_config specs).
Proof.
  intros H. cbn [leaf_targets]. rewrite H.
  apply leaf_outcome in H as [front ->]. done.
Qed.

Lemma leaf_targets_layers context base_config specs target :
  target ∈ yielded (leaf_targets context base_config specs) ->
  exists front, target = [front; base_config].
Proof.
  induction specs as [|spec specs IH]; simpl.
  - by intros ?%elem_of_nil.
  - destruct (let! target := make_target spec base_config in snd (expand context target))
      as [t|e] eqn:H; simpl.
    + pose proof (leaf_outcome _ _ _ _ H) as [front ->]. simpl.
      intros [->|Hin]%elem_of_cons; eauto.
    + by intros ?%elem_of_nil.
Qed.

End FrameFacts.

(** ** Claim C4 *)

Section ClaimC4.
Import Py Expander Notions.

(** C4: the expansion loop makes no pass over a target that holds no
    unresolved placeholder, so expanding the result of an expansion
    again changes nothing; it ends with the "Too many mutual
    references" error, whose message names the context path, exactly
    when [MAX_ITERS] = 5 passes were made in full and the target
    still holds a placeholder, and the counter [iterations] then
    stands at 6; every target in which two fields refer to each other
    while all its other fields are free of placeholders ends that
    way, as does the traversal of a node that defines such fields. *)
Theorem expansion_ceiling :
  (forall context target,
      needs_expansion target = false ->
      expand context target = (0%nat, Ok target))
  /\ (forall context target n target',
         expand context target = (n, Ok target') ->
         expand context target' = (0%nat, Ok target'))
  /\ (forall context target,
         snd (expand context target) = Raise (too_many context)
         <-> exists target', passes context 5 target = Some target'
                             /\ needs_expansion target' = true)
  /\ (forall context target,
         snd (expand context target) = Raise (too_many context) ->
         fst (expand context target) = 6%nat)
  /\ (forall context a b target,
         plain_name a = true -> plain_name b = true ->
         chain_get target a = Some (PStr (placeholder b)) ->
         chain_get target b = Some (PStr (placeholder a)) ->
         others_inert a b target = true ->
         expand context target
         = (6%nat,
            Raise (RuntimeError ("Too many mutual references (in "
                                 +:+ String.concat "/" context +:+ ")"))))
  /\ _targets_from cyclic_node [] ["compilers"] "gcc" []
     = gen_raise (RuntimeError "Too many mutual references (in compilers/gcc)").
Proof.
  split; [|split; [|split; [|split; [|split]]]].
  - apply expand_resolved.
  - intros context target n target' H.
    apply expand_resolved. by eapply expand_while_stable.
  - intros context target. apply expand_while_too_many.
  - intros context target H.
    apply (expand_while_too_many_count _ _ _ _ H).
  - intros context a b target Ha Hb Hga Hgb Hin.
    by apply (cycle_expand a b Ha Hb), cycle_state_intro.
  - vm_compute. reflexivity.
Qed.

Lemma expansion_ceiling_witness :
  expand ["libraries"; "boost"] [[("name", PStr "1.64.0")]; [("type", PStr "github")]]
  = (0%nat, Ok [[("name", PStr "1.64.0")]; [("type", PStr "github")]])
  /\ expand ["compilers"; "gcc"]
       [[("name", PStr "9.1.0")];
        [("type", PStr "tarballs"); ("dir", PStr "{url}"); ("url", PStr "{dir}");
         ("context", PList [PStr "compilers"; PStr "gcc"])]]
     = (6%nat, Raise (RuntimeError "Too many mutual references (in compilers/gcc)")).
Proof.
  destruct expansion_ceiling as (H1 & _ & _ & _ & H5 & _).
  split.
  - apply H1. reflexivity.
  - apply (H5 ["compilers"; "gcc"] "dir" "url"); reflexivity.
Defined.

End ClaimC4.

(** ** Claim C10 *)

Section ClaimC10.
Import Py Expander Notions.

(** C10: expanding a target writes only to its first layer, the
    override layer of the leaf; the layers behind it, hence the
    [base_config] shared by the targets of a node, come out of the
    expansion as they went in.  Every target yielded for the leaf
    specs of a node has that same [base_config] as its second layer,
    and the specs that follow an expanded one are built over the
    unchanged [base_config]. *)
Theorem expansion_writes_front_only :
  (forall context front rest n target',
      expand context (front :: rest) = (n, Ok target') ->
      exists front', target' = front' :: rest)
  /\ (forall context base_config specs target,
         target ∈ yielded (leaf_targets context base_config specs) ->
         exists front, target = [front; base_config])
  /\ (forall context base_config spec specs target,
         (let! t := make_target spec base_config in snd (expand context t)) = Ok target ->
         leaf_targets context base_config (spec :: specs)
         = gen_yield target (leaf_targets context base_config specs)).
Proof.
  split; [|split].
  - apply expand_front.
  - apply leaf_targets_layers.
  - apply leaf_targets_cons.
Qed.

Lemma expansion_writes_front_only_witness :
  (exists front',
      [[("name", PStr "9.1"); ("dir", PStr "gcc-9.1")]; [("dir", PStr "gcc-{name}")]]
      = front' :: [[("dir", PStr "gcc-{name}")]])
  /\ leaf_targets ["gcc"] [("dir", PStr "gcc-{name}")] [PStr "9.1"; PStr "9.2"]
     = gen_yield [[("name", PStr "9.1"); ("dir", PStr "gcc-9.1")]; [("dir", PStr "gcc-{name}")]]
         (leaf_targets ["gcc"] [("dir", PStr "gcc-{name}")] [PStr "9.2"]).
Proof.
  destruct expansion_writes_front_only as (H1 & _ & H3).
  split.
  - apply (H1 ["gcc"] [("name", PStr "9.1")] [[("dir", PStr "gcc-{name}")]] 1%nat).
    reflexivity.
  - apply H3. reflexivity.
Defined.

End ClaimC10.

(** ** Claim C5 *)

Section ClaimC5.
Import Py Expander Notions.

Lemma guarded_node_empty items enabled context name base_config condition :
  dict_get items "if" = Some condition ->
  condition_enabled enabled condition = false ->
  _targets_from (PDict items) enabled context name base_config = gen_nil.
Proof.
  intros Hif Hc. cbn [_targets_from].
  destruct (truthy (PDict items)); [|done]. cbn [negb].
  unfold guard_open. by rewrite Hif, Hc.
Qed.

Lemma dict_get_middle (before after : dict) k k' v v' :
  k <> k' ->
  dict_get (before ++ (k, v) :: after) k' = dict_get (before ++ (k, v') :: after) k'.
Proof.
  intros Hne. induction before as [|[k0 v0] before IH]; simpl.
  - by destruct (String.eqb_spec k k').
  - by rewrite IH.
Qed.

Lemma guard_open_middle enabled (before after : dict) k items :
  guard_open enabled (before ++ (k, PDict items) :: after)
  = guard_open enabled (before ++ (k, PNone) :: after).
Proof.
  unfold guard_open. induction before as [|[k0 v0] before IH]; simpl.
  - by destruct (String.eqb k "if").
  - by destruct (String.eqb k0 "if").
Qed.

Lemma merge_node_middle base_config (before after : dict) k items :
  merge_node base_config (before ++ (k, PDict items) :: after)
  = merge_node base_config (before ++ (k, PNone) :: after).
Proof.
  unfold merge_node. rewrite !fold_left_app. simpl.
  by replace (merge_item (fold_left merge_item before base_config) (k, PDict items))
    with (merge_item (fold_left merge_item before base_config) (k, PNone))
    by (unfold merge_item; simpl; by rewrite !andb_false_r).
Qed.

(** C5: a node whose ['if'] names a flag that is not enabled yields
    no target and raises nothing, whatever lies beneath it and
    whatever it inherits; and the node that holds it as a child
    yields exactly what it would yield with nothing under that
    name. *)
Theorem disabled_guard_yields_nothing :
  (forall items enabled context name base_config condition,
      dict_get items "if" = Some condition ->
      condition_enabled enabled condition = false ->
      _targets_from (PDict items) enabled context name base_config = gen_nil)
  /\ (forall items enabled context name base_config condition before after child_name,
         dict_get items "if" = Some condition ->
         condition_enabled enabled condition = false ->
         child_name <> "targets" ->
         _targets_from (PDict (before ++ (child_name, PDict items) :: after))
           enabled context name base_config
         = _targets_from (PDict (before ++ (child_name, PNone) :: after))
             enabled context name base_config).
Proof.
  split; [apply guarded_node_empty|].
  intros items enabled context name base_config condition before after child_name
    Hif Hc Hname.
  cbn [_targets_from].
  replace (truthy (PDict (before ++ (child_name, PDict items) :: after))) with true
    by (by destruct before).
  replace (truthy (PDict (before ++ (child_name, PNone) :: after))) with true
    by (by destruct before).
  cbn [negb]. rewrite guard_open_middle.
  destruct (guard_open enabled _); [|done]. cbn [negb].
  rewrite merge_node_middle. f_equal.
  - rewrite !map_app. cbn [map fst snd].
    by rewrite (guarded_node_empty items _ _ _ _ condition).
  - unfold own_targets.
    by rewrite (dict_get_middle before after child_name "targets" (PDict items) PNone).
Qed.

Lemma disabled_guard_yields_nothing_witness :
  _targets_from
    (PDict [("if", PStr "nightly"); ("type", PStr "nightly");
            ("gcc", PDict [("targets", PList [PStr "trunk"])]);
            ("targets", PList [PStr "clang-trunk"])])
    ["non-free"] ["compilers"] "nightly" [("staging", PStr "/tmp/staging")]
  = gen_nil.
Proof.
  destruct disabled_guard_yields_nothing as [H _].
  apply (H _ _ _ _ _ (PStr "nightly")); reflexivity.
Defined.

End ClaimC5.

(** ** The traversal *)

Section TraversalFacts.
Import Py Expander Notions.

Lemma merge_item_get_ne base_config kv k :
  fst kv <> k -> dict_get (merge_item base_config kv) k = dict_get base_config k.
Proof.
  intros Hne. unfold merge_item. case_match; [|done]. by rewrite dict_get_set_ne.
Qed.

Lemma merge_node_get_notin items base_config k :
  k ∉ dict_keys items ->
  dict_get (merge_node base_config items) k = dict_get base_config k.
Proof.
  unfold merge_node. revert base_config.
  induction items as [|[k0 v0] items IH]; intros base_config Hk; simpl; [done|].
  simpl in Hk. apply not_elem_of_cons in Hk as [Hk0 Hk].
  rewrite IH by done. by apply merge_item_get_ne.
Qed.

Lemma is_list_of_strings_value_type v :
  is_list_of_strings v = true -> is_value_type v = true.
Proof. by destruct v. Qed.

(** The node's own value of a field is the value of the merged
    configuration. *)
Lemma merge_node_get_own items base_config k v :
  NoDup (dict_keys items) -> dict_get items k = Some v ->
  is_value_type v = true -> k <> "targets" ->
  dict_get (merge_node base_config items) k = Some v.
Proof.
  unfold merge_node. intros Hnd Hget Hv Hk. revert base_config.
  induction items as [|[k0 v0] items IH]; intros base_config; [done|].
  simpl in Hnd, Hget. apply NoDup_cons in Hnd as [Hk0 Hnd].
  cbn [fold_left]. destruct (String.eqb_spec k0 k) as [->|Hne].
  - injection Hget as ->.
    change (fold_left merge_item items ?b) with (merge_node b items).
    rewrite merge_node_get_notin by done.
    unfold merge_item. cbn [fst snd]. rewrite Hv.
    replace (String.eqb k "targets") with false by (symmetry; by apply String.eqb_neq).
    apply dict_get_set_eq.
  - by apply IH.
Qed.

Lemma agree_but_set base_config k p1 p2 :
  agree_but k (dict_set base_config k p1) (dict_set base_config k p2).
Proof.
  repeat split; try apply dict_mem_set_eq.
  intros v. by rewrite !dict_set_set_eq.
Qed.

Lemma agree_but_merge_item k b1 b2 kv :
  agree_but k b1 b2 ->
  merge_item b1 kv = merge_item b2 kv
  \/ (agree_but k (merge_item b1 kv) (merge_item b2 kv)
      /\ (fst kv = k -> negb (String.eqb (fst kv) "targets") && is_value_type (snd kv) = false)).
Proof.
  intros (Hm1 & Hm2 & Hset). unfold merge_item.
  destruct (negb (String.eqb (fst kv) "targets") && is_value_type (snd kv)) eqn:Hc.
  - destruct (decide (fst kv = k)) as [->|Hne].
    + left. apply Hset.
    + right. split; [|done]. repeat split; try by apply dict_mem_set.
      intros v. rewrite !(dict_set_comm _ k (fst kv)) by done. by rewrite Hset.
  - right. by repeat split.
Qed.

Lemma agree_but_merge_node k v items b1 b2 :
  agree_but k b1 b2 -> (k, v) ∈ items ->
  is_value_type v = true -> k <> "targets" ->
  merge_node b1 items = merge_node b2 items.
Proof.
  unfold merge_node. intros Hrel Hin Hv Hk. revert b1 b2 Hrel.
  induction items as [|kv items IH]; intros b1 b2 Hrel; [by apply elem_of_nil in Hin|].
  cbn [fold_left].
  destruct (agree_but_merge_item k b1 b2 kv Hrel) as [->|[Hrel' Hskip]]; [done|].
  apply elem_of_cons in Hin as [<-|Hin].
  - cbn [fst snd] in Hskip. rewrite Hv in Hskip.
    replace (String.eqb k "targets") with false in Hskip
      by (symmetry; by apply String.eqb_neq).
    by specialize (Hskip eq_refl).
  - by apply IH.
Qed.

Lemma dict_get_elem_of (d : dict) k v : dict_get d k = Some v -> (k, v) ∈ d.
Proof.
  induction d as [|[k0 v0] d IH]; simpl; [done|].
  destruct (String.eqb_spec k0 k) as [->|Hne].
  - intros [= ->]. apply elem_of_cons. by left.
  - intros H. apply elem_of_cons. right. by apply IH.
Qed.

Lemma own_targets_layers context base_config items target :
  target ∈ yielded (own_targets context base_config items) ->
  exists front,
    target = [front; dict_set base_config "context" (PList (map PStr context))].
Proof.
  unfold own_targets. destruct (dict_get items "targets") as [targets|].
  - destruct (iterate targets) as [specs|e].
    + apply leaf_targets_layers.
    + by intros ?%elem_of_nil.
  - by intros ?%elem_of_nil.
Qed.

(** Induction over a value and the values inside it. *)
Lemma pyval_nested_ind (P : pyval -> Prop) :
  P PNone -> (forall b, P (PBool b)) -> (forall n, P (PInt n)) ->
  (forall r, P (PFloat r)) -> (forall s, P (PStr s)) ->
  (forall l, Forall P l -> P (PList l)) ->
  (forall d, Forall (fun kv => P (snd kv)) d -> P (PDict d)) ->
  forall v, P v.
Proof.
  intros HN HB HI HF HS HL HD.
  fix IH 1. intros [| b | n | r | s | l | d].
  - exact HN.
  - apply HB.
  - apply HI.
  - apply HF.
  - apply HS.
  - apply HL. induction l as [|x l IHl]; constructor; [apply IH|exact IHl].
  - apply HD. induction d as [|[k x] d IHd]; constructor; [apply IH|exact IHd].
Qed.

Lemma elem_of_gen_seq t g1 g2 :
  t ∈ yielded (gen_seq g1 g2) -> t ∈ yielded g1 \/ t ∈ yielded g2.
Proof.
  unfold gen_seq. destruct (raised g1); [by left|]. simpl.
  by intros ?%elem_of_app.
Qed.

Lemma elem_of_gen_concat t gs :
  t ∈ yielded (gen_concat gs) -> exists g, g ∈ gs /\ t ∈ yielded g.
Proof.
  induction gs as [|g gs IH]; simpl.
  - by intros ?%elem_of_nil.
  - intros [H|H]%elem_of_gen_seq.
    + exists g. split; [apply elem_of_cons; by left|done].
    + destruct (IH H) as (g' & Hg' & Ht). exists g'.
      split; [apply elem_of_cons; by right|done].
Qed.

Lemma merge_item_mem base_config kv k :
  dict_mem base_config k = true -> dict_mem (merge_item base_config kv) k = true.
Proof. intros H. unfold merge_item. case_match; [by apply dict_mem_set|done]. Qed.

Lemma merge_node_mem base_config items k :
  dict_mem base_config k = true -> dict_mem (merge_node base_config items) k = true.
Proof.
  unfold merge_node. revert base_config.
  induction items as [|kv items IH]; intros base_config H; simpl; [done|].
  by apply IH, merge_item_mem.
Qed.

Lemma merge_node_mem_own base_config items k v :
  (k, v) ∈ items -> is_value_type v = true -> k <> "targets" ->
  dict_mem (merge_node base_config items) k = true.
Proof.
  unfold merge_node. intros Hin Hv Hk. revert base_config.
  induction items as [|kv items IH]; intros base_config; [by apply elem_of_nil in Hin|].
  cbn [fold_left]. apply elem_of_cons in Hin as [<-|Hin]; [|by apply IH].
  change (fold_left merge_item items ?b) with (merge_node b items).
  apply merge_node_mem. unfold merge_item. cbn [fst snd]. rewrite Hv.
  replace (String.eqb k "targets") with false by (symmetry; by apply String.eqb_neq).
  apply dict_mem_set_eq.
Qed.

Lemma chain_mem_inherited front base_config k :
  dict_mem base_config k = true -> chain_mem [front; base_config] k = true.
Proof.
  unfold chain_mem, dict_mem. simpl.
  destruct (dict_get front k); [done|]. by destruct (dict_get base_config k).
Qed.

(** Every field of the inherited configuration is a field of every
    target emitted beneath. *)
Lemma inherited_keys_kept node :
  forall enabled context name base_config t k,
    dict_mem base_config k = true ->
    t ∈ yielded (_targets_from node enabled context name base_config) ->
    chain_mem t k = true.
Proof.
  induction node as [| b | n | r | s | l IHl | d IHd] using pyval_nested_ind;
    intros enabled context name base_config t k Hk; cbn [_targets_from];
    try (destruct (negb _); by intros ?%elem_of_nil).
  - destruct (negb _); [by intros ?%elem_of_nil|].
    intros (g & Hg & Ht)%elem_of_gen_concat.
    apply list_elem_of_fmap in Hg as (child & -> & Hchild).
    rewrite Forall_forall in IHl. by eapply IHl.
  - destruct (negb (truthy _)); [by intros ?%elem_of_nil|].
    destruct (negb (guard_open _ _)); [by intros ?%elem_of_nil|].
    intros [H|H]%elem_of_gen_seq.
    + apply elem_of_gen_concat in H as (g & Hg & Ht).
      apply list_elem_of_fmap in Hg as (kv & -> & Hkv).
      rewrite Forall_forall in IHd. eapply IHd; [done| |done].
      by apply merge_node_mem.
    + apply own_targets_layers in H as [front ->].
      by apply chain_mem_inherited, dict_mem_set, merge_node_mem.
Qed.

Lemma forallb_elem_of {A} (f : A -> bool) l x :
  forallb f l = true -> x ∈ l -> f x = true.
Proof. rewrite forallb_forall. intros H Hx. apply H. by apply list_elem_of_In. Qed.

Section Kept.
Variable k : string.
Variable v : pyval.
Hypothesis Hstable : stable v = true.

(** A stable value is what expansion writes back for it. *)
Lemma expand_value_stable target target' :
  expand_value target k v = Ok target' -> target' = target \/ target' = chain_set target k v.
Proof.
  unfold expand_value. destruct v as [| bv | n | r | s | l | d]; cbn [is_list_of_strings];
    try (intros [= <-]; by left); try done.
  - unfold format. cbn in Hstable. rewrite format_from_brace_free by done. cbn.
    intros [= <-]. by right.
  - destruct (forallb is_str l) eqn:Hl; [|intros [= <-]; by left].
    cbn in Hstable. rewrite Hl in Hstable. cbn in Hstable.
    destruct (mapM_format_inert target l Hl Hstable) as [-> Hmap]. cbn. rewrite Hmap.
    intros [= <-]. by right.
Qed.

Lemma expand_value_keeps target key target' :
  chain_get target k = Some v ->
  (forall value, chain_get target key = Some value ->
                 expand_value target key value = Ok target') ->
  chain_get target key <> None ->
  chain_get target' k = Some v.
Proof.
  intros Hk Hval Hsome.
  destruct (chain_get target key) as [value|] eqn:Hget; [|done].
  specialize (Hval value eq_refl).
  destruct (decide (key = k)) as [->|Hne].
  - rewrite Hk in Hget. injection Hget as <-.
    destruct (expand_value_stable _ _ Hval) as [-> | ->]; [done|].
    apply chain_get_set_eq. by intros ->.
  - unfold expand_value in Hval.
    destruct (is_list_of_strings value).
    + destruct value; try (injection Hval as <-; done).
      destruct (mapM _ _); [|done]. injection Hval as <-.
      by rewrite chain_get_set_ne.
    + destruct value; try (injection Hval as <-; done).
      * injection Hval as <-. by rewrite chain_get_set_ne.
      * destruct (format _ _); [|done]. injection Hval as <-.
        by rewrite chain_get_set_ne.
Qed.

Lemma expand_pass_keeps context keys target target' :
  chain_get target k = Some v ->
  expand_pass context keys target = Ok target' ->
  chain_get target' k = Some v.
Proof.
  revert target. induction keys as [|key keys IH]; intros target Hk; simpl.
  - by intros [= <-].
  - destruct (chain_get target key) as [value|] eqn:Hget; [|done].
    destruct (except_KeyError context (expand_value target key value)) as [t1|e] eqn:H1;
      simpl; [|done].
    apply except_KeyError_Ok in H1. apply IH.
    apply (expand_value_keeps target key); [done| |by rewrite Hget].
    intros value' Hv. rewrite Hget in Hv. by injection Hv as <-.
Qed.

Lemma expand_while_keeps context remaining iterations target n target' :
  chain_get target k = Some v ->
  expand_while context remaining iterations target = (n, Ok target') ->
  chain_get target' k = Some v.
Proof.
  revert iterations target.
  induction remaining as [|r IH]; intros iterations target Hk; simpl.
  - destruct (needs_expansion target); [done|]. by intros [= _ <-].
  - destruct (needs_expansion target); [|by intros [= _ <-]].
    destruct (expand_pass _ _ _) as [t1|e] eqn:H1; [|done].
    apply IH. by eapply expand_pass_keeps.
Qed.

Hypothesis Hname : k <> "name".
Hypothesis Hcontext : k <> "context".

Lemma make_target_keeps spec base_config target :
  dict_get base_config k = Some v ->
  no_key k spec = true ->
  make_target spec base_config = Ok target ->
  chain_get target k = Some v.
Proof.
  intros Hk Hno. destruct spec; cbn [make_target]; try done.
  - intros [= <-]. cbn [chain_get dict_get].
    replace (String.eqb "name" k) with false
      by (symmetry; apply String.eqb_neq; congruence).
    by rewrite Hk.
  - intros [= <-]. cbn [chain_get]. simpl in Hno.
    apply andb_true_iff in Hno as [Hno _]. apply negb_true_iff in Hno.
    unfold dict_mem in Hno. destruct (dict_get items k); [done|]. by rewrite Hk.
Qed.

Lemma leaf_targets_keep context base_config specs t :
  dict_get base_config k = Some v ->
  forallb (no_key k) specs = true ->
  t ∈ yielded (leaf_targets context base_config specs) ->
  chain_get t k = Some v.
Proof.
  intros Hk. induction specs as [|spec specs IH]; simpl.
  - by intros _ ?%elem_of_nil.
  - intros [Hspec Hspecs]%andb_true_iff.
    destruct (let! target := make_target spec base_config in snd (expand context target))
      as [t1|e] eqn:H; simpl; [|by intros ?%elem_of_nil].
    pose proof (leaf_outcome _ _ _ _ H) as [front ->]. simpl.
    intros [->|Hin]%elem_of_cons; [|by apply IH].
    destruct (make_target spec base_config) as [t0|] eqn:H0; simpl in H; [|done].
    destruct (expand context t0) as [n r] eqn:He. simpl in H. subst r.
    eapply expand_while_keeps; [|exact He].
    by eapply make_target_keeps.
Qed.

Lemma chars_no_key s : forallb (no_key k) (chars s) = true.
Proof. induction s as [|c s IH]; [done|by simpl]. Qed.

Lemma iterate_no_key value specs :
  no_key k value = true -> iterate value = Ok specs -> forallb (no_key k) specs = true.
Proof.
  destruct value; simpl; try done.
  - intros _ [= <-]. apply chars_no_key.
  - by intros H [= <-].
  - intros _ [= <-]. by induction items as [|kv items IH].
Qed.

Lemma own_targets_keep context base_config items t :
  dict_get base_config k = Some v ->
  forallb (fun kv => no_key k (snd kv)) items = true ->
  t ∈ yielded (own_targets context base_config items) ->
  chain_get t k = Some v.
Proof.
  intros Hk Hno. unfold own_targets.
  destruct (dict_get items "targets") as [targets|] eqn:Ht; [|by intros ?%elem_of_nil].
  destruct (iterate targets) as [specs|e] eqn:Hi; [|by intros ?%elem_of_nil].
  apply leaf_targets_keep.
  - by rewrite dict_get_set_ne.
  - apply (iterate_no_key targets); [|done].
    apply dict_get_elem_of in Ht.
    apply (forallb_elem_of _ _ _ Hno Ht).
Qed.

(** Beneath a point where the inherited value of [k] is [v], a node
    in which no mapping has the key [k] only emits targets whose [k]
    is [v]. *)
Lemma inherited_value_kept node :
  forall enabled context name base_config t,
    dict_get base_config k = Some v ->
    no_key k node = true ->
    t ∈ yielded (_targets_from node enabled context name base_config) ->
    chain_get t k = Some v.
Proof.
  induction node as [| b | n | r | s | l IHl | d IHd] using pyval_nested_ind;
    intros enabled context name base_config t Hk Hno; cbn [_targets_from];
    try (destruct (negb _); by intros ?%elem_of_nil).
  - destruct (negb _); [by intros ?%elem_of_nil|].
    intros (g & Hg & Ht)%elem_of_gen_concat.
    apply list_elem_of_fmap in Hg as (child & -> & Hchild).
    rewrite Forall_forall in IHl. eapply IHl; [done|done| |done].
    simpl in Hno. by eapply forallb_elem_of.
  - destruct (negb (truthy _)); [by intros ?%elem_of_nil|].
    destruct (negb (guard_open _ _)); [by intros ?%elem_of_nil|].
    simpl in Hno. apply andb_true_iff in Hno as [Hnokey Hno].
    assert (dict_get (merge_node base_config d) k = Some v) as Hk'.
    { rewrite merge_node_get_notin; [done|].
      apply dict_get_None_keys. apply negb_true_iff in Hnokey.
      unfold dict_mem in Hnokey. by destruct (dict_get d k). }
    intros [H|H]%elem_of_gen_seq.
    + apply elem_of_gen_concat in H as (g & Hg & Ht).
      apply list_elem_of_fmap in Hg as (kv & -> & Hkv).
      rewrite Forall_forall in IHd. eapply IHd; [done|exact Hk'| |done].
      apply (forallb_elem_of _ _ _ Hno Hkv).
    + by eapply own_targets_keep.
Qed.

(** The same for the node that defines the field: the value it
    gives to [k] is the value of [k] in every target it emits, its own
    leaf targets and those of its descendants, provided no mapping
    beneath it has the key [k]. *)
Lemma own_value_kept items enabled context name base_config t :
  NoDup (dict_keys items) ->
  dict_get items k = Some v ->
  is_value_type v = true ->
  k <> "targets" ->
  forallb (fun kv => no_key k (snd kv)) items = true ->
  t ∈ yielded (_targets_from (PDict items) enabled context name base_config) ->
  chain_get t k = Some v.
Proof.
  intros Hnd Hget Hv Htargets Hno. cbn [_targets_from].
  destruct (negb (truthy _)); [by intros ?%elem_of_nil|].
  destruct (negb (guard_open _ _)); [by intros ?%elem_of_nil|].
  assert (dict_get (merge_node base_config items) k = Some v) as Hk'
    by (by apply merge_node_get_own).
  intros [H|H]%elem_of_gen_seq.
  - apply elem_of_gen_concat in H as (g & Hg & Ht).
    apply list_elem_of_fmap in Hg as (kv & -> & Hkv).
    eapply inherited_value_kept; [exact Hk'| |done].
    apply (forallb_elem_of _ _ _ Hno Hkv).
  - by eapply own_targets_keep.
Qed.

End Kept.

End TraversalFacts.

(** ** Claim C6 *)

Section ClaimC6.
Import Py Expander Notions.

(** C6: a list-of-strings field that a node defines is, in the
    configuration that the node passes on to its children and leaf
    specs, exactly the node's own list; the targets of the node and
    of everything beneath it are the same whatever value the node
    inherited for that field, so nothing of an ancestor's list
    survives; every target emitted for the leaf specs of the node
    has, as its inherited layer, a configuration holding exactly the
    node's own list; and when no mapping beneath the node defines the
    field again and the strings of the list hold no brace for
    template expansion to act on, every target emitted from the
    node's subtree carries exactly the node's list. *)
Theorem list_field_replaces_inherited :
  (forall base_config items k l,
      NoDup (dict_keys items) ->
      dict_get items k = Some (PList l) ->
      is_list_of_strings (PList l) = true ->
      k <> "targets" ->
      dict_get (merge_node base_config items) k = Some (PList l))
  /\ (forall items enabled context name base_config k l inherited1 inherited2,
         (k, PList l) ∈ items ->
         is_list_of_strings (PList l) = true ->
         k <> "targets" ->
         _targets_from (PDict items) enabled context name (dict_set base_config k inherited1)
         = _targets_from (PDict items) enabled context name (dict_set base_config k inherited2))
  /\ (forall base_config items context k l target,
         NoDup (dict_keys items) ->
         dict_get items k = Some (PList l) ->
         is_list_of_strings (PList l) = true ->
         k <> "targets" -> k <> "context" ->
         target ∈ yielded (own_targets context (merge_node base_config items) items) ->
         exists front inherited,
           target = [front; inherited] /\ dict_get inherited k = Some (PList l))
  /\ (forall items enabled context name base_config k l target,
         NoDup (dict_keys items) ->
         dict_get items k = Some (PList l) ->
         is_list_of_strings (PList l) = true ->
         stable (PList l) = true ->
         k <> "targets" -> k <> "context" -> k <> "name" ->
         forallb (fun kv => no_key k (snd kv)) items = true ->
         target ∈ yielded (_targets_from (PDict items) enabled context name base_config) ->
         chain_get target k = Some (PList l)).
Proof.
  split; [|split; [|split]].
  - intros base_config items k l Hnd Hget Hl Hk.
    apply merge_node_get_own; auto using is_list_of_strings_value_type.
  - intros items enabled context name base_config k l p1 p2 Hin Hl Hk.
    cbn [_targets_from].
    by rewrite (agree_but_merge_node k (PList l) items _ _
                  (agree_but_set base_config k p1 p2) Hin
                  (is_list_of_strings_value_type _ Hl) Hk).
  - intros base_config items context k l target Hnd Hget Hl Hk Hc Hin.
    apply own_targets_layers in Hin as [front ->].
    eexists _, _. split; [done|].
    rewrite dict_get_set_ne by done.
    apply merge_node_get_own; auto using is_list_of_strings_value_type.
  - intros items enabled context name base_config k l target
      Hnd Hget Hl Hst Hk Hc Hn Hno Hin.
    eapply (own_value_kept k (PList l)); eauto using is_list_of_strings_value_type.
Qed.

Lemma list_field_replaces_inherited_witness :
  dict_get
    (merge_node [("options", PList [PStr "-O2"; PStr "-g"])]
       [("options", PList [PStr "-O3"]); ("targets", PList [PStr "1.0"])])
    "options"
  = Some (PList [PStr "-O3"])
  /\ _targets_from
       (PDict [("options", PList [PStr "-O3"]); ("targets", PList [PStr "1.0"])])
       [] ["libs"] "fmt" (dict_set [] "options" (PList [PStr "-O2"; PStr "-g"]))
     = _targets_from
         (PDict [("options", PList [PStr "-O3"]); ("targets", PList [PStr "1.0"])])
         [] ["libs"] "fmt" (dict_set [] "options" (PList []))
  /\ (exists front inherited,
       [[("name", PStr "1.0")];
        [("options", PList [PStr "-O3"]); ("context", PList [PStr "libs"; PStr "fmt"])]]
       = [front; inherited]
       /\ dict_get inherited "options" = Some (PList [PStr "-O3"]))
  /\ chain_get
       [[("name", PStr "1.0")];
        [("options", PList [PStr "-O3"]); ("context", PList [PStr "libs"; PStr "fmt"])]]
       "options"
     = Some (PList [PStr "-O3"]).
Proof.
  destruct list_field_replaces_inherited as (H1 & H2 & H3 & H4).
  split; [|split; [|split]].
  - apply H1; [|reflexivity|reflexivity|discriminate].
    by apply (bool_decide_unpack _); vm_compute.
  - apply (H2 _ _ _ _ _ "options" [PStr "-O3"]); [|reflexivity|discriminate].
    apply elem_of_cons. by left.
  - apply (H3 [("options", PList [PStr "-O2"; PStr "-g"])]
              [("options", PList [PStr "-O3"]); ("targets", PList [PStr "1.0"])]
              ["libs"; "fmt"] "options" [PStr "-O3"]);
      [|reflexivity|reflexivity|discriminate|discriminate|].
    + by apply (bool_decide_unpack _); vm_compute.
    + apply elem_of_cons. by left.
  - apply (H4 [("options", PList [PStr "-O3"]); ("targets", PList [PStr "1.0"])]
              [] ["libs"] "fmt" [("options", PList [PStr "-O2"; PStr "-g"])]
              "options" [PStr "-O3"]);
      [|reflexivity|reflexivity|reflexivity|discriminate|discriminate|discriminate
       |reflexivity|].
    + by apply (bool_decide_unpack _); vm_compute.
    + vm_compute. apply elem_of_cons. by left.
Defined.

End ClaimC6.

(** ** Claim C9 *)

Section ClaimC9.
Import Py Expander Notions.

(** C9, as the code has it: under a node whose ['if'] names an
    enabled flag, every target emitted from the node's subtree has an
    ['if'] field; the field holds the flag name when no mapping
    beneath the node (child node or leaf spec) has an ['if'] of its
    own and the flag name has no brace for template expansion to
    act on. *)
Theorem guard_key_is_inherited :
  (forall items enabled context name base_config flag t,
      dict_get items "if" = Some (PStr flag) ->
      t ∈ yielded (_targets_from (PDict items) enabled context name base_config) ->
      chain_mem t "if" = true)
  /\ (forall items enabled context name base_config flag t,
         NoDup (dict_keys items) ->
         dict_get items "if" = Some (PStr flag) ->
         brace_free flag = true ->
         forallb (fun kv => no_key "if" (snd kv)) items = true ->
         t ∈ yielded (_targets_from (PDict items) enabled context name base_config) ->
         chain_get t "if" = Some (PStr flag)).
Proof.
  split.
  - intros items enabled context name base_config flag t Hif. cbn [_targets_from].
    destruct (negb (truthy _)); [by intros ?%elem_of_nil|].
    destruct (negb (guard_open _ _)); [by intros ?%elem_of_nil|].
    assert (dict_mem (merge_node base_config items) "if" = true) as Hmem.
    { apply (merge_node_mem_own _ _ _ (PStr flag)); [|done|done].
      by apply dict_get_elem_of. }
    intros [H|H]%elem_of_gen_seq.
    + apply elem_of_gen_concat in H as (g & Hg & Ht).
      apply list_elem_of_fmap in Hg as (kv & -> & Hkv).
      by eapply inherited_keys_kept.
    + apply own_targets_layers in H as [front ->].
      by apply chain_mem_inherited, dict_mem_set.
  - intros items enabled context name base_config flag t Hnd Hif Hflag Hno Hin.
    by eapply (own_value_kept "if" (PStr flag)).
Qed.

Lemma guard_key_is_inherited_witness :
  chain_get
    [[("name", PStr "trunk")];
     [("if", PStr "nightly"); ("type", PStr "nightly");
      ("context", PList [PStr "clang"])]]
    "if"
  = Some (PStr "nightly").
Proof.
  destruct guard_key_is_inherited as [_ H].
  apply (H single_guard ["nightly"] [] "" [] "nightly").
  - by apply (bool_decide_unpack _); vm_compute.
  - reflexivity.
  - reflexivity.
  - reflexivity.
  - vm_compute. apply elem_of_cons. by left.
Defined.

(** The claim C9 as worded fails: a guarded child under a guarded
    node emits a target whose ['if'] is the child's flag, not the
    node's. *)
Lemma nested_guard_replaces_flag :
  ~ (forall t,
        t ∈ yielded (_targets_from nested_guards ["nightly"; "non-free"] [] "" []) ->
        chain_get t "if" = Some (PStr "nightly")).
Proof.
  intros H.
  specialize (H [[("name", PStr "trunk")];
                 [("if", PStr "non-free"); ("type", PStr "nightly");
                  ("context", PList [PStr "clang"])]]).
  assert (chain_get
            [[("name", PStr "trunk")];
             [("if", PStr "non-free"); ("type", PStr "nightly");
              ("context", PList [PStr "clang"])]] "if"
          = Some (PStr "nightly")) as Habs.
  { apply H. vm_compute. apply elem_of_cons. by left. }
  discriminate Habs.
Qed.

End ClaimC9.

(** ** The installation context *)

Section IOFacts.
Import Ctx Inst IONotions.

(** Running [is_installed] adds lines to the log, changes nothing
    else, and answers as [resolution] says. *)
Lemma is_installed_run E ctx self w :
  exists lines,
    is_installed E ctx self w
    = (World (fs w) (log w ++ lines) (replace_faults w), resolution E ctx (fs w) self).
Proof.
  destruct w as [f l faults]. destruct self as [nm deps always lnk cfile ccall cenv knd].
  unfold is_installed, resolution, link_verdict, probe_verdict, check_link, read_link,
    check_output, self_debug, debug, emit, iobind, get_fs, ret, raise.
  cbn [_check_link check_file check_call check_env Inst.name fs log replace_faults].
  destruct lnk as [[source link]|]; cbn.
  - destruct (f !! (Destination, link)) as [[c|d|target]|] eqn:Hl; cbn.
    + by exists []; rewrite app_nil_r.
    + by exists []; rewrite app_nil_r.
    + destruct (String.eqb target source); cbn.
      * destruct (nonempty cfile); cbn.
        -- eexists. rewrite <- !app_assoc. reflexivity.
        -- destruct ccall as [|exe rest]; cbn.
           ++ eexists. reflexivity.
           ++ destruct (probe E _ cenv) as [out|[]]; cbn;
                eexists; rewrite <- ?app_assoc; reflexivity.
      * eexists. rewrite <- !app_assoc. reflexivity.
    + eexists. rewrite <- !app_assoc. reflexivity.
  - destruct (nonempty cfile); cbn.
    + eexists. reflexivity.
    + destruct ccall as [|exe rest]; cbn.
      * by exists []; rewrite app_nil_r.
      * destruct (probe E _ cenv) as [out|[]]; cbn;
          first [by exists []; rewrite app_nil_r | eexists; rewrite <- ?app_assoc; reflexivity].
Qed.

Lemma is_installed_answer E ctx self w :
  snd (is_installed E ctx self w) = resolution E ctx (fs w) self.
Proof. by destruct (is_installed_run E ctx self w) as [lines ->]. Qed.

End IOFacts.

(** ** Claim C7 *)

Section ClaimC7.
Import Ctx Inst IONotions.



End ClaimC7.

(** ** Claim C8 *)

Section ClaimC8.
Import Ctx Inst IONotions.





End ClaimC8.

(** ** Claim C1 *)

Section ClaimC1.
Import Ctx Inst IONotions.

Lemma isdir_Dir (f : gmap path entry) p c : f !! p = Some (Dir c) -> isdir f p = true.
Proof. intros H. unfold isdir, stat. destruct (is_root p); [done|]. by rewrite H. Qed.

Lemma os_replace_faulted src dst f l rest :
  os_replace src dst (World f l (true :: rest))
  = (World f l rest, Raise (OSError "os.replace")).
Proof. done. Qed.

Lemma next_fault_none f l faults :
  head faults <> Some true ->
  next_fault (World f l faults) = (World f l (tail faults), Ok false).
Proof. destruct faults as [|[] faults]; [done| |done]. by intros []. Qed.

(** A rename that is not faulted, onto a free name or, for a
    directory, onto an empty directory. *)
Lemma os_replace_moves src dst f l faults e :
  head faults <> Some true ->
  f !! src = Some e -> src <> dst ->
  (f !! dst = None \/ (exists c, e = Dir c) /\ f !! dst = Some (Dir [])) ->
  os_replace src dst (World f l faults)
  = (World (<[dst := e]> (delete src f)) l (tail faults), Ok tt).
Proof.
  intros Hfault Hsrc Hne Hdst. unfold os_replace, iobind.
  rewrite next_fault_none by done. cbn. rewrite Hsrc.
  destruct (decide (src = dst)); [done|].
  destruct Hdst as [->|[[c ->] ->]]; [by destruct e|done].
Qed.


(** When the rename back is itself made to fail, its failure is what
    [move_from_staging] raises, and the old destination stays under
    the temporary name. *)
Remark move_double_fault E ctx source dest w new old rest :
  dry_run ctx = false ->
  fs w !! (Staging, source) = Some (Dir new) ->
  fs w !! (Destination, move_target source dest) = Some (Dir old) ->
  fs w !! (Staging, "temp_orig") = None ->
  call E ["chmod"; "u+w"; real_path ctx (Staging, source)] = 0%Z ->
  replace_faults w = false :: true :: true :: rest ->
  exists w',
    move_from_staging E ctx source dest w = (w', Raise (OSError "os.replace"))
    /\ fs w' !! (Destination, move_target source dest) = None
    /\ fs w' !! (Staging, "temp_orig") = Some (Dir old).
Proof.
  intros Hdry Hsrc Hdest Htmp Hchmod Hfaults.
  destruct w as [f l faults]. cbn [fs replace_faults] in *. subst faults.
  set (d := (Destination, move_target source dest)) in *.
  set (tmp := (Staging, "temp_orig")) in *.
  set (src := (Staging, source)) in *.
  assert (d <> tmp) as Hne by done.
  unfold move_from_staging. rewrite Hdry.
  unfold info, warn, emit, iobind, get_fs, Ctx.check_call, ret.
  cbn [fst snd fs log replace_faults].
  fold d tmp src. rewrite (isdir_Dir f src new Hsrc). cbn [negb].
  subst src. rewrite Hchmod. set (src := (Staging, source)) in *.
  cbn [Z.eqb fs log replace_faults].
  rewrite (isdir_Dir f d old Hdest). cbn [fs log replace_faults].
  rewrite (os_replace_moves d tmp f _ _ (Dir old)); [|done|done|done|by left].
  cbn [tail]. rewrite os_replace_faulted.
  unfold move_finally, warn, emit, iobind. cbn [fst snd fs log replace_faults].
  rewrite os_replace_faulted.
  eexists. split; [reflexivity|]. cbn [fs]. split.
  - rewrite lookup_insert_ne by done. apply lookup_delete_eq.
  - apply lookup_insert_eq.
Qed.


End ClaimC1.

(** ** Claim C2 *)

Section ClaimC2.
Import Ctx Inst IONotions.

Lemma slice_to_neg_length {A} (l : list A) (n : Z) :
  (0 < n)%Z -> length (slice_to_neg l n) = (length l - Z.to_nat n)%nat.
Proof.
  intros Hn. unfold slice_to_neg.
  replace (- n <? 0)%Z with true by (symmetry; apply Z.ltb_lt; lia).
  rewrite length_take. lia.
Qed.

(** The number of versions that the retention step removes: all but
    [num_to_keep + 1] of those installed before the new one is moved
    in. *)
Lemma versions_to_remove_length f n :
  (0 <= ni_num_to_keep n)%Z ->
  length (versions_to_remove f n)
  = (length (glob f (ni_compiler_pattern n)) - (Z.to_nat (ni_num_to_keep n) + 1))%nat.
Proof.
  intros Hk. unfold versions_to_remove, sorted.
  rewrite slice_to_neg_length by lia.
  rewrite (Permutation_length (merge_sort_Permutation _ _)). lia.
Qed.

(** What is kept is the tail of the sorted listing, [num_to_keep + 1]
    entries long when that many are installed. *)
Lemma versions_kept f n :
  (0 <= ni_num_to_keep n)%Z ->
  exists kept,
    sorted (glob f (ni_compiler_pattern n)) = versions_to_remove f n ++ kept
    /\ length kept
       = Nat.min (length (glob f (ni_compiler_pattern n)))
           (Z.to_nat (ni_num_to_keep n) + 1).
Proof.
  intros Hk. unfold versions_to_remove, slice_to_neg.
  replace (- (ni_num_to_keep n + 1) <? 0)%Z with true by (symmetry; apply Z.ltb_lt; lia).
  set (all := sorted (glob f (ni_compiler_pattern n))).
  set (m := Z.to_nat (Z.of_nat (length all) + - (ni_num_to_keep n + 1))).
  exists (drop m all). split; [by rewrite take_drop|].
  rewrite length_drop.
  assert (length all = length (glob f (ni_compiler_pattern n))) as <-
    by apply Permutation_length, merge_sort_Permutation.
  lia.
Qed.

(** C2, at the scenario of the claim: with [num_to_keep = 2],
    installed versions [v1], [v2], [v3] and [v4] the greatest version
    listed, [NightlyInstallable.install] succeeds, removes no version
    -- all of [v1], [v2], [v3] remain next to [v4] -- and points the
    link at [v4]. *)
Theorem nightly_install_keeps_one_more :
  nightly_fields "" "gcc-trunk" ["v1"; "v2"; "v3"; "v4"] None (Some 2%Z) (StripBool false)
  = Ok nightly_gcc_fields
  /\ versions_to_remove (fs world_three_versions) nightly_gcc_fields = []
  /\ snd (install env_nightly ctx_live nightly_gcc world_three_versions) = Ok true
  /\ sorted (glob (fs (fst (install env_nightly ctx_live nightly_gcc world_three_versions)))
               "gcc-trunk-*")
     = ["gcc-trunk-v1"; "gcc-trunk-v2"; "gcc-trunk-v3"; "gcc-trunk-v4"]
  /\ fs (fst (install env_nightly ctx_live nightly_gcc world_three_versions))
     !! (Destination, "gcc-trunk") = Some (Symlink "gcc-trunk-v4").
Proof. repeat split; vm_compute; reflexivity. Qed.

End ClaimC2.

(** ** Claim C3 *)

Section ClaimC3.
Import Ctx Build BuildNotions.

Lemma makebuildfor_run B ctx self c w :
  exists w', makebuildfor B ctx self c w = (w', Ok (counts_as_success B ctx c)).
Proof.
  unfold makebuildfor, makebuildhash, executebuildscript, executeconanscript,
    build_cleanup, counts_as_success, b_info, b_debug, info, debug, emit, rmtree,
    iobind, get_fs, set_fs, ret.
  destruct w as [f l faults].
  destruct (build_exit B c =? 0)%Z, (dry_run ctx), (Nat.eqb (filesfound B c) 0),
    (conan_exit B c =? 0)%Z, (String.eqb (build_type self) "cmake");
    cbn;
    repeat match goal with
           | |- context [isdir ?g ?p] => destruct (isdir g p); cbn
           end;
    eexists; reflexivity.
Qed.

Lemma attempt_all_run B ctx self cs :
  forall t w, exists w',
    attempt_all B ctx self cs t w = (w', Ok (count_tally B ctx cs t)).
Proof.
  induction cs as [|c cs IH]; intros t w.
  - exists w. cbn. unfold count_tally. cbn. destruct t. cbn. by rewrite !Nat.add_0_r.
  - cbn [attempt_all]. unfold iobind at 1.
    destruct (makebuildfor_run B ctx self c w) as [w1 ->].
    destruct (IH (if counts_as_success B ctx c
                  then {| builds_succeeded := S (builds_succeeded t);
                          builds_failed := builds_failed t |}
                  else {| builds_succeeded := builds_succeeded t;
                          builds_failed := S (builds_failed t) |}) w1) as [w2 ->].
    exists w2. f_equal. f_equal. unfold count_tally.
    rewrite !filter_cons. destruct (counts_as_success B ctx c) eqn:Hc; cbn.
    + rewrite decide_True, decide_False by done. cbn. f_equal; lia.
    + rewrite decide_False, decide_True by done. cbn. f_equal; lia.
Qed.

Lemma count_tally_app B ctx cs1 cs2 t :
  count_tally B ctx (cs1 ++ cs2) t = count_tally B ctx cs2 (count_tally B ctx cs1 t).
Proof.
  unfold count_tally. cbn. rewrite !filter_app, !length_app. f_equal; lia.
Qed.

Lemma count_tally_nil B ctx t : count_tally B ctx [] t = t.
Proof. destruct t. unfold count_tally. cbn. by rewrite !Nat.add_0_r. Qed.

Lemma no_failure_forallb B ctx cs :
  Nat.eqb (length (filter (fun c => counts_as_success B ctx c = false) cs)) 0
  = forallb (counts_as_success B ctx) cs.
Proof.
  induction cs as [|c cs IH]; [done|]. rewrite filter_cons. cbn.
  destruct (counts_as_success B ctx c) eqn:Hc.
  - by rewrite decide_False.
  - by rewrite decide_True.
Qed.

Lemma compilers_loop_run B ctx self buildfor compilerprops :
  loop_completes B self buildfor compilerprops ->
  forall t w, exists w',
    compilers_loop B ctx self buildfor compilerprops t w
    = (w', Ok (Finished (count_tally B ctx (matrix B self buildfor compilerprops) t))).
Proof.
  induction compilerprops as [|comp rest IH]; intros Hok t w.
  - exists w. cbn. by rewrite count_tally_nil.
  - assert (loop_completes B self buildfor rest) as Hrest.
    { intros c Hc. apply Hok, elem_of_cons. by right. }
    cbn [compilers_loop matrix flat_map]. fold (skipped buildfor comp).
    destruct (skipped buildfor comp) eqn:Hskip.
    + apply (IH Hrest).
    + destruct (Hok comp) as [Htype Harch]; [apply elem_of_cons; by left|done|].
      rewrite count_tally_app. unfold attempts_for.
      destruct (compilerType comp) as [comp_type|]; [|done].
      assert (negb (String.eqb (build_fixed_arch self) "")
              && negb (does_compiler_support B comp (build_fixed_arch self)) = false) as ->.
      { destruct Harch as [-> | ->]; [done|by rewrite andb_false_r]. }
      unfold iobind.
      match goal with
      | |- context [attempt_all B ctx self ?cs t w] =>
          destruct (attempt_all_run B ctx self cs t w) as [w1 ->]
      end.
      apply (IH Hrest).
Qed.

(** C3, as the code has it: an attempt counts as a success when the
    build script exits with status zero and, dry-run being off,
    binaries are found and the export script exits with status zero
    as well; in dry-run mode the export is not run and the build
    status alone decides.  The two counters of [makebuild] count the
    attempts by that verdict, and [makebuild], when its loop over the
    compilers completes, returns whether no attempt failed; it
    returns [False] at once when it meets a compiler that does not
    support a fixed architecture. *)
Theorem export_status_decides_the_count :
  (forall B ctx self c w,
      snd (makebuildfor B ctx self c w) = Ok (counts_as_success B ctx c))
  /\ (forall B ctx c,
         dry_run ctx = true ->
         counts_as_success B ctx c = (build_exit B c =? 0)%Z)
  /\ (forall B ctx c,
         dry_run ctx = false -> build_exit B c = 0%Z ->
         counts_as_success B ctx c
         = negb (Nat.eqb (filesfound B c) 0) && (conan_exit B c =? 0)%Z)
  /\ (forall B ctx self cs t w,
         snd (attempt_all B ctx self cs t w) = Ok (count_tally B ctx cs t))
  /\ (forall B ctx self buildfor compilerprops w,
         loop_completes B self buildfor compilerprops ->
         snd (makebuild B ctx self buildfor compilerprops w)
         = Ok (forallb (counts_as_success B ctx) (matrix B self buildfor compilerprops)))
  /\ (forall B ctx self buildfor comp comp_type rest w,
         skipped buildfor comp = false ->
         compilerType comp = Some comp_type ->
         build_fixed_arch self <> "" ->
         does_compiler_support B comp (build_fixed_arch self) = false ->
         snd (makebuild B ctx self buildfor (comp :: rest) w) = Ok false).
Proof.
  split; [|split; [|split; [|split; [|split]]]].
  - intros B ctx self c w. by destruct (makebuildfor_run B ctx self c w) as [w' ->].
  - intros B ctx c Hdry. unfold counts_as_success. rewrite Hdry. cbn.
    by rewrite andb_true_r.
  - intros B ctx c Hdry Hb. unfold counts_as_success. by rewrite Hdry, Hb.
  - intros B ctx self cs t w. by destruct (attempt_all_run B ctx self cs t w) as [w' ->].
  - intros B ctx self buildfor compilerprops w Hok. unfold makebuild, iobind.
    destruct (compilers_loop_run B ctx self buildfor compilerprops Hok
                {| builds_succeeded := 0; builds_failed := 0 |} w) as [w' ->].
    cbn. by rewrite no_failure_forallb.
  - intros B ctx self buildfor comp comp_type rest w Hskip Htype Hfixed Hno.
    unfold makebuild, iobind. cbn [compilers_loop]. fold (skipped buildfor comp).
    rewrite Hskip, Htype, Hno.
    replace (String.eqb (build_fixed_arch self) "") with false
      by (symmetry; by apply String.eqb_neq).
    done.
Qed.

Lemma export_status_decides_the_count_witness :
  counts_as_success (build_env_with 1) ctx_build g91_x86_64 = false
  /\ snd (makebuild (build_env_with 1) ctx_build fmt_buildable "" [g91]
            IONotions.world_empty)
     = Ok false.
Proof.
  destruct export_status_decides_the_count as (_ & _ & H3 & _ & H5 & _).
  split.
  - rewrite H3; reflexivity.
  - rewrite H5; [reflexivity|].
    intros comp Hcomp _. apply elem_of_cons in Hcomp as [->|Hcomp].
    + split; [discriminate|by left].
    + by apply elem_of_nil in Hcomp.
Defined.

(** The claim C3 as worded fails: with the same successful build, a
    failing export turns the attempt, and with it the whole build,
    into a failure. *)
Lemma export_failure_fails_the_build :
  build_exit (build_env_with 0) g91_x86_64 = build_exit (build_env_with 1) g91_x86_64
  /\ build_exit (build_env_with 1) g91_x86_64 = 0%Z
  /\ snd (makebuildfor (build_env_with 0) ctx_build fmt_buildable g91_x86_64
            IONotions.world_empty) = Ok true
  /\ snd (makebuildfor (build_env_with 1) ctx_build fmt_buildable g91_x86_64
            IONotions.world_empty) = Ok false
  /\ snd (makebuild (build_env_with 0) ctx_build fmt_buildable "" [g91]
            IONotions.world_empty) = Ok true
  /\ snd (makebuild (build_env_with 1) ctx_build fmt_buildable "" [g91]
            IONotions.world_empty) = Ok false.
Proof. repeat split; vm_compute; reflexivity. Qed.

End ClaimC3.

(** ** Template expansion, field by field *)

Section ExpansionSteps.
Import Py Expander Notions TreeNotions.

Lemma expand_value_other target key value target' k :
  expand_value target key value = Ok target' -> k <> key ->
  chain_get target' k = chain_get target k.
Proof.
  intros H Hk. unfold expand_value in H.
  destruct (is_list_of_strings value).
  - destruct value; try (by injection H as <-).
    destruct (mapM _ _); [|done]. injection H as <-. by rewrite chain_get_set_ne.
  - destruct value; try (by injection H as <-).
    + injection H as <-. by rewrite chain_get_set_ne.
    + destruct (format _ _); [|done]. injection H as <-. by rewrite chain_get_set_ne.
Qed.

(** What a step does with an inert value: the field keeps an inert
    value that prints the same, and a value that is not a float
    stays as it is. *)
Lemma expand_value_inert target key value :
  chain_get target key = Some value -> inert value = true ->
  exists target' value',
    expand_value target key value = Ok target'
    /\ chain_get target' key = Some value'
    /\ inert value' = true
    /\ render value' = render value
    /\ (stable value = true -> value' = value).
Proof.
  intros Hget Hin.
  assert (target <> []) as Hne by (by intros ->).
  unfold expand_value.
  destruct value as [| bv | n | r | s | l | d]; cbn [is_list_of_strings].
  - by exists target, PNone.
  - by exists target, (PBool bv).
  - by exists target, (PInt n).
  - exists (chain_set target key (PStr r)), (PStr r).
    split; [done|]. split; [by apply chain_get_set_eq|]. done.
  - unfold format. rewrite format_from_brace_free by done. cbn.
    exists (chain_set target key (PStr s)), (PStr s).
    split; [done|]. split; [by apply chain_get_set_eq|]. done.
  - destruct (forallb is_str l) eqn:Hl.
    + cbn in Hin. rewrite Hl in Hin. cbn in Hin.
      destruct (mapM_format_inert target l Hl Hin) as [-> Hmap]. cbn. rewrite Hmap.
      exists (chain_set target key (PList l)), (PList l).
      split; [done|]. split; [by apply chain_get_set_eq|].
      split; [|done]. cbn. by rewrite Hl.
    + by exists target, (PList l).
  - by exists target, (PDict d).
Qed.

Lemma expand_pass_app context keys1 keys2 target :
  expand_pass context (keys1 ++ keys2) target
  = (let! target1 := expand_pass context keys1 target in
     expand_pass context keys2 target1).
Proof.
  revert target. induction keys1 as [|key keys1 IH]; intros target; [done|].
  cbn [app expand_pass]. destruct (chain_get target key) as [value|]; [|done].
  destruct (except_KeyError context (expand_value target key value)); [|done].
  cbn. apply IH.
Qed.

(** A pass over keys whose values are inert goes through and changes
    nothing but floats, which become their text. *)
Lemma expand_pass_inert context keys :
  forall target,
    (forall k, k ∈ keys -> exists v, chain_get target k = Some v /\ inert v = true) ->
    exists target',
      expand_pass context keys target = Ok target'
      /\ (forall k, k ∉ keys -> chain_get target' k = chain_get target k)
      /\ (forall k, chain_get target k = None -> chain_get target' k = None)
      /\ (forall k v, chain_get target k = Some v ->
            exists v', chain_get target' k = Some v'
                       /\ (inert v = true -> inert v' = true)
                       /\ render v' = render v
                       /\ (stable v = true -> v' = v)).
Proof.
  induction keys as [|key keys IH]; intros target Hkeys.
  - exists target. split; [done|]. split; [done|]. split; [done|].
    intros k v Hk. by exists v.
  - destruct (Hkeys key) as (value & Hget & Hin); [apply elem_of_cons; by left|].
    destruct (expand_value_inert target key value Hget Hin)
      as (t1 & v1 & Hstep & Hget1 & Hin1 & Hr1 & Hst1).
    assert (forall k v, chain_get target k = Some v ->
              exists v', chain_get t1 k = Some v'
                         /\ (inert v = true -> inert v' = true)
                         /\ render v' = render v
                         /\ (stable v = true -> v' = v)) as Hall1.
    { intros k v Hk. destruct (decide (k = key)) as [->|Hne].
      - rewrite Hget in Hk. injection Hk as <-. exists v1. by repeat split.
      - exists v. rewrite (expand_value_other _ _ _ _ _ Hstep Hne). by repeat split. }
    destruct (IH t1) as (t2 & Hpass & Hout & Hnone & Hall).
    { intros k Hk. destruct (Hkeys k) as (v & Hv & Hvin); [apply elem_of_cons; by right|].
      destruct (Hall1 k v Hv) as (v' & Hv' & Hin' & _). exists v'. split; [done|]. by apply Hin'. }
    exists t2. cbn [expand_pass]. rewrite Hget, Hstep. cbn. split; [done|].
    split; [|split].
    + intros k Hk. apply not_elem_of_cons in Hk as [Hne Hk].
      rewrite (Hout k Hk). by apply (expand_value_other _ _ _ _ _ Hstep).
    + intros k Hk. apply Hnone.
      assert (k <> key) as Hne by (intros ->; by rewrite Hget in Hk).
      rewrite (expand_value_other _ _ _ _ _ Hstep Hne). done.
    + intros k v Hk. destruct (Hall1 k v Hk) as (v' & Hv' & Hin' & Hr' & Hst').
      destruct (Hall k v' Hv') as (v'' & Hv'' & Hin'' & Hr'' & Hst'').
      exists v''. split; [done|]. split; [by auto|]. split; [by rewrite Hr''|].
      intros Hs. rewrite <- (Hst' Hs). apply Hst''. by rewrite (Hst' Hs).
Qed.

End ExpansionSteps.

(** ** Templates with one replacement field *)

Section Templates.
Import Py Expander Notions TreeNotions.

Lemma has_brace_app s1 s2 : has_brace (s1 +:+ s2) = has_brace s1 || has_brace s2.
Proof.
  induction s1 as [|c s1 IH]; [done|]. rewrite append_cons. cbn [has_brace].
  by destruct (Ascii.eqb c "{").
Qed.

Lemma brace_free_has_brace s : brace_free s = true -> has_brace s = false.
Proof.
  induction s as [|c s IH]; [done|]. cbn.
  intros [[H1 _]%andb_true_iff H3]%andb_true_iff.
  apply negb_true_iff in H1. rewrite H1. by apply IH.
Qed.

Lemma brace_free_app s1 s2 :
  brace_free (s1 +:+ s2) = brace_free s1 && brace_free s2.
Proof.
  induction s1 as [|c s1 IH]; [done|]. rewrite append_cons. cbn [brace_free].
  rewrite IH. by rewrite andb_assoc.
Qed.

Lemma template_has_brace pre name post : has_brace (template pre name post) = true.
Proof.
  unfold template, placeholder. rewrite has_brace_app.
  change ("{" +:+ name +:+ "}") with (String "{" (name +:+ "}")).
  rewrite append_cons. cbn [has_brace]. change (Ascii.eqb "{" "{") with true.
  cbn iota. apply orb_true_r.
Qed.

(** Literal text in front of a format string is copied. *)
Lemma format_from_literal kwargs pre rest :
  brace_free pre = true ->
  format_from kwargs SLit (pre +:+ rest)
  = (let! out := format_from kwargs SLit rest in Ok (pre +:+ out)).
Proof.
  induction pre as [|c pre IH]; intros Hp.
  - change ("" +:+ rest) with rest. by destruct (format_from kwargs SLit rest).
  - cbn in Hp. apply andb_true_iff in Hp as [[H1 H2]%andb_true_iff Hp].
    apply negb_true_iff in H1, H2.
    rewrite append_cons. cbn [format_from]. rewrite H1, H2, IH by done.
    by destruct (format_from kwargs SLit rest).
Qed.

(** A template is formatted by looking its field up. *)
Lemma format_from_template kwargs pre name post :
  plain_name name = true -> brace_free pre = true ->
  format_from kwargs SLit (template pre name post)
  = (let! txt := get_field kwargs name in
     let! out := format_from kwargs SLit post in Ok (pre +:+ txt +:+ out)).
Proof.
  intros Hn Hpre. unfold template. rewrite format_from_literal by done.
  unfold plain_name in Hn.
  apply andb_true_iff in Hn as [Hn Hp]. apply andb_true_iff in Hn as [Hne _].
  destruct name as [|c name]; [done|].
  cbn in Hp. apply andb_true_iff in Hp as [Hc Hp].
  destruct (plain_char_field "" c Hc) as (Hc1 & Hc2 & Hc3).
  unfold placeholder.
  change (("{" +:+ String c name +:+ "}") +:+ post)
    with (String "{" (String c ((name +:+ "}") +:+ post))).
  rewrite append_assoc. change ("}" +:+ post) with (String "}" post).
  cbn [format_from]. change (Ascii.eqb "{" "{") with true. cbn iota.
  rewrite Hc1, Hc2, Hc3. cbn [bind].
  rewrite format_from_field by done.
  change (("" +:+ String c "") +:+ name) with (String c name).
  destruct (get_field kwargs (String c name)); cbn [bind]; [|done].
  by destruct (format_from kwargs SLit post).
Qed.

Lemma get_field_missing kwargs name :
  plain_name name = true -> kwargs name = None ->
  get_field kwargs name = Raise (KeyError name).
Proof.
  unfold plain_name, get_field. intros H Hk.
  apply andb_true_iff in H as [H _]. apply andb_true_iff in H as [H1 H2].
  apply negb_true_iff in H1, H2. by rewrite H1, H2, Hk.
Qed.

Lemma inert_value_resolved v : inert v = true -> value_needs_expansion v = false.
Proof.
  unfold value_needs_expansion.
  destruct v as [| bv | n | r | s | l | d]; cbn [is_list_of_strings inert]; try done.
  - apply brace_free_has_brace.
  - destruct (forallb is_str l); [|done]. cbn.
    induction l as [|x l IH]; [done|]. cbn.
    intros [Hx Hl]%andb_true_iff. by rewrite (brace_free_has_brace _ Hx), IH.
Qed.

Lemma inert_target_resolved target :
  (forall k v, chain_get target k = Some v -> inert v = true) ->
  needs_expansion target = false.
Proof.
  intros Hall. unfold needs_expansion.
  destruct (existsb value_needs_expansion (chain_values target)) eqn:He; [|done].
  apply existsb_exists in He as (v & Hv & Hneeds).
  apply list_elem_of_In, list_elem_of_omap in Hv as (k & _ & Hk).
  by rewrite (inert_value_resolved v (Hall k v Hk)) in Hneeds.
Qed.

(** A pass over a target in which every field but [a] is inert
    reaches the field [a] with the other fields as they were, up to
    floats that became their text. *)
Lemma expand_pass_reaches context target a value :
  chain_get target a = Some value ->
  (forall k x, chain_get target k = Some x -> k <> a -> inert x = true) ->
  exists keys2 target1,
    expand_pass context (chain_keys target) target
    = (let! target2 := except_KeyError context (expand_value target1 a value) in
       expand_pass context keys2 target2)
    /\ chain_get target1 a = Some value
    /\ (forall k, chain_get target k = None -> chain_get target1 k = None)
    /\ (forall k v, chain_get target k = Some v ->
          exists v', chain_get target1 k = Some v'
                     /\ (inert v = true -> inert v' = true)
                     /\ render v' = render v
                     /\ (stable v = true -> v' = v))
    /\ (forall k, k ∈ keys2 -> chain_get target k <> None).
Proof.
  intros Ha Hothers.
  assert (a ∈ chain_keys target) as Hin by (apply elem_of_chain_keys; by rewrite Ha).
  apply list_elem_of_split_l in Hin as (keys1 & keys2 & Hsplit & Hnotin).
  assert (forall k, k ∈ chain_keys target -> chain_get target k <> None) as Hkeys
    by (intros k; apply elem_of_chain_keys).
  rewrite Hsplit in Hkeys |- *.
  destruct (expand_pass_inert context keys1 target)
    as (target1 & Hpass & Hout & Hnone & Hall).
  { intros k Hk. destruct (chain_get target k) as [x|] eqn:Hx.
    - exists x. split; [done|]. apply (Hothers k x Hx). by intros ->.
    - exfalso. apply (Hkeys k); [|done]. apply elem_of_app. by left. }
  exists keys2, target1. rewrite expand_pass_app, Hpass. cbn [bind expand_pass].
  rewrite (Hout a Hnotin), Ha. split; [done|]. split; [done|]. split; [done|].
  split; [done|]. intros k Hk. apply Hkeys, elem_of_app. right.
  apply elem_of_cons. by right.
Qed.

End Templates.

(** ** What a run of the expansion loop does to a target *)

Section ExpansionOutcome.
Import Py Expander Notions TreeNotions.

(** X1.  A field that is a template with one replacement field,
    [pre{b}post], comes out of the expansion loop with the field
    replaced by the text of the value of [b], after exactly one
    pass, when the text has no brace and every other field of the
    target is inert. *)
Theorem placeholder_resolves context target a b pre post v s :
  plain_name b = true -> brace_free pre = true -> brace_free post = true ->
  chain_get target a = Some (PStr (template pre b post)) ->
  chain_get target b = Some v -> render v = Ok s -> brace_free s = true ->
  (forall k x, chain_get target k = Some x -> k <> a -> inert x = true) ->
  exists target',
    expand context target = (1%nat, Ok target')
    /\ chain_get target' a = Some (PStr (pre +:+ s +:+ post)).
Proof.
  intros Hb Hpre Hpost Ha Hv Hs Hfree Hothers.
  destruct (expand_pass_reaches context target a _ Ha Hothers)
    as (keys2 & t1 & Hpass & Ha1 & Hnone1 & Hall1 & Hkeys2).
  destruct (Hall1 b v Hv) as (v1 & Hv1 & _ & Hr1 & _).
  assert (expand_value t1 a (PStr (template pre b post))
          = Ok (chain_set t1 a (PStr (pre +:+ s +:+ post)))) as Hstep.
  { unfold expand_value. cbn [is_list_of_strings]. unfold format.
    rewrite format_from_template by done.
    rewrite (get_field_plain _ _ _ Hb Hv1), Hr1, Hs. cbn [bind].
    rewrite format_from_brace_free by done. done. }
  rewrite Hstep in Hpass. cbn [except_KeyError bind] in Hpass.
  set (result := PStr (pre +:+ s +:+ post)) in *.
  set (t2 := chain_set t1 a result) in *.
  assert (t1 <> []) as Hne1 by (intros E; by rewrite E in Ha1).
  assert (inert result = true) as Hres.
  { unfold result. cbn. rewrite !brace_free_app. by rewrite Hpre, Hfree, Hpost. }
  assert (chain_get t2 a = Some result) as Ha2 by (by apply chain_get_set_eq).
  assert (forall k x, chain_get t2 k = Some x -> inert x = true) as Hinert2.
  { intros k x Hx. destruct (decide (k = a)) as [->|Hne].
    - rewrite Ha2 in Hx. by injection Hx as <-.
    - unfold t2 in Hx. rewrite chain_get_set_ne in Hx by done.
      destruct (chain_get target k) as [x0|] eqn:Hx0.
      + destruct (Hall1 k x0 Hx0) as (x1 & Hx1 & Hin1 & _).
        rewrite Hx in Hx1. injection Hx1 as <-. apply Hin1. by apply (Hothers k x0).
      + by rewrite (Hnone1 k Hx0) in Hx. }
  destruct (expand_pass_inert context keys2 t2) as (t3 & Hpass3 & _ & Hnone3 & Hall3).
  { intros k Hk. destruct (chain_get t2 k) as [x|] eqn:Hx.
    - exists x. split; [done|]. by apply (Hinert2 k).
    - exfalso. destruct (decide (k = a)) as [->|Hne]; [by rewrite Ha2 in Hx|].
      unfold t2 in Hx. rewrite chain_get_set_ne in Hx by done.
      destruct (chain_get target k) as [x0|] eqn:Hx0.
      + destruct (Hall1 k x0 Hx0) as (x1 & Hx1 & _). by rewrite Hx in Hx1.
      + by apply (Hkeys2 k). }
  rewrite Hpass3 in Hpass.
  assert (needs_expansion target = true) as Hneeds.
  { apply (needs_expansion_intro target a _ Ha). cbn. apply template_has_brace. }
  assert (needs_expansion t3 = false) as Hdone.
  { apply inert_target_resolved. intros k x Hx.
    destruct (chain_get t2 k) as [x2|] eqn:Hx2.
    - destruct (Hall3 k x2 Hx2) as (x3 & Hx3 & Hin3 & _).
      rewrite Hx in Hx3. injection Hx3 as <-. apply Hin3. by apply (Hinert2 k).
    - by rewrite (Hnone3 k Hx2) in Hx. }
  exists t3. split.
  - unfold expand, MAX_ITERS. cbn [expand_while]. rewrite Hneeds, Hpass.
    cbn [expand_while]. by rewrite Hdone.
  - destruct (Hall3 a result Ha2) as (x3 & Hx3 & _ & _ & Hst3).
    rewrite Hx3. f_equal. apply Hst3. exact Hres.
Qed.

Lemma placeholder_resolves_witness :
  exists target',
    expand ["compilers"; "gcc"]
      [[("name", PStr "9.1.0")];
       [("type", PStr "tarballs"); ("dir", PStr "gcc-{name}/bin")]]
    = (1%nat, Ok target')
    /\ chain_get target' "dir" = Some (PStr ("gcc-" +:+ "9.1.0" +:+ "/bin")).
Proof.
  apply (placeholder_resolves ["compilers"; "gcc"]
           [[("name", PStr "9.1.0")];
            [("type", PStr "tarballs"); ("dir", PStr "gcc-{name}/bin")]]
           "dir" "name" "gcc-" "/bin" (PStr "9.1.0") "9.1.0");
    try reflexivity.
  intros k x Hx Hk. cbn [chain_get dict_get] in Hx.
  destruct (String.eqb_spec "name" k) as [_|_]; [by injection Hx as <-|].
  destruct (String.eqb_spec "type" k) as [_|_]; [by injection Hx as <-|].
  destruct (String.eqb_spec "dir" k) as [E|_]; [by symmetry in E|done].
Defined.

(** X2.  A template whose field names a key that the target does not
    have ends the expansion in its first pass, with the error that
    names the key and the context, when every other field of the
    target is inert. *)
Theorem unknown_key_is_fatal context target a name pre post :
  plain_name name = true -> brace_free pre = true ->
  chain_get target a = Some (PStr (template pre name post)) ->
  chain_get target name = None ->
  (forall k x, chain_get target k = Some x -> k <> a -> inert x = true) ->
  expand context target = (1%nat, Raise (UnableToFindKey name context)).
Proof.
  intros Hn Hpre Ha Hmissing Hothers.
  destruct (expand_pass_reaches context target a _ Ha Hothers)
    as (keys2 & t1 & Hpass & Ha1 & Hnone1 & _ & _).
  assert (expand_value t1 a (PStr (template pre name post)) = Raise (KeyError name))
    as Hstep.
  { unfold expand_value. cbn [is_list_of_strings]. unfold format.
    rewrite format_from_template by done.
    by rewrite (get_field_missing _ _ Hn (Hnone1 name Hmissing)). }
  rewrite Hstep in Hpass. cbn [except_KeyError bind] in Hpass.
  assert (needs_expansion target = true) as Hneeds.
  { apply (needs_expansion_intro target a _ Ha). cbn. apply template_has_brace. }
  unfold expand, MAX_ITERS. cbn [expand_while]. by rewrite Hneeds, Hpass.
Qed.

Lemma unknown_key_is_fatal_witness :
  expand ["compilers"; "gcc"]
    [[("name", PStr "9.1.0")];
     [("type", PStr "tarballs"); ("dir", PStr "gcc-{version}")]]
  = (1%nat, Raise (UnableToFindKey "version" ["compilers"; "gcc"])).
Proof.
  apply (unknown_key_is_fatal ["compilers"; "gcc"]
           [[("name", PStr "9.1.0")];
            [("type", PStr "tarballs"); ("dir", PStr "gcc-{version}")]]
           "dir" "version" "gcc-" "");
    try reflexivity.
  intros k x Hx Hk. cbn [chain_get dict_get] in Hx.
  destruct (String.eqb_spec "name" k) as [_|_]; [by injection Hx as <-|].
  destruct (String.eqb_spec "type" k) as [_|_]; [by injection Hx as <-|].
  destruct (String.eqb_spec "dir" k) as [E|_]; [by symmetry in E|done].
Defined.


Lemma expand_value_cases target key value target' :
  expand_value target key value = Ok target' ->
  target' = target \/ exists value', target' = chain_set target key value'.
Proof.
  unfold expand_value. intros H.
  destruct (is_list_of_strings value).
  - destruct value; try (injection H as <-; by left).
    destruct (mapM _ _); [|done]. injection H as <-. right. eauto.
  - destruct value; try (injection H as <-; by left).
    + injection H as <-. right. eauto.
    + destruct (format _ _); [|done]. injection H as <-. right. eauto.
Qed.

Lemma expand_first_pass context target :
  expand context target
  = if needs_expansion target then
      match expand_pass context (chain_keys target) target with
      | Ok target' => expand_while context 4 1 target'
      | Raise e => (1%nat, Raise e)
      end
    else (0%nat, Ok target).
Proof. reflexivity. Qed.

Lemma expand_pass_float context keys k r :
  brace_free r = true ->
  forall target target',
    chain_get target k = Some (PFloat r) -> k ∈ keys ->
    expand_pass context keys target = Ok target' ->
    chain_get target' k = Some (PStr r).
Proof.
  intros Hr. induction keys as [|key keys IH]; intros target target' Hk Hin.
  - by apply elem_of_nil in Hin.
  - cbn [expand_pass].
    destruct (chain_get target key) as [value|] eqn:Hget; [|done].
    destruct (except_KeyError context (expand_value target key value)) as [t1|e] eqn:H1;
      cbn [bind]; [|done].
    apply except_KeyError_Ok in H1. intros Hpass.
    destruct (decide (k = key)) as [<-|Hne].
    + rewrite Hk in Hget. injection Hget as <-.
      unfold expand_value in H1. cbn in H1. injection H1 as <-.
      apply (expand_pass_keeps k (PStr r) Hr context keys (chain_set target k (PStr r)));
        [|done].
      apply chain_get_set_eq. by intros ->.
    + apply (IH t1); [|by apply elem_of_cons in Hin as [?|?]|done].
      by rewrite (expand_value_other _ _ _ _ _ H1 Hne).
Qed.

(** X3.  A field that holds a float keeps the float when the target
    needs no expansion, and holds the text of the float as soon as
    one pass has run: whether a target comes out with a number or
    with a string in that field depends on whether some other field
    has a brace. *)
Theorem float_field_becomes_text context target k r n target' :
  brace_free r = true ->
  chain_get target k = Some (PFloat r) ->
  expand context target = (n, Ok target') ->
  chain_get target' k
  = Some (if needs_expansion target then PStr r else PFloat r).
Proof.
  intros Hr Hk. rewrite expand_first_pass.
  destruct (needs_expansion target).
  - destruct (expand_pass context (chain_keys target) target) as [t1|e] eqn:Hpass; [|done].
    apply (expand_while_keeps k (PStr r) Hr).
    apply (expand_pass_float context (chain_keys target) k r Hr target); [done| |done].
    apply elem_of_chain_keys. by rewrite Hk.
  - by intros [= _ <-].
Qed.

Lemma float_field_becomes_text_witness :
  chain_get [[("name", PStr "boost"); ("version", PStr "1.64");
              ("dir", PStr "boost-1.64")];
             [("version", PFloat "1.64"); ("dir", PStr "{name}-{version}")]] "version"
  = Some (if needs_expansion
               [[("name", PStr "boost")];
                [("version", PFloat "1.64"); ("dir", PStr "{name}-{version}")]]
          then PStr "1.64" else PFloat "1.64").
Proof.
  apply (float_field_becomes_text ["libs"]
           [[("name", PStr "boost")];
            [("version", PFloat "1.64"); ("dir", PStr "{name}-{version}")]]
           "version" "1.64" 1%nat); reflexivity.
Defined.

Lemma expand_value_mem target key value target' k :
  chain_get target key = Some value ->
  expand_value target key value = Ok target' ->
  chain_mem target' k = chain_mem target k.
Proof.
  intros Hget Hstep. unfold chain_mem.
  destruct (decide (k = key)) as [->|Hne].
  - rewrite Hget.
    destruct (expand_value_cases _ _ _ _ Hstep) as [->|[value' ->]]; [by rewrite Hget|].
    rewrite chain_get_set_eq; [done|]. by intros ->.
  - by rewrite (expand_value_other _ _ _ _ _ Hstep Hne).
Qed.

Lemma expand_pass_mem context keys k :
  forall target target',
    expand_pass context keys target = Ok target' ->
    chain_mem target' k = chain_mem target k.
Proof.
  induction keys as [|key keys IH]; intros target target'; cbn [expand_pass].
  - by intros [= <-].
  - destruct (chain_get target key) as [value|] eqn:Hget; [|done].
    destruct (except_KeyError context (expand_value target key value)) as [t1|e] eqn:H1;
      cbn [bind]; [|done].
    apply except_KeyError_Ok in H1. intros Hpass.
    rewrite (IH _ _ Hpass). by apply (expand_value_mem target key value).
Qed.

(** X4.  The expansion loop neither adds a field to a target nor
    takes one away: a name is a field of the expanded target exactly
    when it was a field of the target before. *)
Theorem expansion_keeps_the_fields context target n target' k :
  expand context target = (n, Ok target') ->
  chain_mem target' k = chain_mem target k.
Proof.
  unfold expand. generalize MAX_ITERS 0%nat. intros remaining. revert target.
  induction remaining as [|r IH]; intros target iterations; cbn [expand_while].
  - destruct (needs_expansion target); [done|]. by intros [= _ <-].
  - destruct (needs_expansion target); [|by intros [= _ <-]].
    destruct (expand_pass context (chain_keys target) target) as [t1|e] eqn:Hpass; [|done].
    intros H. rewrite (IH _ _ H). by apply (expand_pass_mem context (chain_keys target)).
Qed.

Lemma expansion_keeps_the_fields_witness :
  chain_mem [[("name", PStr "9.1.0"); ("type", PStr "tarballs");
              ("dir", PStr "gcc-9.1.0")];
             [("type", PStr "tarballs"); ("dir", PStr "gcc-{name}")]] "url"
  = chain_mem [[("name", PStr "9.1.0")];
               [("type", PStr "tarballs"); ("dir", PStr "gcc-{name}")]] "url".
Proof.
  apply (expansion_keeps_the_fields ["compilers"]
           [[("name", PStr "9.1.0")];
            [("type", PStr "tarballs"); ("dir", PStr "gcc-{name}")]] 1%nat).
  reflexivity.
Defined.

End ExpansionOutcome.

(** ** What the traversal emits *)

Section EmittedTargets.
Import Py Expander Notions TreeNotions.

Lemma leaf_targets_resolved context base_config specs t :
  t ∈ yielded (leaf_targets context base_config specs) ->
  needs_expansion t = false.
Proof.
  induction specs as [|spec specs IH]; cbn [leaf_targets].
  - by intros ?%elem_of_nil.
  - destruct (let! target := make_target spec base_config in snd (expand context target))
      as [t1|e] eqn:H; [|by intros ?%elem_of_nil].
    pose proof (leaf_outcome _ _ _ _ H) as [front ->]. cbn.
    intros [->|Hin]%elem_of_cons; [|by apply IH].
    destruct (make_target spec base_config) as [t0|]; cbn [bind] in H; [|done].
    destruct (expand context t0) as [n r] eqn:He. cbn [snd] in H. subst r.
    by eapply expand_while_stable.
Qed.

(** X5.  Every target that the traversal emits is fully expanded: no
    string field and no string in a list field has an opening
    brace, whatever the document and the flags are. *)
Theorem emitted_targets_are_resolved node :
  forall enabled context name base_config t,
    t ∈ yielded (_targets_from node enabled context name base_config) ->
    needs_expansion t = false.
Proof.
  induction node as [| b | n | r | s | l IHl | d IHd] using pyval_nested_ind;
    intros enabled context name base_config t; cbn [_targets_from];
    try (destruct (negb _); by intros ?%elem_of_nil).
  - destruct (negb _); [by intros ?%elem_of_nil|].
    intros (g & Hg & Ht)%elem_of_gen_concat.
    apply list_elem_of_fmap in Hg as (child & -> & Hchild).
    rewrite Forall_forall in IHl. by eapply IHl.
  - destruct (negb (truthy _)); [by intros ?%elem_of_nil|].
    destruct (negb (guard_open _ _)); [by intros ?%elem_of_nil|].
    intros [H|H]%elem_of_gen_seq.
    + apply elem_of_gen_concat in H as (g & Hg & Ht).
      apply list_elem_of_fmap in Hg as (kv & -> & Hkv).
      rewrite Forall_forall in IHd. by eapply IHd.
    + unfold own_targets in H.
      destruct (dict_get d "targets") as [targets|]; [|by apply elem_of_nil in H].
      destruct (iterate targets) as [specs|e]; [|by apply elem_of_nil in H].
      by eapply leaf_targets_resolved.
Qed.

Lemma emitted_targets_are_resolved_witness :
  needs_expansion
    [[("name", PStr "9.1.0"); ("type", PStr "tarballs"); ("dir", PStr "gcc-9.1.0");
      ("context", PList [PStr "gcc"])];
     [("type", PStr "tarballs"); ("dir", PStr "gcc-{name}");
      ("context", PList [PStr "gcc"])]]
  = false.
Proof.
  apply (emitted_targets_are_resolved
           (PDict [("type", PStr "tarballs"); ("dir", PStr "gcc-{name}");
                   ("targets", PList [PStr "9.1.0"])])
           [] [] "gcc" []).
  vm_compute. apply elem_of_cons. by left.
Defined.

Lemma gen_concat_nil {A} (f : A -> gen) l :
  (forall x, x ∈ l -> f x = gen_nil) -> gen_concat (map f l) = gen_nil.
Proof.
  induction l as [|x l IH]; intros H; [done|].
  change (gen_concat (map f (x :: l))) with (gen_seq (f x) (gen_concat (map f l))).
  rewrite (H x) by (apply elem_of_cons; by left).
  rewrite IH; [done|]. intros y Hy. apply H, elem_of_cons. by right.
Qed.

(** X6.  Targets come from lists under the key ['targets'] and from
    nowhere else: a document in which no mapping has that key emits
    no target and raises nothing, whatever else it holds. *)
Theorem no_targets_no_output node :
  forall enabled context name base_config,
    no_key "targets" node = true ->
    _targets_from node enabled context name base_config = gen_nil.
Proof.
  induction node as [| b | n | r | s | l IHl | d IHd] using pyval_nested_ind;
    intros enabled context name base_config Hno; cbn [_targets_from];
    try (by destruct (negb _)).
  - destruct (negb _); [done|]. apply gen_concat_nil. intros child Hchild.
    rewrite Forall_forall in IHl. apply IHl; [done|].
    cbn in Hno. by eapply forallb_elem_of.
  - destruct (negb (truthy _)); [done|].
    destruct (negb (guard_open _ _)); [done|].
    cbn in Hno. apply andb_true_iff in Hno as [Hnokey Hno].
    rewrite gen_concat_nil.
    + unfold own_targets. apply negb_true_iff in Hnokey. unfold dict_mem in Hnokey.
      by destruct (dict_get d "targets").
    + intros kv Hkv. rewrite Forall_forall in IHd. apply IHd; [done|].
      apply (forallb_elem_of _ _ _ Hno Hkv).
Qed.

Lemma no_targets_no_output_witness :
  _targets_from
    (PDict [("compilers",
             PDict [("type", PStr "tarballs"); ("dir", PStr "gcc-{name}");
                    ("gcc", PList [PStr "9.1.0"; PStr "9.2.0"])])])
    [] [] "" []
  = gen_nil.
Proof. apply no_targets_no_output. reflexivity. Defined.





(** X8.  A node's own targets come out in the order of its list of
    leaves, and the one that comes out in place [i] carries the bare
    name given in place [i] as its field ['name']; when the list is
    gone through without an error there is one target for each
    leaf. *)
Theorem leaf_names_in_order context base_config specs :
  (forall i t s,
      yielded (leaf_targets context base_config specs) !! i = Some t ->
      specs !! i = Some (PStr s) -> brace_free s = true ->
      chain_get t "name" = Some (PStr s))
  /\ (raised (leaf_targets context base_config specs) = None ->
      length (yielded (leaf_targets context base_config specs)) = length specs).
Proof.
  induction specs as [|spec specs [IH1 IH2]]; [by split|].
  cbn [leaf_targets].
  destruct (let! target := make_target spec base_config in snd (expand context target))
    as [t1|e] eqn:H; [|split; [by intros [|i]|done]].
  pose proof (leaf_outcome _ _ _ _ H) as [front ->]. cbn [shared_base gen_yield yielded raised].
  split.
  - intros [|i] t s; cbn.
    + intros [= <-] [= ->] Hs. cbn [make_target bind] in H.
      destruct (expand context [[("name", PStr s)]; base_config]) as [n r] eqn:He.
      cbn [snd] in H. subst r.
      eapply (expand_while_keeps "name" (PStr s) Hs); [|exact He]. reflexivity.
    + apply IH1.
  - intros Hr. cbn. f_equal. by apply IH2.
Qed.

Lemma leaf_names_in_order_witness :
  chain_get [[("name", PStr "9.2.0")]; [("type", PStr "tarballs")]] "name"
  = Some (PStr "9.2.0")
  /\ length (yielded (leaf_targets ["gcc"] [("type", PStr "tarballs")]
                        [PStr "9.1.0"; PStr "9.2.0"]))
     = length [PStr "9.1.0"; PStr "9.2.0"].
Proof.
  destruct (leaf_names_in_order ["gcc"] [("type", PStr "tarballs")]
              [PStr "9.1.0"; PStr "9.2.0"]) as [H1 H2].
  split.
  - by apply (H1 1%nat _ "9.2.0").
  - by apply H2.
Defined.

End EmittedTargets.

(** ** What the steps of an installation leave alone *)

Section Frames.
Import Ctx Inst IONotions FrameNotions Verifying.

Global Instance agree_on_preorder P : PreOrder (agree_on P).
Proof.
  split.
  - by intros f p _.
  - intros f1 f2 f3 H12 H23 p Hp. by rewrite (H23 p Hp), (H12 p Hp).
Qed.

Global Instance carries_preorder Q : PreOrder (carries Q).
Proof. split; unfold carries; [by intros f|intros f1 f2 f3; tauto]. Qed.

Lemma agree_on_weaken (P P' : path -> Prop) f f' :
  (forall p, P' p -> P p) -> agree_on P f f' -> agree_on P' f f'.
Proof. intros HP H p Hp. apply H, HP, Hp. Qed.

Lemma keeps_weaken {A} (P P' : path -> Prop) (m : IO A) :
  (forall p, P' p -> P p) -> keeps (agree_on P) m -> keeps (agree_on P') m.
Proof. intros HP H w. by eapply agree_on_weaken. Qed.

Section Keeps.
Context (R : relation (gmap path entry)) `{!PreOrder R}.

Lemma keeps_ret {A} (a : A) : keeps R (ret a).
Proof. by intros w. Qed.

Lemma keeps_raise {A} (e : exn) : keeps R (@raise A e).
Proof. by intros w. Qed.

Lemma keeps_bind {A B} (m : IO A) (k : A -> IO B) :
  keeps R m -> (forall a, keeps R (k a)) -> keeps R (iobind m k).
Proof.
  intros Hm Hk w. unfold iobind. specialize (Hm w).
  destruct (m w) as [w1 [a|e]]; cbn [fst] in *; [|done].
  etrans; [exact Hm|apply Hk].
Qed.

Lemma keeps_emit l message : keeps R (emit l message).
Proof. by intros w. Qed.

Lemma keeps_get_fs : keeps R get_fs.
Proof. by intros w. Qed.

Lemma keeps_check_call E args : keeps R (Ctx.check_call E args).
Proof. intros w. unfold Ctx.check_call. by destruct (call E args =? 0)%Z. Qed.

Lemma keeps_update (g : gmap path entry -> gmap path entry) :
  (forall f, R f (g f)) -> keeps R (let* f := get_fs in set_fs (g f)).
Proof. intros Hg w. apply Hg. Qed.

Lemma keeps_forM_ {A} (l : list A) (f : A -> IO unit) :
  (forall x, keeps R (f x)) -> keeps R (forM_ l f).
Proof.
  intros Hf. induction l as [|x l IH]; cbn [forM_].
  - apply keeps_ret.
  - apply keeps_bind; [apply Hf|by intros _].
Qed.


Lemma keeps_strip_exes ctx paths : keeps R (strip_exes ctx paths).
Proof.
  unfold strip_exes.
  destruct (match paths with
            | StripBool false => None
            | StripBool true => Some ["."]
            | StripPaths l => Some l
            end) as [l|]; [|apply keeps_ret].
  apply keeps_forM_. intros p. apply keeps_bind; [apply keeps_get_fs|].
  intros f. destruct (isdir f (Staging, p)); [apply keeps_ret|apply keeps_raise].
Qed.

Lemma keeps_strip_if_wanted ctx s : keeps R (strip_if_wanted ctx s).
Proof.
  unfold strip_if_wanted. destruct (strip_wanted s);
    [apply keeps_strip_exes|apply keeps_ret].
Qed.




Lemma keeps_compare E ctx source dest :
  keeps R (compare_against_staging E ctx source dest).
Proof.
  unfold compare_against_staging.
  apply keeps_bind; [apply keeps_emit|]. intros _.
  apply keeps_bind; [|intros _; apply keeps_ret].
  by destruct (_ =? _)%Z; apply keeps_emit.
Qed.

(** The steps of [stage], given that cleaning the staging area and
    creating fetched entries there are in [R]. *)
Variable E : env.
Hypothesis Hclean : forall f, R f (filter (fun kv => fst (fst kv) <> Staging) f).
Hypothesis Hfetch : forall (what : fetch) (entries : list (string * entry))
    (f : gmap path entry),
  remote E what = Ok entries ->
  R f (fold_left (fun acc ne => <[(Staging, fst ne) := snd ne]> acc) entries f).

Lemma keeps_clean_staging ctx : keeps R (clean_staging E ctx).
Proof.
  unfold clean_staging.
  apply keeps_bind; [apply keeps_emit|]. intros _.
  apply keeps_bind; [apply keeps_check_call|]. intros _.
  apply keeps_bind; [by apply keeps_update|]. intros _. apply keeps_emit.
Qed.

Lemma keeps_stage_fetch what : keeps R (stage_fetch E what).
Proof.
  unfold stage_fetch. destruct (remote E what) as [entries|e] eqn:Hr.
  - apply keeps_update. intros f. by eapply Hfetch.
  - apply keeps_raise.
Qed.

Lemma keeps_stage_command ctx command : keeps R (stage_command E ctx command).
Proof.
  unfold stage_command. apply keeps_bind; [apply keeps_emit|].
  intros _. apply keeps_stage_fetch.
Qed.

Lemma keeps_stage ctx self : keeps R (stage E ctx self).
Proof.
  unfold stage. destruct (kind self) as [g|t|n|t|s].
  - apply keeps_bind; [apply keeps_clean_staging|]. intros _.
    apply keeps_bind; [|intros _; apply keeps_strip_if_wanted].
    destruct (String.eqb (gh_method g) "archive"); [apply keeps_stage_fetch|].
    destruct (String.eqb (gh_method g) "clone");
      [apply keeps_stage_fetch|apply keeps_raise].
  - apply keeps_bind; [apply keeps_clean_staging|]. intros _.
    apply keeps_bind; [apply keeps_stage_fetch|]. intros _.
    apply keeps_strip_if_wanted.
  - apply keeps_bind; [apply keeps_clean_staging|]. intros _.
    apply keeps_bind; [apply keeps_stage_fetch|]. intros _.
    apply keeps_strip_if_wanted.
  - apply keeps_bind; [apply keeps_clean_staging|]. intros _.
    apply keeps_bind; [apply keeps_stage_fetch|]. intros _.
    apply keeps_bind.
    { destruct (tb_configure_command t); [apply keeps_ret|apply keeps_stage_command]. }
    intros _. apply keeps_bind; [apply keeps_strip_if_wanted|]. intros _.
    apply keeps_bind; [apply keeps_get_fs|]. intros f.
    destruct (isdir f _); [apply keeps_ret|apply keeps_raise].
  - apply keeps_bind; [apply keeps_clean_staging|]. intros _.
    apply keeps_bind.
    { apply keeps_forM_. intros url.
      destruct (split_space "" url) as [|u [|filename [|? ?]]]; try apply keeps_raise.
      apply keeps_bind; [apply keeps_stage_fetch|]. intros _. apply keeps_emit. }
    intros _. apply keeps_bind; [apply keeps_stage_command|]. intros _.
    apply keeps_strip_if_wanted.
Qed.

End Keeps.

Lemma clean_keeps_installed (P : path -> Prop) f :
  (forall p, P p -> installed p) ->
  agree_on P f (filter (fun kv => fst (fst kv) <> Staging) f).
Proof.
  intros HP p Hp. specialize (HP p Hp). unfold installed in HP.
  destruct (f !! p) as [e|] eqn:He.
  - apply map_lookup_filter_Some. split; [done|]. cbn. by rewrite HP.
  - apply map_lookup_filter_None. by left.
Qed.

Lemma fetch_keeps_installed (P : path -> Prop) (entries : list (string * entry))
  (f : gmap path entry) :
  (forall p, P p -> installed p) ->
  agree_on P f (fold_left (fun acc ne => <[(Staging, fst ne) := snd ne]> acc) entries f).
Proof.
  intros HP. revert f. induction entries as [|[n e] entries IH]; intros f; [done|].
  cbn [fold_left]. etrans; [|apply IH].
  intros p Hp. specialize (HP p Hp). unfold installed in HP. cbn.
  apply lookup_insert_ne. intros <-. done.
Qed.

(** [stage] leaves every path under the destination as it is. *)
Lemma stage_keeps_installed (P : path -> Prop) E ctx self :
  (forall p, P p -> installed p) -> keeps (agree_on P) (stage E ctx self).
Proof.
  intros HP. apply keeps_stage; [apply _| |].
  - intros f. by apply clean_keeps_installed.
  - intros what entries f _. by apply fetch_keeps_installed.
Qed.

Lemma compare_answer E ctx source dest w :
  snd (compare_against_staging E ctx source dest w)
  = Ok (call E ["diff"; "-r"; real_path ctx (Staging, source);
                real_path ctx (Destination, move_target source dest)] =? 0)%Z.
Proof.
  unfold compare_against_staging, iobind, info, warn, emit, ret. cbn.
  by destruct (_ =? _)%Z.
Qed.

(** X9.  Verifying an installable never changes anything under the
    destination, whatever the surroundings answer and whether the
    staging succeeds or not; when the staging succeeds, the answer
    is whether the comparison of the staged tree with the installed
    one found no difference. *)
Theorem verify_keeps_destination E ctx self w :
  (forall name,
      fs (fst (verify E ctx self w)) !! (Destination, name)
      = fs w !! (Destination, name))
  /\ (forall w1, stage E ctx self w = (w1, Ok tt) ->
        snd (verify E ctx self w)
        = Ok (call E ["diff"; "-r"; real_path ctx (Staging, fst (compared self));
                      real_path ctx (Destination, snd (compared self))] =? 0)%Z).
Proof.
  split.
  - intros name.
    assert (keeps (agree_on installed) (verify E ctx self)) as H.
    { unfold verify. apply keeps_bind; [apply _|by apply stage_keeps_installed|].
      intros _. destruct (kind self); apply keeps_compare; apply _. }
    by apply (H w).
  - intros w1 Hstage. unfold verify, iobind, compared. rewrite Hstage.
    destruct (kind self) as [g|t|n|t|s]; apply compare_answer.
Qed.

Lemma verify_keeps_destination_witness :
  snd (verify (env_tarball "gcc-9.1.0" ["bin"]) ctx_live gcc_tarball world_empty)
  = Ok true.
Proof.
  destruct (verify_keeps_destination (env_tarball "gcc-9.1.0" ["bin"]) ctx_live
              gcc_tarball world_empty) as [_ H].
  eapply H. vm_compute. reflexivity.
Defined.







Lemma iobind_Ok {A B} (m : IO A) (k : A -> IO B) w w' b :
  iobind m k w = (w', Ok b) ->
  exists w1 a, m w = (w1, Ok a) /\ k a w1 = (w', Ok b).
Proof.
  unfold iobind. destruct (m w) as [w1 [a|e]]; [|done]. intros H. by exists w1, a.
Qed.

Lemma clean_staging_empties E ctx w w1 name :
  clean_staging E ctx w = (w1, Ok tt) -> fs w1 !! (Staging, name) = None.
Proof.
  unfold clean_staging, iobind, debug, emit, Ctx.check_call, get_fs, set_fs. cbn.
  destruct (call E _ =? 0)%Z; cbn; [|done]. intros [= <-]. cbn.
  apply map_lookup_filter_None. right. intros e _ H. by apply H.
Qed.

Lemma fetch_carries_delivered (E : env) (what : fetch) (entries : list (string * entry))
  (f : gmap path entry) :
  remote E what = Ok entries ->
  carries (all_delivered E) f
    (fold_left (fun acc ne => <[(Staging, fst ne) := snd ne]> acc) entries f).
Proof.
  intros Hr.
  assert (forall l (g : gmap path entry),
             (forall ne, ne ∈ l -> ne ∈ entries) ->
             all_delivered E g ->
             all_delivered E
               (fold_left (fun acc ne => <[(Staging, fst ne) := snd ne]> acc) l g)) as H.
  { induction l as [|[n e] l IH]; intros g Hsub Hg; [done|].
    cbn [fold_left]. apply IH.
    - intros ne Hne. apply Hsub, elem_of_cons. by right.
    - intros name e' Hlook. cbn in Hlook.
      destruct (decide (name = n)) as [->|Hne].
      + rewrite lookup_insert_eq in Hlook. injection Hlook as <-.
        exists what, entries. split; [done|]. apply Hsub, elem_of_cons. by left.
      + rewrite lookup_insert_ne in Hlook by congruence. by apply Hg. }
  intros Hf. by apply H.
Qed.

Lemma iobind_run {A B} (m : IO A) (k : A -> IO B) w w1 a :
  m w = (w1, Ok a) -> iobind m k w = k a w1.
Proof. intros H. unfold iobind. by rewrite H. Qed.

(** Cleaning the staging area forgets what was staged: the run is
    the same from a world whose staging area is empty. *)
Lemma clean_staging_forgets E ctx w w1 :
  clean_staging E ctx w = (w1, Ok tt) ->
  clean_staging E ctx
    (World (filter (fun kv => fst (fst kv) <> Staging) (fs w)) (log w) (replace_faults w))
  = (w1, Ok tt).
Proof.
  unfold clean_staging, iobind, debug, emit, Ctx.check_call, get_fs, set_fs. cbn.
  destruct (call E _ =? 0)%Z; cbn; [|done]. intros [= <-]. do 2 f_equal.
  apply map_filter_id. intros p e He. by apply map_lookup_filter_Some in He as [_ He].
Qed.

Lemma stage_forgets E ctx self w w' :
  stage E ctx self w = (w', Ok tt) ->
  stage E ctx self
    (World (filter (fun kv => fst (fst kv) <> Staging) (fs w)) (log w) (replace_faults w))
  = (w', Ok tt).
Proof.
  unfold stage. destruct (kind self); intros H;
    apply iobind_Ok in H as (w1 & [] & Hclean & Hrest);
    by rewrite (iobind_run _ _ _ _ _ (clean_staging_forgets _ _ _ _ Hclean)).
Qed.

(** X11.  A staging that succeeds starts from an empty staging
    area: whatever was staged before, every entry that the staging
    area holds afterwards was delivered by a fetch of the
    surroundings. *)
Theorem stage_starts_clean E ctx self w w' name e :
  stage E ctx self w = (w', Ok tt) ->
  fs w' !! (Staging, name) = Some e ->
  delivered E name e.
Proof.
  intros Hstage Hlook. apply stage_forgets in Hstage.
  assert (keeps (carries (all_delivered E)) (stage E ctx self)) as Hkeeps.
  { apply keeps_stage; [apply _| |].
    - intros f Hf n e' He'. apply map_lookup_filter_Some in He' as [_ He']. by cbn in He'.
    - intros what entries f Hr. by apply (fetch_carries_delivered E what). }
  specialize (Hkeeps (World (filter (fun kv => fst (fst kv) <> Staging) (fs w))
                        (log w) (replace_faults w))).
  rewrite Hstage in Hkeeps. apply Hkeeps; [|done].
  intros n e' He'. apply map_lookup_filter_Some in He' as [_ He']. by cbn in He'.
Qed.

Lemma stage_starts_clean_witness :
  delivered (env_tarball "gcc-9.1.0" ["bin"]) "gcc-9.1.0" (Dir ["bin"]).
Proof.
  apply (stage_starts_clean (env_tarball "gcc-9.1.0" ["bin"]) ctx_live gcc_tarball
           world_rename_fails
           (fst (stage (env_tarball "gcc-9.1.0" ["bin"]) ctx_live gcc_tarball
                   world_rename_fails))).
  - vm_compute. reflexivity.
  - vm_compute. reflexivity.
Defined.

End Frames.

(** ** Moving into place and linking *)

Section Placing.
Import Ctx Inst IONotions FrameNotions.




(** X13.  With dry-run off, a source that is not a directory of the
    staging area stops the move before anything is touched: the
    error names the missing source, and the file system and the
    schedule of faults are as they were. *)
Theorem move_missing_source E ctx source dest w :
  dry_run ctx = false ->
  isdir (fs w) (Staging, source) = false ->
  call E ["ls"; "-l"; staging ctx] = 0%Z ->
  exists w',
    move_from_staging E ctx source dest w
    = (w', Raise (RuntimeError ("Missing source '" +:+ real_path ctx (Staging, source)
                                +:+ "'")))
    /\ fs w' = fs w /\ replace_faults w' = replace_faults w.
Proof.
  intros Hdry Hsrc Hls. destruct w as [f l faults]. cbn [fs replace_faults] in *.
  unfold move_from_staging. rewrite Hdry.
  unfold info, emit, iobind, get_fs, Ctx.check_call, ret, raise.
  cbn [fst snd fs log replace_faults]. rewrite Hsrc. cbn [negb]. rewrite Hls.
  cbn [Z.eqb fs log replace_faults]. eexists. by repeat split.
Qed.

Lemma move_missing_source_witness :
  exists w',
    move_from_staging env_bare ctx_live "gcc-9.2.0" None world_empty
    = (w', Raise (RuntimeError ("Missing source '"
                                +:+ real_path ctx_live (Staging, "gcc-9.2.0") +:+ "'")))
    /\ fs w' = fs world_empty /\ replace_faults w' = replace_faults world_empty.
Proof. apply move_missing_source; reflexivity. Defined.

Lemma os_remove_run (p : path) f l faults :
  os_remove p (World f l faults)
  = match f !! p with
    | None => (World f l faults, Raise (FileNotFoundError (snd p)))
    | Some (Dir _) => (World f l faults, Raise (OSError "Is a directory"))
    | Some _ => (World (delete p f) l faults, Ok tt)
    end.
Proof.
  unfold os_remove, iobind, get_fs, set_fs, raise. cbn. by repeat case_match.
Qed.

Lemma os_symlink_run source (p : path) f l faults :
  os_symlink source p (World f l faults)
  = match f !! p with
    | Some _ => (World f l faults, Raise (OSError "File exists"))
    | None => (World (<[p := Symlink source]> f) l faults, Ok tt)
    end.
Proof.
  unfold os_symlink, iobind, get_fs, set_fs, raise. cbn. by repeat case_match.
Qed.

Lemma set_link_run ctx source dest f l faults :
  dry_run ctx = false ->
  set_link ctx source dest (World f l faults)
  = match (if exists_ f (Destination, dest)
           then os_remove (Destination, dest) (World f l faults)
           else (World f l faults, Ok tt)) with
    | (World f1 l1 faults1, Ok _) =>
        os_symlink source (Destination, dest)
          (World f1 (l1 ++ [(INFO, "Symlinking " +:+ dest +:+ " to " +:+ source)]) faults1)
    | (w1, Raise e) => (w1, Raise e)
    end.
Proof.
  intros Hdry. unfold set_link. rewrite Hdry. unfold iobind, get_fs, info, emit, ret.
  cbn [fst snd fs log replace_faults].
  destruct (exists_ f (Destination, dest)); [|done].
  by destruct (os_remove (Destination, dest) (World f l faults)) as [[f1 l1 faults1] [[]|e]].
Qed.

(** X14.  A link that [set_link] has set passes [check_link]: when
    [set_link] succeeds with dry-run off, the name holds a link to
    the source, every other path is as it was, and [check_link]
    with the same arguments answers [True]. *)
Theorem set_link_then_check_link ctx source dest w w' :
  dry_run ctx = false ->
  set_link ctx source dest w = (w', Ok tt) ->
  fs w' !! (Destination, dest) = Some (Symlink source)
  /\ (forall p, p <> (Destination, dest) -> fs w' !! p = fs w !! p)
  /\ snd (check_link ctx source dest w') = Ok true.
Proof.
  intros Hdry. destruct w as [f l faults]. rewrite set_link_run by done.
  set (d := (Destination, dest) : path).
  assert (forall (g : gmap path entry) l0,
             (forall p, p <> d -> g !! p = f !! p) ->
             os_symlink source d (World g l0 faults) = (w', Ok tt) ->
             fs w' !! d = Some (Symlink source)
             /\ (forall p, p <> d -> fs w' !! p = f !! p)
             /\ snd (check_link ctx source dest w') = Ok true) as Hlast.
  { intros g l0 Hg. rewrite os_symlink_run. destruct (g !! d); [done|].
    intros [= <-]. cbn [fs]. split; [apply lookup_insert_eq|]. split.
    - intros p Hp. rewrite lookup_insert_ne by done. by apply Hg.
    - unfold check_link, read_link, iobind, get_fs, debug, emit, ret. cbn.
      fold d. rewrite lookup_insert_eq. cbn. by rewrite String.eqb_refl. }
  destruct (exists_ f d).
  - rewrite os_remove_run. destruct (f !! d) as [[c|data|target]|]; try done.
    + apply Hlast. intros p Hp. by apply lookup_delete_ne.
    + apply Hlast. intros p Hp. by apply lookup_delete_ne.
  - by apply Hlast.
Qed.

Lemma set_link_then_check_link_witness :
  snd (check_link ctx_live "gcc-9.1.0" "gcc-current"
         (fst (set_link ctx_live "gcc-9.1.0" "gcc-current" world_rename_fails)))
  = Ok true.
Proof.
  apply (set_link_then_check_link ctx_live "gcc-9.1.0" "gcc-current" world_rename_fails);
    reflexivity.
Defined.

(** X15.  [set_link] cannot repair a dangling link: when the name
    holds a link whose target does not exist, the test for
    existence follows the link and answers no, the old link is not
    removed, and creating the new one fails because the name is
    taken; the file system is left as it was. *)
Theorem set_link_dangling ctx source dest target w :
  dry_run ctx = false ->
  is_root (Destination, dest) = false ->
  fs w !! (Destination, dest) = Some (Symlink target) ->
  fs w !! (Destination, join (dirname dest) target) = None ->
  exists w',
    set_link ctx source dest w = (w', Raise (OSError "File exists"))
    /\ fs w' = fs w.
Proof.
  intros Hdry Hroot Hlink Hgone.
  destruct w as [f l faults]. cbn [fs] in *. rewrite set_link_run by done.
  change (root * string)%type with path in Hlink.
  assert (exists_ f (Destination, dest) = false) as ->.
  { unfold exists_, stat. rewrite Hroot, Hlink. cbn [fst snd]. by rewrite Hgone. }
  cbv beta iota. rewrite os_symlink_run, Hlink. eexists. by split.
Qed.

Lemma set_link_dangling_witness :
  exists w',
    set_link ctx_live "gcc-trunk-v4" "gcc-trunk"
      (World {[ (Destination, "gcc-trunk") := Symlink "gcc-trunk-v3" ]} [] [])
    = (w', Raise (OSError "File exists"))
    /\ fs w' = fs (World {[ (Destination, "gcc-trunk") := Symlink "gcc-trunk-v3" ]} [] []).
Proof. apply (set_link_dangling _ _ _ "gcc-trunk-v3"); reflexivity. Defined.

End Placing.

(** ** Retention of nightly versions *)

Section Retention.
Import Ctx Inst IONotions MoreExamples.

Lemma slice_to_neg_take {A} (l : list A) n : exists m, slice_to_neg l n = take m l.
Proof. unfold slice_to_neg. destruct (_ <? _)%Z; eauto. Qed.

Lemma elem_of_glob (f : gmap path entry) pattern name :
  name ∈ glob f pattern
  <-> (exists e, f !! (Destination, name) = Some e) /\ glob_match pattern name = true.
Proof.
  unfold glob. rewrite list_elem_of_omap. split.
  - intros ([[r n] e] & Hin & Hm). apply elem_of_map_to_list in Hin.
    cbn in Hm. destruct r; [|done].
    destruct (glob_match pattern n) eqn:Hg; [|done]. injection Hm as <-.
    split; [by exists e|done].
  - intros [[e He] Hg]. exists ((Destination, name), e). split.
    + by apply elem_of_map_to_list.
    + cbn. by rewrite Hg.
Qed.

(** X16.  The versions that the installation of a nightly removes
    are installed names that match the pattern of the compiler, and
    they are the oldest ones: every matching name that is not
    removed comes at or after every removed one in the order of
    strings.  This holds for every value of [num_to_keep]. *)
Theorem retention_removes_the_oldest f n removed :
  removed ∈ versions_to_remove f n ->
  ((exists e, f !! (Destination, removed) = Some e)
   /\ glob_match (ni_compiler_pattern n) removed = true)
  /\ forall kept,
       kept ∈ glob f (ni_compiler_pattern n) ->
       kept ∉ versions_to_remove f n ->
       String.le removed kept.
Proof.
  unfold versions_to_remove.
  destruct (slice_to_neg_take (sorted (glob f (ni_compiler_pattern n)))
              (ni_num_to_keep n + 1)) as [m ->].
  intros Hrem. split.
  - apply elem_of_glob.
    assert (removed ∈ sorted (glob f (ni_compiler_pattern n))) as Hin.
    { rewrite <- (take_drop m (sorted (glob f (ni_compiler_pattern n)))).
      apply elem_of_app. by left. }
    unfold sorted in Hin. by rewrite merge_sort_Permutation in Hin.
  - intros kept Hkept Hnot.
    pose proof (StronglySorted_merge_sort String.le (glob f (ni_compiler_pattern n)))
      as Hsorted.
    fold (sorted (glob f (ni_compiler_pattern n))) in Hsorted.
    rewrite <- (take_drop m (sorted (glob f (ni_compiler_pattern n)))) in Hsorted.
    eapply StronglySorted_app_1_elem_of; [exact Hsorted|exact Hrem|].
    assert (kept ∈ sorted (glob f (ni_compiler_pattern n))) as Hin
      by (unfold sorted; by rewrite merge_sort_Permutation).
    rewrite <- (take_drop m (sorted (glob f (ni_compiler_pattern n)))) in Hin.
    apply elem_of_app in Hin as [Hin|Hin]; [done|exact Hin].
Qed.

Lemma retention_removes_the_oldest_witness :
  String.le "gcc-trunk-v1" "gcc-trunk-v3".
Proof.
  destruct (retention_removes_the_oldest (fs world_three_versions) nightly_keep_one
              "gcc-trunk-v1") as [_ H].
  - vm_compute. apply elem_of_cons. by left.
  - apply H.
    + apply elem_of_glob. split; [by eexists|reflexivity].
    + vm_compute. intros Hin. apply elem_of_cons in Hin as [Hin|Hin]; [done|].
      apply elem_of_cons in Hin as [Hin|Hin]; [done|]. by apply elem_of_nil in Hin.
Defined.

End Retention.

(** ** Builds *)

Section Builds.
Import Ctx Build BuildNotions MoreExamples.

(** X17.  A compiler that does not support x86 is built with the
    empty architecture only, also for a library that fixes an
    architecture that the compiler does support: the fixed
    architecture is replaced, not kept. *)
Theorem no_x86_means_no_arch B ctx self buildfor comp comp_type rest t w :
  skipped buildfor comp = false ->
  compilerType comp = Some comp_type ->
  does_compiler_support B comp "x86" = false ->
  (build_fixed_arch self = ""
   \/ does_compiler_support B comp (build_fixed_arch self) = true) ->
  compilers_loop B ctx self buildfor (comp :: rest) t w
  = (let* t' := attempt_all B ctx self
                  (combinations comp [""] (stdvers_for comp) (stdlibs_for self comp_type)) t in
     compilers_loop B ctx self buildfor rest t') w
  /\ forall c,
       c ∈ combinations comp [""] (stdvers_for comp) (stdlibs_for self comp_type) ->
       arch c = "".
Proof.
  intros Hskip Htype Hx86 Hfixed. split.
  - cbn [compilers_loop]. fold (skipped buildfor comp). rewrite Hskip, Htype, Hx86.
    destruct Hfixed as [->|Hsup]; [done|]. rewrite Hsup. cbn [negb andb].
    by rewrite andb_false_r.
  - intros c Hc. unfold combinations in Hc.
    apply list_elem_of_bind in Hc as (os & Hc & _).
    apply list_elem_of_bind in Hc as (bt & Hc & _).
    apply list_elem_of_bind in Hc as (a & Hc & Ha).
    apply list_elem_of_bind in Hc as (sv & Hc & _).
    apply list_elem_of_bind in Hc as (sl & Hc & _).
    apply list_elem_of_bind in Hc as (fl & Hc & _).
    apply list_elem_of_singleton in Hc. subst c. cbn.
    by apply list_elem_of_singleton in Ha.
Qed.

Lemma no_x86_means_no_arch_witness :
  compilers_loop build_env_arm ctx_build arm_buildable "" [g91]
    {| builds_succeeded := 0; builds_failed := 0 |} IONotions.world_empty
  = (let* t' := attempt_all build_env_arm ctx_build arm_buildable
                  (combinations g91 [""] (stdvers_for g91) (stdlibs_for arm_buildable ""))
                  {| builds_succeeded := 0; builds_failed := 0 |} in
     compilers_loop build_env_arm ctx_build arm_buildable "" [] t') IONotions.world_empty.
Proof.
  destruct (no_x86_means_no_arch build_env_arm ctx_build arm_buildable "" g91 "" []
              {| builds_succeeded := 0; builds_failed := 0 |} IONotions.world_empty)
    as [H _]; [reflexivity|reflexivity|reflexivity|by right|exact H].
Defined.

End Builds.

(** ** The listing of S3 *)

Section Listings.
Import Listing.

Lemma version_chars_no_dash version :
  version_chars version = true -> split_last_dash version = None.
Proof.
  induction version as [|c v IH]; [done|]. cbn [version_chars split_last_dash].
  intros [Hc Hv]%andb_true_iff. rewrite (IH Hv).
  destruct (Ascii.eqb_spec c "-") as [->|_]; [done|done].
Qed.

Lemma split_last_dash_app name version :
  split_last_dash version = None ->
  split_last_dash (name +:+ String "-" version) = Some (name, version).
Proof.
  intros Hv. induction name as [|c name IH].
  - change ("" +:+ String "-" version) with (String "-" version).
    cbn [split_last_dash]. by rewrite Hv.
  - rewrite append_cons. cbn [split_last_dash]. by rewrite IH.
Qed.

Lemma split_last_dash_inv s a b :
  split_last_dash s = Some (a, b) -> s = a +:+ String "-" b.
Proof.
  revert a. induction s as [|c s IH]; intros a; [done|]. cbn [split_last_dash].
  destruct (split_last_dash s) as [[a' b']|].
  - intros [= <- <-]. rewrite append_cons. f_equal. by apply IH.
  - destruct (Ascii.eqb_spec c "-") as [->|_]; [|done]. by intros [= <- <-].
Qed.

Lemma chomp_cases s : s = chomp s \/ s = chomp s +:+ String newline "".
Proof.
  induction s as [|c s IH]; [by left|]. cbn [chomp]. destruct s as [|c' s].
  - destruct (Ascii.eqb_spec c newline) as [->|_]; [by right|by left].
  - destruct IH as [IH|IH].
    + left. by rewrite <- IH.
    + right. rewrite append_cons. by rewrite <- IH.
Qed.

Lemma chomp_version name version :
  version <> "" -> version_chars version = true ->
  chomp (name +:+ String "-" version) = name +:+ String "-" version.
Proof.
  intros Hne Hv.
  assert (forall s c, version_chars (String c s) = true ->
                      chomp (String c s) = String c s) as Hkeep.
  { induction s as [|c' s IH]; intros c Hs.
    - cbn. destruct (Ascii.eqb_spec c newline) as [->|_]; [done|done].
    - cbn [chomp]. f_equal. apply IH. cbn in Hs. by apply andb_true_iff in Hs as [_ Hs]. }
  destruct version as [|c v]; [done|].
  induction name as [|c0 name IH].
  - change ("" +:+ String "-" (String c v)) with (String "-" (String c v)).
    cbn [chomp]. f_equal. by apply Hkeep.
  - rewrite append_cons. cbn [chomp].
    destruct (name +:+ String "-" (String c v)) eqn:E.
    + by destruct name.
    + by rewrite IH.
Qed.

(** X18.  [VERSIONED_RE] takes a listed name apart at its last dash
    and back: a name without newline, a dash and a non-empty version
    of digits and dots match with these two groups; and the two
    groups of a match, joined by a dash, are the listed name (up to
    a newline that ends it), the version being non-empty and made
    of digits and dots. *)
Theorem versioned_name_round_trip :
  (forall name version,
      no_newline name = true -> version <> "" -> version_chars version = true ->
      VERSIONED_RE_match (name +:+ "-" +:+ version) = Some (name, version))
  /\ (forall compiler name version,
         VERSIONED_RE_match compiler = Some (name, version) ->
         (compiler = name +:+ "-" +:+ version
          \/ compiler = (name +:+ "-" +:+ version) +:+ String newline "")
         /\ version <> "" /\ version_chars version = true).
Proof.
  split.
  - intros name version Hname Hne Hv. unfold VERSIONED_RE_match.
    change (name +:+ "-" +:+ version) with (name +:+ String "-" version).
    rewrite chomp_version by done.
    rewrite split_last_dash_app by (by apply version_chars_no_dash).
    rewrite Hv, Hname. by destruct version.
  - intros compiler name version. unfold VERSIONED_RE_match.
    destruct (split_last_dash (chomp compiler)) as [[a b]|] eqn:Hsplit; [|done].
    destruct (negb (String.eqb b "")) eqn:Hb; [|done].
    destruct (version_chars b) eqn:Hv; [|done].
    destruct (no_newline a); [|done]. cbn. intros [= <- <-].
    apply split_last_dash_inv in Hsplit.
    change (a +:+ "-" +:+ b) with (a +:+ String "-" b). rewrite <- Hsplit.
    split; [apply chomp_cases|]. split; [|done].
    intros ->. done.
Qed.

Lemma versions_of_add d n v name :
  versions_of (add_version d n v) name
  = if String.eqb n name then Some (default [] (versions_of d name) ++ [v])
    else versions_of d name.
Proof.
  induction d as [|[n0 vs] d IH]; cbn [add_version versions_of].
  - by destruct (String.eqb n name).
  - destruct (String.eqb_spec n0 n) as [->|Hne]; cbn [versions_of].
    + by destruct (String.eqb n name).
    + destruct (String.eqb_spec n0 name) as [->|Hne'].
      * by destruct (String.eqb_spec n name) as [->|_].
      * exact IH.
Qed.

Lemma versioned_name_round_trip_witness :
  VERSIONED_RE_match ("gcc-trunk" +:+ "-" +:+ "20190101") = Some ("gcc-trunk", "20190101").
Proof.
  destruct versioned_name_round_trip as [H _]. apply H; [reflexivity|discriminate|reflexivity].
Defined.

(** The versions grouped under a name are those of the listed names
    that match with that name, and a name that is grouped has at
    least one. *)
Lemma versions_of_group compilers name :
  match versions_of (group_compilers compilers) name with
  | Some versions =>
      versions <> []
      /\ forall v, v ∈ versions
                   <-> exists c, c ∈ compilers /\ VERSIONED_RE_match c = Some (name, v)
  | None => forall c v, c ∈ compilers -> VERSIONED_RE_match c <> Some (name, v)
  end.
Proof.
  induction compilers as [|c compilers IH] using rev_ind.
  - cbn. intros c v Hc. by apply elem_of_nil in Hc.
  - unfold group_compilers in *. rewrite fold_left_app. cbn [fold_left].
    match type of IH with
    | context [versions_of ?folded name] => set (d := folded) in *
    end.
    destruct (VERSIONED_RE_match c) as [[n v0]|] eqn:Hc.
    + rewrite versions_of_add. destruct (String.eqb_spec n name) as [->|Hne].
      * split; [by destruct (default [] (versions_of d name))|].
        intros v. rewrite elem_of_app, list_elem_of_singleton.
        destruct (versions_of d name) as [vs|]; cbn [default].
        -- destruct IH as [_ IH]. rewrite IH. split.
           ++ intros [(c' & Hc' & Hm)| ->].
              ** exists c'. split; [apply elem_of_app; by left|done].
              ** exists c. split; [apply elem_of_app; right; by apply list_elem_of_singleton|done].
           ++ intros (c' & [Hc'|Hc']%elem_of_app & Hm).
              ** left. by exists c'.
              ** apply list_elem_of_singleton in Hc' as ->. rewrite Hc in Hm.
                 injection Hm as ->. by right.
        -- split.
           ++ intros [?%elem_of_nil| ->]; [done|].
              exists c. split; [apply elem_of_app; right; by apply list_elem_of_singleton|done].
           ++ intros (c' & [Hc'|Hc']%elem_of_app & Hm).
              ** by destruct (IH c' v Hc').
              ** apply list_elem_of_singleton in Hc' as ->. rewrite Hc in Hm.
                 injection Hm as ->. by right.
      * destruct (versions_of d name) as [vs|].
        -- destruct IH as [Hvs IH]. split; [done|]. intros v. rewrite IH. split.
           ++ intros (c' & Hc' & Hm). exists c'. split; [apply elem_of_app; by left|done].
           ++ intros (c' & [Hc'|Hc']%elem_of_app & Hm); [by exists c'|].
              apply list_elem_of_singleton in Hc' as ->. rewrite Hc in Hm. congruence.
        -- intros c' v [Hc'|Hc']%elem_of_app; [by apply IH|].
           apply list_elem_of_singleton in Hc' as ->. rewrite Hc. congruence.
    + destruct (versions_of d name) as [vs|].
      * destruct IH as [Hvs IH]. split; [done|]. intros v. rewrite IH. split.
        -- intros (c' & Hc' & Hm). exists c'. split; [apply elem_of_app; by left|done].
        -- intros (c' & [Hc'|Hc']%elem_of_app & Hm); [by exists c'|].
           apply list_elem_of_singleton in Hc' as ->. by rewrite Hc in Hm.
      * intros c' v [Hc'|Hc']%elem_of_app; [by apply IH|].
        apply list_elem_of_singleton in Hc' as ->. by rewrite Hc.
Qed.

Lemma ltb_false_le (m x : string) : String.ltb m x = false -> String.le x m.
Proof.
  unfold String.ltb, String.le, String.leb. rewrite (String.compare_antisym x m).
  by destruct (String.compare m x).
Qed.

Lemma ltb_true_le (m x : string) : String.ltb m x = true -> String.le m x.
Proof.
  unfold String.ltb, String.le, String.leb. by destruct (String.compare m x).
Qed.

(** [max] answers an element that no element exceeds. *)
Lemma py_max_greatest l m :
  Inst.py_max l = Some m -> m ∈ l /\ forall x, x ∈ l -> String.le x m.
Proof.
  destruct l as [|x0 l]; [done|]. cbn [Inst.py_max]. intros [= <-].
  set (f := fun m y : string => if String.ltb m y then y else m).
  assert (forall l acc,
             (fold_left f l acc = acc \/ fold_left f l acc ∈ l)
             /\ String.le acc (fold_left f l acc)
             /\ forall x, x ∈ l -> String.le x (fold_left f l acc)) as H.
  { clear. induction l as [|y l IH]; intros acc; cbn [fold_left].
    - split; [by left|]. split; [done|]. intros x Hx. by apply elem_of_nil in Hx.
    - destruct (IH (f acc y)) as (Hin & Hle & Hall).
      assert (String.le acc (f acc y) /\ String.le y (f acc y)) as [Hacc Hy].
      { unfold f. destruct (String.ltb acc y) eqn:Hlt.
        - split; [by apply ltb_true_le|done].
        - split; [done|by apply ltb_false_le]. }
      split; [|split].
      + destruct Hin as [Hin|Hin]; [|right; apply elem_of_cons; by right].
        rewrite Hin. unfold f. destruct (String.ltb acc y); [|by left].
        right. apply elem_of_cons. by left.
      + by etrans.
      + intros x [->|Hx]%elem_of_cons; [by etrans|by apply Hall]. }
  destruct (H l x0) as (Hin & Hle & Hall). split.
  - destruct Hin as [->|Hin]; apply elem_of_cons; [by left|by right].
  - intros x [->|Hx]%elem_of_cons; [done|by apply Hall].
Qed.

End Listings.

(** ** Installables built from targets *)

Section Constructing.
Import Py Ctx Inst Listing Config IONotions FrameNotions ConfigExamples.

(** Inversion of a chain of [let!]. *)
Lemma bind_Ok {A B} (r : result A) (k : A -> result B) b :
  bind r k = Ok b -> exists a, r = Ok a /\ k a = Ok b.
Proof. destruct r as [a|e]; [|done]. intros H. by exists a. Qed.

Ltac inv_bind H :=
  let a := fresh "a" in
  let Ha := fresh "Ha" in
  apply bind_Ok in H as (a & Ha & H).

(** X19.  The nightly that a fresh process picks is one that the
    listing of S3 announces under the name of the compiler, and no
    version announced under that name is greater in the order of
    strings; the listing was read to its end; and the link that the
    installable checks points at the directory of that version. *)
Theorem nightly_picks_the_latest_listed L depends config w w' inst :
  snd (NightlyInstallable_init L None depends config) w = (w', Ok inst) ->
  exists n compiler_name version,
    kind inst = Nightly n
    /\ ni_s3_path n = compiler_name +:+ "-" +:+ version
    /\ (exists c, c ∈ listed L /\ VERSIONED_RE_match c = Some (compiler_name, version))
    /\ (forall c v, c ∈ listed L -> VERSIONED_RE_match c = Some (compiler_name, v) ->
                    String.le v version)
    /\ _check_link inst = Some (ni_s3_path n, ni_path_name_symlink n)
    /\ failure L = None.
Proof.
  unfold NightlyInstallable_init.
  destruct (let! b := Installable_init config in _) as [[[[b subdir] strip] compiler_name]|e];
    [|done].
  cbn [s3_available_compilers snd].
  destruct (failure L) as [e|] eqn:Hfail; [done|].
  pose proof (versions_of_group (listed L) compiler_name) as Hgroup.
  destruct (versions_of (group_compilers (listed L)) compiler_name) as [versions|];
    [|done].
  destruct Hgroup as [_ Hgroup].
  destruct (py_max versions) as [most_recent|] eqn:Hmax; [|done].
  apply py_max_greatest in Hmax as [Hin Hall].
  unfold iobind, info, emit. cbn [fst snd fs log replace_faults].
  match goal with
  | |- context [match ?r with Ok installable => ret installable | Raise e => raise e end] =>
      destruct r as [installable|e] eqn:Hbuilt; [|done]
  end.
  intros [= _ <-].
  inv_bind Hbuilt. inv_bind Hbuilt. inv_bind Hbuilt. inv_bind Hbuilt.
  inv_bind Hbuilt. inv_bind Hbuilt. injection Hbuilt as <-.
  match goal with
  | H : nightly_fields _ _ _ _ _ _ = Ok ?fields |- _ =>
      rename H into Hfields; exists fields, compiler_name, most_recent
  end.
  unfold nightly_fields in Hfields.
  destruct (py_max versions) as [m|] eqn:Hmax; [|done].
  apply py_max_greatest in Hmax as [Hin' Hall'].
  assert (m = most_recent) as ->.
  { apply (anti_symm String.le); [by apply Hall|by apply Hall']. }
  injection Hfields as <-. cbn.
  split; [done|]. split; [done|]. split; [by apply Hgroup|].
  split; [|done]. intros c v Hc Hm. apply Hall, Hgroup. by exists c.
Qed.

Lemma nightly_picks_the_latest_listed_witness :
  exists n compiler_name version,
    kind (make {| i_target_name := PStr "trunk";
                  i_context := ["compilers"; "gcc"];
                  i_name := "compilers/gcc trunk";
                  i_install_always := false;
                  i_build_type := PStr "" |}
            [] (Some ("gcc-trunk-20190102", "gcc-trunk"))
            {| cs_env := []; cs_file := "";
               cs_call := ["gcc-trunk-20190102/bin/g++"; "--version"] |}
            (Nightly {| ni_subdir := "";
                        ni_strip := StripBool false;
                        ni_s3_path := "gcc-trunk-20190102";
                        ni_path_name := "gcc-trunk-20190102";
                        ni_compiler_pattern := "gcc-trunk-*";
                        ni_path_name_symlink := "gcc-trunk";
                        ni_num_to_keep := 5 |}))
    = Nightly n
    /\ ni_s3_path n = compiler_name +:+ "-" +:+ version
    /\ (exists c, c ∈ listed nightly_listing
                  /\ VERSIONED_RE_match c = Some (compiler_name, version))
    /\ (forall c v, c ∈ listed nightly_listing ->
                    VERSIONED_RE_match c = Some (compiler_name, v) ->
                    String.le v version)
    /\ Some ("gcc-trunk-20190102", "gcc-trunk")
       = Some (ni_s3_path n, ni_path_name_symlink n)
    /\ failure nightly_listing = None.
Proof.
  eapply (nightly_picks_the_latest_listed nightly_listing [] nightly_target world_empty).
  vm_compute. reflexivity.
Defined.

Lemma rev_app_append a b s : String.rev_app a b +:+ s = String.rev_app a (b +:+ s).
Proof.
  revert b. induction a as [|c a IH]; intros b; [done|]. cbn [String.rev_app].
  by rewrite IH.
Qed.

Lemma no_space_rev_app a b :
  no_space a = true -> no_space b = true -> no_space (String.rev_app a b) = true.
Proof.
  revert b. induction a as [|c a IH]; intros b; [done|]. cbn [no_space String.rev_app].
  intros [Hc Ha]%andb_true_iff Hb. apply IH; [done|]. cbn. by rewrite Hc.
Qed.

Lemma split_space_join cur s :
  no_space cur = true ->
  String.concat " " (split_space cur s) = String.rev cur +:+ s
  /\ split_space cur s <> []
  /\ forall word, word ∈ split_space cur s -> no_space word = true.
Proof.
  revert cur. induction s as [|c s IH]; intros cur Hcur; cbn [split_space].
  - split; [by rewrite append_empty_r|]. split; [done|].
    intros word ->%list_elem_of_singleton. by apply no_space_rev_app.
  - destruct (Ascii.eqb_spec c " ") as [->|Hc].
    + destruct (IH "" eq_refl) as (Hjoin & Hne & Hwords). split; [|split; [done|]].
      * cbn [String.concat]. destruct (split_space "" s) as [|w ws] eqn:E; [done|].
        rewrite Hjoin. done.
      * intros word [->|Hw]%elem_of_cons; [by apply no_space_rev_app|by apply Hwords].
    + destruct (IH (String c cur)) as (Hjoin & Hne & Hwords).
      { cbn. rewrite Hcur. by destruct (Ascii.eqb_spec c " "). }
      split; [|done]. rewrite Hjoin. unfold String.rev. cbn [String.rev_app].
      by rewrite !rev_app_append.
Qed.

(** X20.  A command given as one string is split at every single
    space, and nothing is lost: joining the words with single spaces
    gives the string back; there is always at least one word and no
    word holds a space. *)
Theorem command_config_round_trip s :
  exists command,
    command_config (PStr s) = Ok command
    /\ String.concat " " command = s
    /\ command <> []
    /\ forall word, word ∈ command -> no_space word = true.
Proof.
  exists (split_space "" s). split; [done|]. by apply (split_space_join "" s).
Qed.

Lemma config_get_required name config key v :
  config_get name config key None = Ok v -> chain_get config key = Some v.
Proof. unfold config_get. destruct (chain_get config key); [by intros [= ->]|done]. Qed.

Lemma config_get_missing name config key :
  chain_get config key = None ->
  config_get name config key None
  = Raise (RuntimeError ("Missing required key '" +:+ key +:+ "' in " +:+ name)).
Proof. unfold config_get. by intros ->. Qed.

Lemma is_text_eq v text : is_text v text = true -> v = PStr text.
Proof. destruct v; try done. cbn. by intros ->%String.eqb_eq. Qed.

Lemma compression_of_Ok compression chosen :
  compression_of compression = Ok chosen ->
  (compression = PStr "xz" /\ chosen = (".tar.xz", "J"))
  \/ (compression = PStr "gz" /\ chosen = (".tar.gz", "z"))
  \/ (compression = PStr "bz2" /\ chosen = (".tar.bz2", "j")).
Proof.
  unfold compression_of.
  destruct (is_text compression "xz") eqn:H1.
  { intros [= <-]. left. by apply is_text_eq in H1. }
  destruct (is_text compression "gz") eqn:H2.
  { intros [= <-]. right. left. by apply is_text_eq in H2. }
  destruct (is_text compression "bz2") eqn:H3.
  { intros [= <-]. right. right. by apply is_text_eq in H3. }
  by destruct (render compression).
Qed.

Ltac inv_binds H :=
  repeat (first [ apply bind_Ok in H as (? & ? & H) | progress cbv zeta in H ]).

(** How [_setup_check_exe] can succeed: with a marker file that the
    target names, or with a probe. *)
Lemma setup_check_Ok name config path_name c :
  _setup_check_exe name config path_name = Ok c ->
  (exists file, chain_get config "check_file" = Some (PStr file)
                /\ file <> "" /\ cs_file c = join path_name file)
  \/ (chain_mem config "check_exe" = true /\ cs_file c = ""
      /\ exists exe args, cs_call c = join path_name exe :: args).
Proof.
  unfold _setup_check_exe. intros H.
  apply bind_Ok in H as (env_v & _ & H). apply bind_Ok in H as (entries & _ & H).
  apply bind_Ok in H as (check_env & _ & H). apply bind_Ok in H as (cf & Hcf & H).
  destruct (truthy cf) eqn:Htruthy.
  - left. apply bind_Ok in H as (file & Hfile & H). injection H as <-.
    destruct cf; try done. injection Hfile as ->. exists file.
    unfold config_get in Hcf. destruct (chain_get config "check_file") as [v|].
    + injection Hcf as ->. split; [done|]. split; [|done]. intros ->. done.
    + by injection Hcf.
  - right. apply bind_Ok in H as (exe_v & Hexe & H). apply config_get_required in Hexe.
    apply bind_Ok in H as (call & _ & H). destruct call as [|exe args]; [done|].
    injection H as <-. unfold chain_mem. rewrite Hexe. split; [done|]. split; [done|].
    by exists exe, args.
Qed.

(** X21.  A tarball installable is only built from a target that
    has the fields ['dir'] and ['url'], one of the three known
    values of ['compression'], and a marker file or a probe; a
    target without ['dir'] is refused with the error that names the
    field and the installable. *)
Theorem tarball_needs_its_keys depends config :
  (forall inst,
      TarballInstallable_init depends config = Ok inst ->
      chain_mem config "dir" = true
      /\ chain_mem config "url" = true
      /\ (chain_get config "compression" = Some (PStr "xz")
          \/ chain_get config "compression" = Some (PStr "gz")
          \/ chain_get config "compression" = Some (PStr "bz2"))
      /\ ((exists file, chain_get config "check_file" = Some (PStr file) /\ file <> "")
          \/ chain_mem config "check_exe" = true))
  /\ (forall b,
         Installable_init config = Ok b ->
         chain_get config "dir" = None ->
         TarballInstallable_init depends config
         = Raise (RuntimeError ("Missing required key 'dir' in " +:+ i_name b))).
Proof.
  split.
  - intros inst H. unfold TarballInstallable_init in H. inv_binds H.
    repeat match goal with
           | Hget : config_get _ config _ None = Ok _ |- _ =>
               apply config_get_required in Hget
           end.
    unfold chain_mem.
    repeat match goal with
           | Hget : chain_get config _ = Some _ |- _ => rewrite Hget
           end.
    split; [done|]. split; [done|]. split.
    + match goal with
      | Hc : compression_of _ = Ok _ |- _ =>
          apply compression_of_Ok in Hc as [[-> _]|[[-> _]|[-> _]]]; auto
      end.
    + match goal with
      | Hc : _setup_check_exe _ _ _ = Ok _ |- _ =>
          apply setup_check_Ok in Hc as [(file & Hfile & Hne & _)|(Hexe & _)]
      end.
      * left. by exists file.
      * right. exact Hexe.
  - intros b Hb Hdir. unfold TarballInstallable_init. rewrite Hb. cbn [bind].
    by rewrite config_get_missing.
Qed.

Lemma tarball_needs_its_keys_witness :
  chain_mem tarball_target "dir" = true
  /\ chain_mem tarball_target "url" = true
  /\ (chain_get tarball_target "compression" = Some (PStr "xz")
      \/ chain_get tarball_target "compression" = Some (PStr "gz")
      \/ chain_get tarball_target "compression" = Some (PStr "bz2"))
  /\ ((exists file, chain_get tarball_target "check_file" = Some (PStr file) /\ file <> "")
      \/ chain_mem tarball_target "check_exe" = true).
Proof.
  destruct (tarball_needs_its_keys [] tarball_target) as [H _].
  eapply H. vm_compute. reflexivity.
Defined.

(** X22.  The flag with which an S3 tarball is unpacked goes with
    the extension of the archive that is fetched: [.tar.xz] with
    [J], [.tar.gz] with [z], [.tar.bz2] with [j]; no other pair is
    built, and an S3 tarball has no link check. *)
Theorem s3_flag_matches_extension depends config inst :
  S3TarballInstallable_init depends config = Ok inst ->
  exists t,
    kind inst = S3Tarball t
    /\ ((ends_with ".tar.xz" (s3_s3_path t) /\ s3_decompress_flag t = "J")
        \/ (ends_with ".tar.gz" (s3_s3_path t) /\ s3_decompress_flag t = "z")
        \/ (ends_with ".tar.bz2" (s3_s3_path t) /\ s3_decompress_flag t = "j"))
    /\ _check_link inst = None.
Proof.
  intros H. unfold S3TarballInstallable_init in H. inv_binds H.
  injection H as <-. eexists. split; [reflexivity|]. split; [|done]. cbn.
  match goal with
  | Hc : compression_of _ = Ok _ |- _ =>
      apply compression_of_Ok in Hc as [[_ ->]|[[_ ->]|[_ ->]]]
  end.
  - left. split; [by eexists|done].
  - right. left. split; [by eexists|done].
  - right. right. split; [by eexists|done].
Qed.

Lemma s3_flag_matches_extension_witness :
  exists t,
    S3Tarball {| s3_subdir := "";
                 s3_s3_path := "clang-7.0.0.tar.gz";
                 s3_path_name := "clang-7.0.0";
                 s3_untar_dir := "clang-7.0.0";
                 s3_decompress_flag := "z";
                 s3_strip := StripBool false |}
    = S3Tarball t
    /\ ((ends_with ".tar.xz" (s3_s3_path t) /\ s3_decompress_flag t = "J")
        \/ (ends_with ".tar.gz" (s3_s3_path t) /\ s3_decompress_flag t = "z")
        \/ (ends_with ".tar.bz2" (s3_s3_path t) /\ s3_decompress_flag t = "j"))
    /\ (None : option (string * string)) = None.
Proof.
  eapply (s3_flag_matches_extension [] s3_target
            (make {| i_target_name := PStr "7.0.0";
                     i_context := ["compilers"; "clang"];
                     i_name := "compilers/clang 7.0.0";
                     i_install_always := false;
                     i_build_type := PStr "" |}
               [] None
               {| cs_env := []; cs_file := "";
                  cs_call := ["clang-7.0.0/bin/clang"; "--version"] |}
               (S3Tarball {| s3_subdir := "";
                             s3_s3_path := "clang-7.0.0.tar.gz";
                             s3_path_name := "clang-7.0.0";
                             s3_untar_dir := "clang-7.0.0";
                             s3_decompress_flag := "z";
                             s3_strip := StripBool false |}))).
  vm_compute. reflexivity.
Defined.

Lemma init_without_context config name :
  (chain_get config "context" = None \/ chain_get config "context" = Some (PList [])) ->
  render (config_lookup config "name" (PStr "(unnamed)")) = Ok name ->
  exists b, Installable_init config = Ok b /\ i_context b = [].
Proof.
  intros Hctx Hname. unfold Installable_init. rewrite Hname.
  assert (config_lookup config "context" (PList []) = PList []) as ->
    by (unfold config_lookup; by destruct Hctx as [->| ->]).
  cbn. eexists. by split.
Qed.

(** X23.  The classes that name their files after the last entry of
    the context cannot be built from a target at the top of the
    document: with an empty context the constructors of the S3
    tarball, the GitHub library and the nightly fail on the lookup
    of that entry, and the nightly does so before the listing of S3
    is consulted. *)
Theorem top_level_needs_a_context depends config name :
  (chain_get config "context" = None \/ chain_get config "context" = Some (PList [])) ->
  render (config_lookup config "name" (PStr "(unnamed)")) = Ok name ->
  S3TarballInstallable_init depends config
  = Raise (IndexError "list index out of range")
  /\ GitHubInstallable_init depends config
     = Raise (IndexError "list index out of range")
  /\ forall L memo,
       NightlyInstallable_init L memo depends config
       = (memo, raise (IndexError "list index out of range")).
Proof.
  intros Hctx Hname.
  destruct (init_without_context config name Hctx Hname) as (b & Hb & Hempty).
  assert (forall key dflt, exists v, config_get (i_name b) config key (Some dflt) = Ok v)
    as Hget.
  { intros key dflt. unfold config_get. destruct (chain_get config key); eauto. }
  split; [|split].
  - unfold S3TarballInstallable_init. rewrite Hb. cbn [bind].
    destruct (Hget "subdir" (PStr "")) as [v ->]. cbn [bind]. by rewrite Hempty.
  - unfold GitHubInstallable_init. rewrite Hb. cbn [bind]. by rewrite Hempty.
  - intros L memo. unfold NightlyInstallable_init. rewrite Hb. cbn [bind].
    destruct (Hget "subdir" (PStr "")) as [v ->]. cbn [bind].
    destruct (Hget "strip" (PBool false)) as [v' ->]. cbn [bind]. by rewrite Hempty.
Qed.

Lemma top_level_needs_a_context_witness :
  S3TarballInstallable_init [] top_target = Raise (IndexError "list index out of range")
  /\ GitHubInstallable_init [] top_target = Raise (IndexError "list index out of range")
  /\ NightlyInstallable_init nightly_listing None [] top_target
     = (None, raise (IndexError "list index out of range")).
Proof.
  destruct (top_level_needs_a_context [] top_target "trunk") as (H1 & H2 & H3);
    [by right|reflexivity|].
  split; [exact H1|]. split; [exact H2|apply H3].
Defined.

Lemma nonempty_join a b : nonempty b = true -> nonempty (join a b) = true.
Proof.
  unfold nonempty, join. destruct b as [|c b]; [done|]. intros _.
  destruct (starts_with_slash (String c b)); [done|].
  destruct (String.eqb a "" || ends_with_slash a).
  - by destruct a.
  - by destruct a.
Qed.

Lemma nonempty_append_slash a b : nonempty (a +:+ "/" +:+ b) = true.
Proof. unfold nonempty. by destruct a. Qed.

(** X24.  Whether a library from GitHub is installed is decided by
    a marker file alone: the constructor always sets one
    ([CMakeLists.txt] or [Makefile] under the path of the library
    by the build type, or the configured file) and no link check,
    so [is_installed] answers whether that file exists and never
    runs a probe. *)
Theorem github_is_checked_by_marker depends config inst :
  GitHubInstallable_init depends config = Ok inst ->
  marker_only inst
  /\ forall E ctx w,
       snd (is_installed E ctx inst w)
       = Ok (isfile (fs w) (Destination, check_file inst)).
Proof.
  intros H.
  assert (marker_only inst) as [Hlink Hfile].
  { unfold GitHubInstallable_init in H. inv_binds H.
    destruct (String.eqb _ ""); [done|].
    destruct (split_char "/" "" _) as [|? [|reponame ?]]; try done.
    inv_binds H. injection H as <-. split; [done|]. cbn.
    match goal with
    | Hc : (if is_text _ "" then _ else _) = Ok _ |- _ => rename Hc into Hcheck
    end.
    destruct (is_text _ "").
    - destruct (is_text (i_build_type _) "cmake");
        [injection Hcheck as <-; by apply nonempty_join|].
      destruct (is_text (i_build_type _) "make");
        [injection Hcheck as <-; by apply nonempty_join|done].
    - apply bind_Ok in Hcheck as (shown & _ & Hcheck). injection Hcheck as <-.
      apply nonempty_append_slash. }
  split; [by split|]. intros E ctx w.
  rewrite is_installed_answer. unfold resolution, link_verdict.
  by rewrite Hlink, Hfile.
Qed.

Lemma github_is_checked_by_marker_witness : marker_only fmt_library.
Proof.
  eapply (github_is_checked_by_marker [gcc_tarball] github_target). vm_compute. reflexivity.
Defined.

Lemma set_link_sets ctx source dest w w' :
  dry_run ctx = false ->
  set_link ctx source dest w = (w', Ok tt) ->
  fs w' !! (Destination, dest) = Some (Symlink source).
Proof.
  intros Hdry. destruct w as [f l faults]. rewrite set_link_run by done.
  set (d := (Destination, dest) : path).
  assert (forall (g : gmap path entry) l0,
             os_symlink source d (World g l0 faults) = (w', Ok tt) ->
             fs w' !! d = Some (Symlink source)) as Hlast.
  { intros g l0. rewrite os_symlink_run. destruct (g !! d); [done|].
    intros [= <-]. apply lookup_insert_eq. }
  destruct (exists_ f d); [|by apply Hlast].
  rewrite os_remove_run. destruct (f !! d) as [[c|data|target]|]; try done;
    by apply Hlast.
Qed.

(** A run that ends with [set_link] leaves the link in place. *)
Lemma ends_with_set_link {A} (m : IO A) ctx source dest w w' :
  dry_run ctx = false ->
  (m ;; set_link ctx source dest ;; ret true) w = (w', Ok true) ->
  fs w' !! (Destination, dest) = Some (Symlink source).
Proof.
  intros Hdry H. apply iobind_Ok in H as (w1 & a & _ & H).
  apply iobind_Ok in H as (w2 & [] & Hlink & H). injection H as <-.
  by eapply set_link_sets.
Qed.

Lemma built_checks_link_set depends config inst :
  built depends config inst -> _check_link inst = link_set inst.
Proof.
  unfold link_set.
  intros [H|[H|[H|[H|(L & memo & w & w' & H)]]]].
  - unfold TarballInstallable_init in H. inv_binds H. by injection H as <-.
  - unfold ScriptInstallable_init in H. inv_binds H. by injection H as <-.
  - unfold S3TarballInstallable_init in H. inv_binds H. by injection H as <-.
  - unfold GitHubInstallable_init in H. inv_binds H.
    destruct (String.eqb _ ""); [done|].
    destruct (split_char "/" "" _) as [|? [|reponame ?]]; try done.
    inv_binds H. by injection H as <-.
  - unfold NightlyInstallable_init in H.
    destruct (let! b := Installable_init config in _)
      as [[[[b subdir] strip] compiler_name]|e]; [|done].
    destruct (s3_available_compilers L memo) as [memo' [current|e]]; [|done].
    cbn [snd] in H.
    destruct (versions_of current compiler_name) as [versions|]; [|done].
    destruct (py_max versions) as [most_recent|]; [|done].
    unfold iobind, info, emit in H. cbn [fst snd fs log replace_faults] in H.
    match type of H with
    | context [match ?r with Ok installable => ret installable | Raise e => raise e end] =>
        destruct r as [installable|e] eqn:Hbuilt; [|done]
    end.
    injection H as _ <-. inv_binds Hbuilt. by injection Hbuilt as <-.
Qed.

(** X25.  An installation sets the link that [is_installed] checks:
    for an installable built by one of the five constructors, after
    an installation that went through with dry-run off, the link
    check of that installable passes. *)
Theorem install_sets_the_checked_link depends config inst E ctx w w' :
  built depends config inst ->
  dry_run ctx = false ->
  install E ctx inst w = (w', Ok true) ->
  link_verdict (fs w') inst = Ok true.
Proof.
  intros Hbuilt Hdry Hinstall. apply built_checks_link_set in Hbuilt.
  unfold link_verdict. rewrite Hbuilt. unfold link_set.
  unfold install in Hinstall. apply iobind_Ok in Hinstall as (w1 & ok & _ & Hsteps).
  destruct ok; [|done]. cbn [negb] in Hsteps. unfold install_steps in Hsteps.
  destruct (kind inst) as [g|t|n|t|s]; try done.
  - apply iobind_Ok in Hsteps as (w2 & [] & _ & Hsteps).
    apply iobind_Ok in Hsteps as (w3 & [] & _ & Hsteps).
    by rewrite (ends_with_set_link _ _ _ _ _ _ Hdry Hsteps), String.eqb_refl.
  - apply iobind_Ok in Hsteps as (w2 & [] & _ & Hsteps).
    unfold link_check. destruct (nonempty (tb_install_path_symlink t)); [|done].
    by rewrite (ends_with_set_link _ _ _ _ _ _ Hdry Hsteps), String.eqb_refl.
  - apply iobind_Ok in Hsteps as (w2 & [] & _ & Hsteps).
    unfold link_check. destruct (nonempty (sc_install_path_symlink s)); [|done].
    by rewrite (ends_with_set_link _ _ _ _ _ _ Hdry Hsteps), String.eqb_refl.
Qed.

Lemma install_sets_the_checked_link_witness :
  link_verdict
    (fs (fst (install (env_tarball "gcc-9.1.0" ["bin"]) ctx_live gcc_tarball world_empty)))
    gcc_tarball
  = Ok true.
Proof.
  apply (install_sets_the_checked_link [] tarball_target gcc_tarball
           (env_tarball "gcc-9.1.0" ["bin"]) ctx_live world_empty).
  - left. vm_compute. reflexivity.
  - reflexivity.
  - vm_compute. reflexivity.
Defined.

End Constructing.

(** ** The build folder of a combination *)

Section BuildFolders.
Import Ctx Build IONotions BuildNotions MoreExamples.

Lemma underscore_not_root (a b : string) : is_root (Staging, a +:+ "_" +:+ b) = false.
Proof.
  unfold is_root. cbn [snd]. apply orb_false_intro; apply String.eqb_neq; intros H.
  - by destruct a.
  - destruct a as [|x [|y r]]; by inversion H.
Qed.

Lemma cmake_folder_not_root B c : is_root (cmake_folder B c) = false.
Proof. apply underscore_not_root. Qed.

Lemma isdir_of_dir (f : gmap path entry) (p : path) l :
  is_root p = false -> f !! p = Some (Dir l) -> isdir f p = true.
Proof. intros Hroot Hp. unfold isdir, stat. by rewrite Hroot, Hp. Qed.

Lemma isdir_of_free (f : gmap path entry) (p : path) :
  is_root p = false -> f !! p = None -> isdir f p = false.
Proof. intros Hroot Hp. unfold isdir, stat. by rewrite Hroot, Hp. Qed.

(** X26.  The build folder of a CMake build lives as long as the
    build is of use: when the name is free or a directory, the
    folder is a directory after an attempt that failed (to build or
    to upload) and after any attempt in dry-run mode, and it is gone
    after an attempt that succeeded with dry-run off. *)
Theorem cmake_folder_lifecycle B ctx self c w w' ok :
  build_type self = "cmake" ->
  free_or_dir (fs w) (cmake_folder B c) ->
  makebuildfor B ctx self c w = (w', Ok ok) ->
  if ok && negb (dry_run ctx)
  then fs w' !! cmake_folder B c = None
  else exists l, fs w' !! cmake_folder B c = Some (Dir l).
Proof.
  intros Hcmake Hfree Hrun.
  assert (Hroot := cmake_folder_not_root B c).
  unfold makebuildfor, makebuildhash, b_info, b_debug, executebuildscript,
    executeconanscript, build_cleanup, rmtree in Hrun.
  rewrite Hcmake in Hrun. change (String.eqb "cmake" "cmake") with true in Hrun.
  fold (cmake_folder B c) in Hrun.
  unfold iobind, ret, info, debug, emit, get_fs, set_fs in Hrun.
  cbn -[isdir describe String.append] in Hrun.
  fold (cmake_folder B c) in Hrun.
  destruct Hfree as [Hnone | [l Hdir]].
  - rewrite (isdir_of_free _ _ Hroot Hnone) in Hrun. cbn -[cmake_folder String.append] in Hrun.
    destruct (build_exit B c =? 0)%Z; cbn -[cmake_folder String.append] in Hrun.
    + destruct (dry_run ctx); cbn -[cmake_folder String.append] in Hrun.
      * injection Hrun as <- <-. cbn. exists []. by rewrite lookup_insert_eq.
      * destruct (filesfound B c); cbn -[cmake_folder String.append] in Hrun.
        -- injection Hrun as <- <-. cbn. exists []. by rewrite lookup_insert_eq.
        -- destruct (conan_exit B c =? 0)%Z; cbn in Hrun; injection Hrun as <- <-; cbn.
           ++ by rewrite lookup_delete_eq.
           ++ exists []. by rewrite lookup_insert_eq.
    + injection Hrun as <- <-. rewrite andb_false_l. cbn.
      exists []. by rewrite lookup_insert_eq.
  - rewrite (isdir_of_dir _ _ _ Hroot Hdir) in Hrun. cbn -[cmake_folder String.append] in Hrun.
    destruct (build_exit B c =? 0)%Z; cbn -[cmake_folder String.append] in Hrun.
    + destruct (dry_run ctx); cbn -[cmake_folder String.append] in Hrun.
      * injection Hrun as <- <-. cbn. by exists l.
      * destruct (filesfound B c); cbn -[cmake_folder String.append] in Hrun.
        -- injection Hrun as <- <-. cbn. by exists l.
        -- destruct (conan_exit B c =? 0)%Z; cbn in Hrun; injection Hrun as <- <-; cbn.
           ++ by rewrite lookup_delete_eq.
           ++ by exists l.
    + injection Hrun as <- <-. rewrite andb_false_l. cbn. by exists l.
Qed.

Lemma cmake_folder_lifecycle_witness :
  fs (fst (makebuildfor (build_env_with 0) ctx_build fmt_buildable g91_x86_64 world_empty))
    !! cmake_folder (build_env_with 0) g91_x86_64 = None.
Proof.
  apply (cmake_folder_lifecycle (build_env_with 0) ctx_build fmt_buildable g91_x86_64
           world_empty _ true).
  - reflexivity.
  - by left.
  - vm_compute. reflexivity.
Defined.

End BuildFolders.

(** ** The options of a compiler and the probe of its architectures *)

Section Probing.
Import Ctx Options OptionNotions.

Lemma strip_prefix_Some literal s rest :
  strip_prefix literal s = Some rest <-> s = literal +:+ rest.
Proof.
  revert s. induction literal as [|a literal IH]; intros s.
  - cbn. split; [by intros [= ->] | by intros ->].
  - destruct s as [|b s]; [by split|].
    cbn [strip_prefix]. change (String a literal +:+ rest) with (String a (literal +:+ rest)).
    destruct (Ascii.eqb_spec a b) as [->|Hne].
    + rewrite IH. split; [by intros -> | by intros [= ->]].
    + split; [done | intros [= ? ?]; by subst].
Qed.

Lemma after_first_Some literal s rest :
  after_first literal s = Some rest ->
  exists pre,
    s = pre +:+ literal +:+ rest
    /\ forall pre' post',
         s = pre' +:+ literal +:+ post' -> (String.length pre <= String.length pre')%nat.
Proof.
  induction s as [|c s IH]; cbn [after_first];
    destruct (strip_prefix literal _) as [found|] eqn:Hp; try done.
  - intros [= ->]. exists "". split; [by apply strip_prefix_Some in Hp |].
    intros pre' post' _. cbn. lia.
  - intros [= ->]. exists "". split; [by apply strip_prefix_Some in Hp |].
    intros pre' post' _. cbn. lia.
  - intros Hrest. destruct (IH Hrest) as (pre & Hs & Hmin). exists (String c pre).
    split; [by rewrite Hs at 1|].
    intros [|c' pre'] post' Heq.
    + change (String c s = literal +:+ post') in Heq.
      apply strip_prefix_Some in Heq. congruence.
    + injection Heq as _ Heq. apply Hmin in Heq. cbn. lia.
Qed.

Lemma after_first_None literal s :
  after_first literal s = None -> forall pre post, s <> pre +:+ literal +:+ post.
Proof.
  induction s as [|c s IH]; cbn [after_first];
    destruct (strip_prefix literal _) as [found|] eqn:Hp; try done;
    intros Hnone [|c' pre'] post Heq.
  - change ("" = literal +:+ post) in Heq.
    apply strip_prefix_Some in Heq. congruence.
  - done.
  - change (String c s = literal +:+ post) in Heq.
    apply strip_prefix_Some in Heq. congruence.
  - injection Heq as _ Heq. by apply (IH Hnone pre' post).
Qed.

Lemma non_space_run_spec s :
  exists post,
    s = non_space_run s +:+ post
    /\ no_whitespace (non_space_run s) = true
    /\ at_word_end post.
Proof.
  induction s as [|c s (post & Hs & Hw & He)]; cbn [non_space_run].
  - exists "". repeat split. by left.
  - destruct (is_space c) eqn:Hc.
    + exists (String c s). repeat split. right. by exists c, s.
    + exists post. cbn [no_whitespace]. rewrite Hc, Hw. repeat split; [|done].
      change (String c (non_space_run s) +:+ post)
        with (String c (non_space_run s +:+ post)).
      by f_equal.
Qed.

Lemma search_word_spec literal options :
  word_after literal options (search_word literal options).
Proof.
  unfold search_word.
  destruct (after_first literal options) as [rest|] eqn:Hfound; cbn.
  - destruct (after_first_Some _ _ _ Hfound) as (pre & Hs & Hmin).
    destruct (non_space_run_spec rest) as (post & Hrest & Hw & He).
    exists pre, post. split; [by rewrite <- Hrest|done].
  - by apply after_first_None.
Qed.

(** X27.  The standard and the target of a compiler are read off
    its options as the word that follows the leftmost [-std=] and
    the leftmost [-target] with one space: the characters up to the
    next whitespace or the end, possibly none; they are absent
    exactly when the flag does not occur. *)
Theorem option_word_follows_the_flag options :
  word_after "-std=" options (getStdVerFromOptions options)
  /\ word_after "-target " options (getTargetFromOptions options).
Proof. split; apply search_word_spec. Qed.

Lemma no_target_in_nothing : getTargetFromOptions "" = None.
Proof. reflexivity. Qed.

(** X28.  A target fixed in the options decides on its own whether
    the compiler supports an architecture: the answer is whether
    the two are the same text, no process is run and nothing is
    logged; so a compiler with a fixed target other than [x86]
    never supports x86.  A flag that no word follows counts as no
    flag. *)
Theorem fixed_target_decides_support P exe compilerType arch options target :
  getTargetFromOptions options = Some target ->
  does_compiler_support P exe compilerType arch options
  = (if String.eqb target "" then does_compiler_support P exe compilerType arch ""
     else ret (String.eqb target arch))
  /\ (target <> "" -> target <> "x86" ->
      does_compiler_support_x86 P exe compilerType options = ret false).
Proof.
  intros Htarget. split.
  - unfold does_compiler_support. rewrite Htarget, no_target_in_nothing.
    by destruct target.
  - intros Hsome Hx86. unfold does_compiler_support_x86, does_compiler_support.
    rewrite Htarget. destruct target as [|c target]; [done|].
    by apply String.eqb_neq in Hx86 as ->.
Qed.

Lemma fixed_target_decides_support_witness :
  does_compiler_support (fixed_probes 0 "x86 arm" true)
    "/opt/compiler-explorer/clang-9.0.0/bin/clang++" "clang" "arm" "-O2 -target arm -g"
  = ret true
  /\ (("arm" : string) <> "" -> ("arm" : string) <> "x86" ->
      does_compiler_support_x86 (fixed_probes 0 "x86 arm" true)
        "/opt/compiler-explorer/clang-9.0.0/bin/clang++" "clang" "-O2 -target arm -g"
      = ret false).
Proof.
  apply (fixed_target_decides_support (fixed_probes 0 "x86 arm" true)
           "/opt/compiler-explorer/clang-9.0.0/bin/clang++" "clang" "arm"
           "-O2 -target arm -g" "arm").
  reflexivity.
Defined.

Lemma contains_nothing arch : contains arch "" = String.eqb arch "".
Proof. by destruct arch. Qed.

(** X29.  Where no probe is run, only the empty architecture is
    supported: without a fixed target, a compiler of a type other
    than the GCC-like [""] and [clang], and a clang that has no
    [llc] beside it, support an architecture exactly when its name
    is empty; the answer is given without an error and the file
    system is not touched. *)
Theorem no_probe_no_support P exe compilerType arch options w :
  (getTargetFromOptions options = None \/ getTargetFromOptions options = Some "") ->
  compilerType <> "" ->
  (compilerType = "clang" -> path_exists P (join (os_path_dirname exe) "llc") = false) ->
  snd (does_compiler_support P exe compilerType arch options w) = Ok (String.eqb arch "")
  /\ fs (fst (does_compiler_support P exe compilerType arch options w)) = fs w.
Proof.
  intros Htarget Htype Hllc.
  assert (does_compiler_support P exe compilerType arch options
          = does_compiler_support P exe compilerType arch "") as ->.
  { unfold does_compiler_support. rewrite no_target_in_nothing.
    by destruct Htarget as [-> | ->]. }
  unfold does_compiler_support. rewrite no_target_in_nothing.
  apply String.eqb_neq in Htype as ->.
  destruct (String.eqb_spec compilerType "clang") as [Hclang|_].
  - rewrite (Hllc Hclang). unfold iobind, ret, debug, emit. cbn.
    rewrite contains_nothing. by destruct (String.eqb arch "").
  - unfold iobind, ret, debug, emit. cbn.
    rewrite contains_nothing. by destruct (String.eqb arch "").
Qed.

Lemma no_probe_no_support_witness :
  snd (does_compiler_support (fixed_probes 0 "x86" false)
         "/opt/compiler-explorer/clang-9.0.0/bin/clang++" "clang" "x86" "-O2"
         (World ∅ [] []))
  = Ok false.
Proof.
  apply (no_probe_no_support (fixed_probes 0 "x86" false)
           "/opt/compiler-explorer/clang-9.0.0/bin/clang++" "clang" "x86" "-O2"
           (World ∅ [] [])).
  - by left.
  - done.
  - reflexivity.
Defined.

End Probing.
